(** * lsp-poc: a bridge from an editor's code intelligence to local clients

    Shallow embedding of the TypeScript / JavaScript sources:

    - [test-client-standalone.js]: the dependency-free JSON-RPC client
      ([SimpleJsonRpcClient.processBuffer], [sendRequest]) and the client's
      [generatePipeName];
    - the named-pipe extension (two revisions, both kept in the source
      tree): [generatePipeName], [handleFindReferences],
      [findSymbolInDocuments], [findSymbolLocation], [findSymbolInTree];
    - [src/extension.ts]: the HTTP extension ([startServer]).

    JavaScript strings are sequences of UTF-16 code units; sockets carry
    octets.  Both are lists of [Z] here, so that [length] is the JavaScript
    [.length] on a string and the byte count on a buffer. *)

From Stdlib Require Import String Ascii.
From Stdlib Require Import ZArith List Bool Lia Arith.
Import ListNotations.
Local Open Scope Z_scope.

(* ================================================================== *)
(** * Part I. Definitions *)
(* ================================================================== *)

(** ** JavaScript strings *)

Module JS.

(** A string value: its UTF-16 code units, each in [0, 65535]. *)
Definition jsstring := list Z.

(** An octet sequence (a Node [Buffer]): each element in [0, 255]. *)
Definition buffer := list Z.

(** Literals: an ASCII literal of the source, as code units. *)
Fixpoint str (s : string) : jsstring :=
  match s with
  | EmptyString => []
  | String c rest => Z.of_N (N_of_ascii c) :: str rest
  end.

(** The double quote character, U+0022. *)
Definition dquote : Z := 34.

Fixpoint jsstring_eqb (a b : jsstring) : bool :=
  match a, b with
  | [], [] => true
  | x :: a', y :: b' => (x =? y) && jsstring_eqb a' b'
  | _, _ => false
  end.

Definition is_ascii_unit (c : Z) : Prop := 0 <= c < 128.
Definition is_ascii (s : jsstring) : Prop := Forall is_ascii_unit s.

(** [s.substring(a, b)]: the code units from [min a b] up to, not
    including, [max a b], clamped to the string. *)
Definition substring (a b : nat) (s : jsstring) : jsstring :=
  firstn (Nat.max a b - Nat.min a b) (skipn (Nat.min a b) s).

(** [s.substring(a)]: everything from index [a] on. *)
Definition substring_from (a : nat) (s : jsstring) : jsstring := skipn a s.

(** [s.startsWith(p)], used by [indexOf] and by the regular expressions. *)
Fixpoint starts_with (p s : jsstring) : bool :=
  match p, s with
  | [], _ => true
  | x :: p', y :: s' => (x =? y) && starts_with p' s'
  | _ :: _, [] => false
  end.

(** [s.indexOf(p)]: the first index at which [p] occurs; [None] is the
    source's [-1]. *)
Fixpoint indexOf (p s : jsstring) : option nat :=
  if starts_with p s then Some 0%nat
  else match s with
       | [] => None
       | _ :: s' => option_map S (indexOf p s')
       end.

(** *** Numbers in template literals and [parseInt] *)

Fixpoint decimal_aux (fuel : nat) (n : nat) (acc : jsstring) : jsstring :=
  match fuel with
  | O => acc
  | S fuel' =>
      let acc' := (48 + Z.of_nat (n mod 10)) :: acc in
      if (n <? 10)%nat then acc' else decimal_aux fuel' (n / 10) acc'
  end.

(** [String(n)] for a non-negative integer: its decimal digits. *)
Definition decimal (n : nat) : jsstring := decimal_aux (S n) n [].

Definition is_digit (c : Z) : bool := (48 <=? c) && (c <=? 57).

(** [parseInt(ds)] on a string the regular expression class [\d+] has
    matched: the decimal value.  Exact as long as the value is below
    2^53, which every length of a string is. *)
Definition parseInt (ds : jsstring) : nat :=
  fold_left (fun acc d => (acc * 10 + Z.to_nat (d - 48))%nat) ds 0%nat.

(** *** UTF-8 *)

Definition is_high_surrogate (c : Z) : bool := (0xD800 <=? c) && (c <=? 0xDBFF).
Definition is_low_surrogate (c : Z) : bool := (0xDC00 <=? c) && (c <=? 0xDFFF).

Definition utf8_of_code_point (cp : Z) : buffer :=
  if cp <? 0x80 then [cp]
  else if cp <? 0x800 then
    [Z.lor 0xC0 (Z.shiftr cp 6); Z.lor 0x80 (Z.land cp 0x3F)]
  else if cp <? 0x10000 then
    [Z.lor 0xE0 (Z.shiftr cp 12);
     Z.lor 0x80 (Z.land (Z.shiftr cp 6) 0x3F);
     Z.lor 0x80 (Z.land cp 0x3F)]
  else
    [Z.lor 0xF0 (Z.shiftr cp 18);
     Z.lor 0x80 (Z.land (Z.shiftr cp 12) 0x3F);
     Z.lor 0x80 (Z.land (Z.shiftr cp 6) 0x3F);
     Z.lor 0x80 (Z.land cp 0x3F)].

(** U+FFFD REPLACEMENT CHARACTER, as UTF-8. *)
Definition replacement_utf8 : buffer := [0xEF; 0xBF; 0xBD].

(** The octets Node writes for a string ([socket.write(s)],
    [Buffer.from(s)], [hash.update(s)]): UTF-8, a surrogate pair as one
    four-octet sequence, a lone surrogate as U+FFFD. *)
Fixpoint utf8_encode (s : jsstring) : buffer :=
  match s with
  | [] => []
  | c :: rest =>
      if is_high_surrogate c then
        match rest with
        | d :: rest' =>
            if is_low_surrogate d then
              utf8_of_code_point
                (0x10000 + Z.shiftl (c - 0xD800) 10 + (d - 0xDC00))
              ++ utf8_encode rest'
            else replacement_utf8 ++ utf8_encode rest
        | [] => replacement_utf8
        end
      else if is_low_surrogate c then replacement_utf8 ++ utf8_encode rest
      else utf8_of_code_point c ++ utf8_encode rest
  end.

(** [Buffer.byteLength(s)]. *)
Definition byteLength (s : jsstring) : nat := length (utf8_encode s).

Definition utf16_of_code_point (cp : Z) : jsstring :=
  if cp <? 0x10000 then [cp]
  else [0xD800 + Z.shiftr (cp - 0x10000) 10;
        0xDC00 + Z.land (cp - 0x10000) 0x3FF].

(** The first octet of a sequence, decoder idle.  [k remaining cp lo hi]
    continues with the rest of the input. *)
Definition utf8_lead (k : nat -> Z -> Z -> Z -> jsstring) (b : Z) : jsstring :=
  if b <=? 0x7F then b :: k 0%nat 0 0x80 0xBF
  else if (0xC2 <=? b) && (b <=? 0xDF) then k 1%nat (Z.land b 0x1F) 0x80 0xBF
  else if (0xE0 <=? b) && (b <=? 0xEF) then
    k 2%nat (Z.land b 0xF)
      (if b =? 0xE0 then 0xA0 else 0x80) (if b =? 0xED then 0x9F else 0xBF)
  else if (0xF0 <=? b) && (b <=? 0xF4) then
    k 3%nat (Z.land b 0x7)
      (if b =? 0xF0 then 0x90 else 0x80) (if b =? 0xF4 then 0x8F else 0xBF)
  else 0xFFFD :: k 0%nat 0 0x80 0xBF.

(** The UTF-8 decoder of [buf.toString()]: [remaining] continuation octets
    are still expected for code point [cp], the next one within [lo, hi].
    An octet that cannot continue the sequence yields U+FFFD and is read
    again as a first octet; so does a sequence cut by the end of input. *)
Fixpoint utf8_decode_from (remaining : nat) (cp lo hi : Z) (bs : buffer)
  : jsstring :=
  match bs with
  | [] => match remaining with O => [] | S _ => [0xFFFD] end
  | b :: bs' =>
      match remaining with
      | O => utf8_lead (fun r c l h => utf8_decode_from r c l h bs') b
      | S r =>
          if (lo <=? b) && (b <=? hi) then
            let cp' := Z.lor (Z.shiftl cp 6) (Z.land b 0x3F) in
            match r with
            | O => utf16_of_code_point cp' ++ utf8_decode_from 0 0 0x80 0xBF bs'
            | S _ => utf8_decode_from r cp' 0x80 0xBF bs'
            end
          else
            0xFFFD :: utf8_lead (fun r c l h => utf8_decode_from r c l h bs') b
      end
  end.

(** [data.toString()] on a [Buffer]: one-shot UTF-8 decoding of exactly
    these octets. *)
Definition toString (data : buffer) : jsstring :=
  utf8_decode_from 0 0 0x80 0xBF data.

End JS.

(** ** JSON values and [JSON.stringify] *)

Module Json.
Import JS.

(** A JSON value.  An object keeps its properties in insertion order, as a
    JavaScript object literal does; a property whose value is [undefined]
    is not serialized by [JSON.stringify] or [res.json] and is simply not
    listed. *)
#[warnings="-register-all"]
Inductive json : Type :=
| JNull
| JBool (b : bool)
| JNumber (n : Z)
| JString (s : jsstring)
| JArray (items : list json)
| JObject (props : list (jsstring * json)).

(** [obj.key]: the value of the first property named [key], [None] when
    the object has no such property (JavaScript's [undefined]). *)
Fixpoint get_prop (key : jsstring) (props : list (jsstring * json))
  : option json :=
  match props with
  | [] => None
  | (k, v) :: rest => if jsstring_eqb k key then Some v else get_prop key rest
  end.

Definition prop (key : jsstring) (j : json) : option json :=
  match j with
  | JObject props => get_prop key props
  | _ => None
  end.

(** [j.k1.k2. ... .kn]: chained property access, [None] as soon as a
    property is missing. *)
Fixpoint at_path (path : list jsstring) (j : json) : option json :=
  match path with
  | [] => Some j
  | key :: rest =>
      match prop key j with
      | Some v => at_path rest v
      | None => None
      end
  end.

Definition hex_digit (d : Z) : Z := if d <? 10 then 48 + d else 87 + d.

(** [\uXXXX] with four lower-case hexadecimal digits. *)
Definition unicode_escape (c : Z) : jsstring :=
  [92; 117; hex_digit (Z.land (Z.shiftr c 12) 0xF);
   hex_digit (Z.land (Z.shiftr c 8) 0xF);
   hex_digit (Z.land (Z.shiftr c 4) 0xF); hex_digit (Z.land c 0xF)].

(** One code unit that is not part of a surrogate pair. *)
Definition quote_unit (c : Z) : jsstring :=
  if c =? 0x08 then [92; 98]
  else if c =? 0x09 then [92; 116]
  else if c =? 0x0A then [92; 110]
  else if c =? 0x0C then [92; 102]
  else if c =? 0x0D then [92; 114]
  else if c =? 0x22 then [92; dquote]
  else if c =? 0x5C then [92; 92]
  else if (c <? 0x20) || is_high_surrogate c || is_low_surrogate c
  then unicode_escape c
  else [c].

Fixpoint quote_units (s : jsstring) : jsstring :=
  match s with
  | [] => []
  | c :: rest =>
      if is_high_surrogate c then
        match rest with
        | d :: rest' =>
            if is_low_surrogate d then c :: d :: quote_units rest'
            else quote_unit c ++ quote_units rest
        | [] => quote_unit c
        end
      else quote_unit c ++ quote_units rest
  end.

(** QuoteJSONString. *)
Definition quote (s : jsstring) : jsstring :=
  [dquote] ++ quote_units s ++ [dquote].

Definition number_text (n : Z) : jsstring :=
  if n <? 0 then 45 :: decimal (Z.to_nat (- n)) else decimal (Z.to_nat n).

(** [JSON.stringify(v)] without indentation. *)
Fixpoint stringify (v : json) : jsstring :=
  match v with
  | JNull => str "null"
  | JBool true => str "true"
  | JBool false => str "false"
  | JNumber n => number_text n
  | JString s => quote s
  | JArray items =>
      [91] ++
      (fix elements (xs : list json) : jsstring :=
         match xs with
         | [] => []
         | x :: xs' =>
             stringify x ++
             match xs' with [] => [] | _ :: _ => 44 :: elements xs' end
         end) items
      ++ [93]
  | JObject props =>
      [123] ++
      (fix members (ps : list (jsstring * json)) : jsstring :=
         match ps with
         | [] => []
         | (k, x) :: ps' =>
             quote k ++ [58] ++ stringify x ++
             match ps' with [] => [] | _ :: _ => 44 :: members ps' end
         end) props
      ++ [125]
  end.

End Json.

(** ** The message framer of the standalone client *)

Module Framer.
Import JS Json.

(** The header terminator, CR LF CR LF. *)
Definition CRLFCRLF : jsstring := [13; 10; 13; 10].

(** Case folding of the regular expression flag [i]: a code unit of the
    input matches a pattern character when both have the same
    canonical (upper-case) form.  The pattern below is ASCII, and no
    character outside ASCII canonicalizes to an ASCII one, so folding the
    ASCII letters decides every comparison against it. *)
Definition canonicalize (c : Z) : Z :=
  if (97 <=? c) && (c <=? 122) then c - 32 else c.

Fixpoint starts_with_ci (p s : jsstring) : bool :=
  match p, s with
  | [], _ => true
  | x :: p', y :: s' =>
      (canonicalize x =? canonicalize y) && starts_with_ci p' s'
  | _ :: _, [] => false
  end.

(** The longest prefix of decimal digits: a greedy [\d+] (or nothing). *)
Fixpoint take_digits (s : jsstring) : jsstring :=
  match s with
  | c :: rest => if is_digit c then c :: take_digits rest else []
  | [] => []
  end.

Definition content_length_label : jsstring := str "Content-Length: ".

(** [headers.match(/Content-Length: (\d+)/i)]: the first place where the
    label, in any letter case, is followed by at least one digit; the
    result is capture group 1, [None] when there is no match. *)
Fixpoint match_content_length (headers : jsstring) : option jsstring :=
  let here :=
    if starts_with_ci content_length_label headers then
      match take_digits (skipn (length content_length_label) headers) with
      | [] => None
      | ds => Some ds
      end
    else None in
  match here with
  | Some ds => Some ds
  | None =>
      match headers with
      | [] => None
      | _ :: rest => match_content_length rest
      end
  end.

(** The [while (true)] loop of [processBuffer] on [this.buffer].  The
    result is the list of [messageStr] values handed to [JSON.parse], in
    order, and the buffer left behind at the [break].  Every turn of the
    loop that does not break removes at least the four terminator units,
    so [fuel] counts turns; [None] only when it runs out. *)
Fixpoint processBuffer_loop (fuel : nat) (buffer : jsstring)
  : option (list jsstring * jsstring) :=
  match fuel with
  | O => None
  | S fuel' =>
      match indexOf CRLFCRLF buffer with
      | None => Some ([], buffer)
      | Some headerEnd =>
          let headers := substring 0 headerEnd buffer in
          match match_content_length headers with
          | None =>
              processBuffer_loop fuel' (substring_from (headerEnd + 4) buffer)
          | Some digits =>
              let contentLength := parseInt digits in
              let messageStart := (headerEnd + 4)%nat in
              let messageEnd := (messageStart + contentLength)%nat in
              if (length buffer <? messageEnd)%nat then Some ([], buffer)
              else
                let messageStr := substring messageStart messageEnd buffer in
                match processBuffer_loop fuel'
                        (substring_from messageEnd buffer) with
                | None => None
                | Some (messages, rest) => Some (messageStr :: messages, rest)
                end
          end
      end
  end.

Definition processBuffer (buffer : jsstring)
  : option (list jsstring * jsstring) :=
  processBuffer_loop (S (length buffer)) buffer.

(** The socket's ['data'] listener:
    [this.buffer += data.toString(); this.processBuffer()]. *)
Definition on_data (buffer : jsstring) (data : JS.buffer)
  : option (list jsstring * jsstring) :=
  processBuffer (buffer ++ toString data).

(** A connection's life: the chunks the socket delivers, one ['data']
    event each, starting from the buffer [buffer]. *)
Fixpoint receive (buffer : jsstring) (chunks : list JS.buffer)
  : option (list jsstring * jsstring) :=
  match chunks with
  | [] => Some ([], buffer)
  | data :: later =>
      match on_data buffer data with
      | None => None
      | Some (messages, buffer') =>
          match receive buffer' later with
          | None => None
          | Some (messages', buffer'') => Some (messages ++ messages', buffer'')
          end
      end
  end.

(** The request object of [sendRequest]:
    [{jsonrpc: '2.0', id, method, params}]. *)
Definition request (id : nat) (method : jsstring) (params : json) : json :=
  JObject [(str "jsonrpc", JString (str "2.0"));
           (str "id", JNumber (Z.of_nat id));
           (str "method", JString method);
           (str "params", params)].

(** [header + content] for a body text [content]. *)
Definition frame (content : jsstring) : jsstring :=
  (content_length_label ++ decimal (byteLength content) ++ CRLFCRLF)
  ++ content.

(** The octets [sendRequest] writes to the socket for the request
    numbered [id] (the value of [++this.messageId]). *)
Definition sendRequest (id : nat) (method : jsstring) (params : json)
  : JS.buffer :=
  utf8_encode (frame (stringify (request id method params))).

End Framer.

(** ** MD5, as [crypto.createHash('md5')] computes it (RFC 1321) *)

Module MD5.
Import JS.

Definition mask32 : Z := 0xFFFFFFFF.
Definition add32 (a b : Z) : Z := Z.land (a + b) mask32.
Definition not32 (a : Z) : Z := Z.lxor a mask32.
Definition rotl32 (x : Z) (c : Z) : Z :=
  Z.land (Z.lor (Z.shiftl x c) (Z.shiftr x (32 - c))) mask32.

Definition shifts : list Z :=
  [7; 12; 17; 22; 7; 12; 17; 22; 7; 12; 17; 22; 7; 12; 17; 22;
   5; 9; 14; 20; 5; 9; 14; 20; 5; 9; 14; 20; 5; 9; 14; 20;
   4; 11; 16; 23; 4; 11; 16; 23; 4; 11; 16; 23; 4; 11; 16; 23;
   6; 10; 15; 21; 6; 10; 15; 21; 6; 10; 15; 21; 6; 10; 15; 21].

Definition sines : list Z :=
  [0xd76aa478; 0xe8c7b756; 0x242070db; 0xc1bdceee;
   0xf57c0faf; 0x4787c62a; 0xa8304613; 0xfd469501;
   0x698098d8; 0x8b44f7af; 0xffff5bb1; 0x895cd7be;
   0x6b901122; 0xfd987193; 0xa679438e; 0x49b40821;
   0xf61e2562; 0xc040b340; 0x265e5a51; 0xe9b6c7aa;
   0xd62f105d; 0x02441453; 0xd8a1e681; 0xe7d3fbc8;
   0x21e1cde6; 0xc33707d6; 0xf4d50d87; 0x455a14ed;
   0xa9e3e905; 0xfcefa3f8; 0x676f02d9; 0x8d2a4c8a;
   0xfffa3942; 0x8771f681; 0x6d9d6122; 0xfde5380c;
   0xa4beea44; 0x4bdecfa9; 0xf6bb4b60; 0xbebfbc70;
   0x289b7ec6; 0xeaa127fa; 0xd4ef3085; 0x04881d05;
   0xd9d4d039; 0xe6db99e5; 0x1fa27cf8; 0xc4ac5665;
   0xf4292244; 0x432aff97; 0xab9423a7; 0xfc93a039;
   0x655b59c3; 0x8f0ccc92; 0xffeff47d; 0x85845dd1;
   0x6fa87e4f; 0xfe2ce6e0; 0xa3014314; 0x4e0811a1;
   0xf7537e82; 0xbd3af235; 0x2ad7d2bb; 0xeb86d391].

(** Little-endian 32-bit word of four octets, and back. *)
Definition word_of_octets (bs : list Z) : Z :=
  nth 0 bs 0 + Z.shiftl (nth 1 bs 0) 8 + Z.shiftl (nth 2 bs 0) 16
  + Z.shiftl (nth 3 bs 0) 24.

Definition octets_of_word (w : Z) : list Z :=
  [Z.land w 0xFF; Z.land (Z.shiftr w 8) 0xFF; Z.land (Z.shiftr w 16) 0xFF;
   Z.land (Z.shiftr w 24) 0xFF].

(** The message, a single 1 bit, zeros up to 56 modulo 64 octets, and the
    bit length as a little-endian 64-bit integer. *)
Definition pad (msg : buffer) : buffer :=
  let n := length msg in
  let zeros := ((64 + 55 - n mod 64) mod 64)%nat in
  let bits := Z.of_nat n * 8 in
  msg ++ [0x80] ++ repeat 0 zeros
  ++ octets_of_word (Z.land bits mask32)
  ++ octets_of_word (Z.land (Z.shiftr bits 32) mask32).

Definition state : Type := Z * Z * Z * Z.

Definition initial : state := (0x67452301, 0xefcdab89, 0x98badcfe, 0x10325476).

Definition word_at (block : buffer) (g : nat) : Z :=
  word_of_octets (firstn 4 (skipn (4 * g) block)).

Definition round (block : buffer) (st : state) (i : nat) : state :=
  let '(A, B, C, D) := st in
  let '(F, g) :=
    if (i <? 16)%nat then
      (Z.lor (Z.land B C) (Z.land (not32 B) D), i)
    else if (i <? 32)%nat then
      (Z.lor (Z.land D B) (Z.land (not32 D) C), ((5 * i + 1) mod 16)%nat)
    else if (i <? 48)%nat then
      (Z.lxor (Z.lxor B C) D, ((3 * i + 5) mod 16)%nat)
    else
      (Z.lxor C (Z.lor B (not32 D)), ((7 * i) mod 16)%nat) in
  let F' := add32 (add32 (add32 F A) (nth i sines 0)) (word_at block g) in
  (D, add32 B (rotl32 F' (nth i shifts 0)), B, C).

Definition compress (st : state) (block : buffer) : state :=
  let '(a0, b0, c0, d0) := st in
  let '(A, B, C, D) := fold_left (round block) (seq 0 64) st in
  (add32 a0 A, add32 b0 B, add32 c0 C, add32 d0 D).

Definition blocks (padded : buffer) : list buffer :=
  map (fun k => firstn 64 (skipn (64 * k) padded))
      (seq 0 (length padded / 64)).

Definition digest (msg : buffer) : buffer :=
  let '(a, b, c, d) := fold_left compress (blocks (pad msg)) initial in
  octets_of_word a ++ octets_of_word b ++ octets_of_word c
  ++ octets_of_word d.

(** [buf.toString('hex')]: two lower-case hexadecimal digits an octet. *)
Definition hex (bs : buffer) : jsstring :=
  flat_map (fun b => [Json.hex_digit (Z.shiftr b 4);
                      Json.hex_digit (Z.land b 0xF)]) bs.

(** [crypto.createHash('md5').update(s).digest('hex')]. *)
Definition md5_hex (s : jsstring) : jsstring := hex (digest (utf8_encode s)).

End MD5.

(** ** Endpoint naming: [generatePipeName] *)

Module Namer.
Import JS.

Section WithLowerCase.

(** [String.prototype.toLowerCase], a built-in driven by the Unicode
    character database. *)
Variable toLowerCase : jsstring -> jsstring.

Definition win32 : jsstring := str "win32".

(** The path that is hashed: lower-cased on Windows only. *)
Definition normalize (platform workspacePath : jsstring) : jsstring :=
  if jsstring_eqb platform win32 then toLowerCase workspacePath
  else workspacePath.

(** The two template literals of the [return]. *)
Definition pipe_path (platform tag : jsstring) : jsstring :=
  if jsstring_eqb platform win32
  then str "\\.\pipe\forge-lsp-" ++ tag
  else str "/tmp/forge-lsp-" ++ tag ++ str ".sock".

Definition hash8 (workspacePath : jsstring) : jsstring :=
  substring 0 8 (MD5.md5_hex workspacePath).

(** The extension's [generatePipeName] (the same text in both revisions
    of the pipe server).  [platform] is [process.platform],
    [workspaceFolders] the [fsPath] of each workspace folder ([None] for
    [undefined]), and [randomBytes] the four octets that
    [crypto.randomBytes(4)] returns if it is called. *)
Definition generatePipeName (platform : jsstring)
    (workspaceFolders : option (list jsstring)) (randomBytes : buffer)
  : jsstring :=
  match workspaceFolders with
  | Some (fsPath :: _) =>
      pipe_path platform (hash8 (normalize platform fsPath))
  | _ => pipe_path platform (MD5.hex randomBytes)
  end.

(** The client's [generatePipeName]; [cwd] is [process.cwd()]. *)
Definition client_generatePipeName (platform cwd : jsstring) : jsstring :=
  pipe_path platform (hash8 (normalize platform cwd)).

End WithLowerCase.

(** Lower-casing restricted to the ASCII letters; it agrees with
    [toLowerCase] on every ASCII string. *)
Definition ascii_toLowerCase (s : jsstring) : jsstring :=
  map (fun c => if (65 <=? c) && (c <=? 90) then c + 32 else c) s.

End Namer.

(** ** The editor API the extension calls *)

Module VSCode.
Import JS Json.

(** [vscode.Uri], as far as the extension reads it: [uri.scheme] and
    [uri.toString()]. *)
Record Uri : Type := { scheme : jsstring; uri_toString : jsstring }.

Record Position : Type := { line : nat; character : nat }.
Record Range : Type := { range_start : Position; range_end : Position }.
Record Location : Type := { loc_uri : Uri; loc_range : Range }.

(** [vscode.SymbolInformation]; [si_kind] is the numeric [SymbolKind]. *)
Record SymbolInformation : Type :=
  { si_name : jsstring; si_kind : nat; si_location : Location }.

(** [vscode.DocumentSymbol]: a tree, [children] possibly empty. *)
#[warnings="-register-all"]
Inductive DocumentSymbol : Type :=
| mkDocumentSymbol (name : jsstring) (range : Range)
                   (children : list DocumentSymbol).

Definition ds_name (s : DocumentSymbol) : jsstring :=
  match s with mkDocumentSymbol n _ _ => n end.
Definition ds_range (s : DocumentSymbol) : Range :=
  match s with mkDocumentSymbol _ r _ => r end.
Definition ds_children (s : DocumentSymbol) : list DocumentSymbol :=
  match s with mkDocumentSymbol _ _ c => c end.

(** [vscode.Hover]; only the number of hovers is ever looked at. *)
Definition Hover : Type := jsstring.

(** [vscode.TextDocument]: [document.uri], [document.getText()] and
    [document.positionAt(offset)]. *)
Record TextDocument : Type :=
  { doc_uri : Uri; getText : jsstring; positionAt : nat -> Position }.

(** What the extension reads synchronously from [vscode.workspace], and
    the clock behind [new Date().toISOString()]. *)
Record Workspace : Type :=
  { workspaceFolders : option (list jsstring);
    textDocuments : list TextDocument;
    getWorkspaceFolder : Uri -> option jsstring;
    now : jsstring }.

(** The reverse mapping [vscode.SymbolKind[kind]]. *)
Definition SymbolKind : list jsstring :=
  map str
    ["File"; "Module"; "Namespace"; "Package"; "Class"; "Method";
     "Property"; "Field"; "Constructor"; "Enum"; "Interface"; "Function";
     "Variable"; "Constant"; "String"; "Number"; "Boolean"; "Array";
     "Object"; "Key"; "Null"; "EnumMember"; "Struct"; "Event"; "Operator";
     "TypeParameter"]%string.

(** The four [vscode.commands.executeCommand] requests to the language
    engine. *)
Inductive Command : Type :=
| executeWorkspaceSymbolProvider (query : jsstring)
| executeReferenceProvider (uri : Uri) (position : Position)
| executeDocumentSymbolProvider (uri : Uri)
| executeHoverProvider (uri : Uri) (position : Position).

(** What the awaited promise resolves to; [None] is [undefined]/[null]. *)
Definition Reply (c : Command) : Type :=
  match c with
  | executeWorkspaceSymbolProvider _ => option (list SymbolInformation)
  | executeReferenceProvider _ _ => option (list Location)
  | executeDocumentSymbolProvider _ => option (list DocumentSymbol)
  | executeHoverProvider _ _ => option (list Hover)
  end.

(** The body of an [async] function: it returns, throws an [Error] with
    a message, or awaits an engine command and continues with the reply. *)
Inductive Async (A : Type) : Type :=
| Return (a : A)
| Throw (message : jsstring)
| Await (c : Command) (k : Reply c -> Async A).
Arguments Return {A} a.
Arguments Throw {A} message.
Arguments Await {A} c k.

Fixpoint bind {A B : Type} (p : Async A) (f : A -> Async B) : Async B :=
  match p with
  | Return a => f a
  | Throw m => Throw m
  | Await c k => Await c (fun r => bind (k r) f)
  end.

(** How a promise settles. *)
Inductive Outcome (A : Type) : Type :=
| Fulfilled (a : A)
| Rejected (message : jsstring).
Arguments Fulfilled {A} a.
Arguments Rejected {A} message.

(** The engine: how each command settles.  One request sees one state of
    the workspace, so a command has one answer. *)
Definition Engine : Type := forall c : Command, Outcome (Reply c).

(** Running an [async] body against an engine: the commands it issued, in
    order, and how its promise settled. *)
Fixpoint run {A : Type} (e : Engine) (p : Async A)
  : list Command * Outcome A :=
  match p with
  | Return a => ([], Fulfilled a)
  | Throw m => ([], Rejected m)
  | Await c k =>
      match e c with
      | Rejected m => ([c], Rejected m)
      | Fulfilled r => let '(t, o) := run e (k r) in (c :: t, o)
      end
  end.

Definition trace {A : Type} (e : Engine) (p : Async A) : list Command :=
  fst (run e p).
Definition outcome {A : Type} (e : Engine) (p : Async A) : Outcome A :=
  snd (run e p).

(** The location a symbol was resolved to. *)
Record SymbolLocation : Type := { sl_uri : Uri; sl_position : Position }.

Definition position_json (p : Position) : json :=
  JObject [(str "line", JNumber (Z.of_nat (line p)));
           (str "character", JNumber (Z.of_nat (character p)))].

Definition range_json (r : Range) : json :=
  JObject [(str "start", position_json (range_start r));
           (str "end", position_json (range_end r))].

(** The arrow function of [references.map(loc => ({uri, range}))]. *)
Definition reference_json (loc : Location) : json :=
  JObject [(str "uri", JString (uri_toString (loc_uri loc)));
           (str "range", range_json (loc_range loc))].

(** *** Regular expressions of the shape the extension builds *)

Inductive atom : Type :=
| WordBoundary
| Literal (c : Z).

Definition is_syntax_character (c : Z) : bool :=
  existsb (Z.eqb c) (str ".*+?^${}()|[]\").

(** [string.replace(/[.*+?^${}()|[\]\\]/g, '\\$&')]. *)
Definition escapeRegExp (s : jsstring) : jsstring :=
  flat_map (fun c => if is_syntax_character c then [92; c] else [c]) s.

(** Pattern text to atoms, for the fragment made of [\b], escaped syntax
    characters and ordinary characters; [None] outside the fragment. *)
Fixpoint compile (pattern : jsstring) : option (list atom) :=
  match pattern with
  | [] => Some []
  | c :: rest =>
      if c =? 92 then
        match rest with
        | [] => None
        | d :: rest' =>
            if d =? 98 then option_map (cons WordBoundary) (compile rest')
            else if is_syntax_character d
                 then option_map (cons (Literal d)) (compile rest')
                 else None
        end
      else if is_syntax_character c then None
      else option_map (cons (Literal c)) (compile rest)
  end.

Definition is_word_character (c : Z) : bool :=
  ((48 <=? c) && (c <=? 57)) || ((65 <=? c) && (c <=? 90))
  || ((97 <=? c) && (c <=? 122)) || (c =? 95).

Definition is_word_at (text : jsstring) (i : option nat) : bool :=
  match i with
  | None => false
  | Some i => match nth_error text i with
              | Some c => is_word_character c
              | None => false
              end
  end.

Definition before (i : nat) : option nat :=
  match i with O => None | S j => Some j end.

(** Matching the atoms at index [i]; the result is the end of the match. *)
Fixpoint match_at (atoms : list atom) (text : jsstring) (i : nat)
  : option nat :=
  match atoms with
  | [] => Some i
  | WordBoundary :: rest =>
      if xorb (is_word_at text (before i)) (is_word_at text (Some i))
      then match_at rest text i else None
  | Literal c :: rest =>
      match nth_error text i with
      | Some d => if c =? d then match_at rest text (S i) else None
      | None => None
      end
  end.

(** [regex.exec(text)] with [lastIndex = from]: the first index at or
    after [from] where the pattern matches, with the end of the match. *)
Definition exec_from (atoms : list atom) (text : jsstring) (from : nat)
  : option (nat * nat) :=
  match find (fun i => match match_at atoms text i with
                       | Some _ => true | None => false end)
             (seq from (S (length text) - from)) with
  | Some i => option_map (pair i) (match_at atoms text i)
  | None => None
  end.

(** The successive results of [regex.exec(text)] under the flag [g]:
    each search starts where the previous match ended. *)
Fixpoint exec_all (fuel : nat) (atoms : list atom) (text : jsstring)
    (lastIndex : nat) : list nat :=
  match fuel with
  | O => []
  | S fuel' =>
      match exec_from atoms text lastIndex with
      | None => []
      | Some (index, stop) => index :: exec_all fuel' atoms text stop
      end
  end.

(** [new RegExp(`\\b${escapeRegExp(symbolName)}\\b`)]. *)
Definition symbol_pattern (symbolName : jsstring) : jsstring :=
  [92; 98] ++ escapeRegExp symbolName ++ [92; 98].

Definition symbol_regex (symbolName : jsstring) : list atom :=
  match compile (symbol_pattern symbolName) with
  | Some atoms => atoms
  | None => []
  end.

(** *** [findSymbolInTree], the same text in both revisions *)

(** One turn of the [for] loop on [symbol]: the name test, then the
    recursive call on [symbol.children]. *)
Fixpoint findSymbolInTree_visit (symbolName : jsstring)
    (symbol : DocumentSymbol) : option DocumentSymbol :=
  if jsstring_eqb (ds_name symbol) symbolName then Some symbol
  else
    (fix loop (symbols : list DocumentSymbol) : option DocumentSymbol :=
       match symbols with
       | [] => None
       | s :: rest =>
           match findSymbolInTree_visit symbolName s with
           | Some found => Some found
           | None => loop rest
           end
       end) (match symbol with mkDocumentSymbol _ _ c => c end).

Fixpoint findSymbolInTree (symbols : list DocumentSymbol)
    (symbolName : jsstring) : option DocumentSymbol :=
  match symbols with
  | [] => None
  | symbol :: rest =>
      match findSymbolInTree_visit symbolName symbol with
      | Some found => Some found
      | None => findSymbolInTree rest symbolName
      end
  end.

End VSCode.

Declare Scope async_scope.
Delimit Scope async_scope with async.
Notation "x <- p ;; q" := (VSCode.bind p (fun x => q))
  (at level 61, p at next level, right associativity) : async_scope.

(** ** [src/extension.ts]: the HTTP server *)

Module HttpServer.
Import JS Json VSCode.
Local Open Scope async_scope.

(** [res.status(code).json(body)]; [res.json(body)] alone sends 200.
    [body] is [None] for an answer Express writes by itself, which is not
    JSON. *)
Record Response : Type := { status : nat; body : option json }.

Definition send (code : nat) (value : json) : Response :=
  {| status := code; body := Some value |}.

(** An incoming request after [express.json()]: [req_body] is [None] when
    the body could not be parsed as JSON. *)
Record Request : Type :=
  { req_method : jsstring; req_path : jsstring; req_body : option json }.

(** [const { symbolName } = req.body] at the declared type
    [{symbolName: string}]: the string, or [None] when the property is
    absent.  A value of another type is outside the declared body type and
    is read as absent. *)
Definition symbolName_of (body : json) : option jsstring :=
  match prop (str "symbolName") body with
  | Some (JString s) => Some s
  | _ => None
  end.

(** The [symbol] property of both 200 answers. *)
Definition symbol_json (symbol : SymbolInformation) : json :=
  JObject
    ([(str "name", JString (si_name symbol))]
     ++ match nth_error SymbolKind (si_kind symbol) with
        | Some k => [(str "kind", JString k)]
        | None => []
        end
     ++ [(str "uri", JString (uri_toString (loc_uri (si_location symbol))));
         (str "range", range_json (loc_range (si_location symbol)))]).

Definition not_found_message (symbolName : jsstring) : jsstring :=
  str "No symbol named " ++ [dquote] ++ symbolName ++ [dquote]
  ++ str " found in the workspace".

(** The [try] block of [app.post('/api/findReferences', ...)]. *)
Definition findReferences_try (body : json) : Async Response :=
  match symbolName_of body with
  | None | Some [] =>
      Return (send 400 (JObject
                  [(str "error",
                    JString (str "Missing required field: symbolName"));
                   (str "example",
                    JObject [(str "symbolName",
                              JString (str "CustomeFormField"))])]))
  | Some symbolName =>
      (* STEP 1: Find the symbol in the workspace *)
      symbols <- Await (executeWorkspaceSymbolProvider symbolName) Return ;;
      match symbols with
      | None | Some [] =>
          Return (send 404 (JObject
                      [(str "error", JString (str "Symbol not found"));
                       (str "symbolName", JString symbolName);
                       (str "message",
                        JString (not_found_message symbolName))]))
      | Some (symbol :: _) =>
          (* Use the first matching symbol *)
          (* STEP 2: Get all references for this symbol *)
          references <-
            Await (executeReferenceProvider
                     (loc_uri (si_location symbol))
                     (range_start (loc_range (si_location symbol))))
                  Return ;;
          match references with
          | None | Some [] =>
              Return (send 200 (JObject
                          [(str "symbol", symbol_json symbol);
                           (str "references", JArray []);
                           (str "message",
                            JString (str "Symbol found but no references"))]))
          | Some references =>
              let referencesData := map reference_json references in
              Return (send 200 (JObject
                          [(str "symbol", symbol_json symbol);
                           (str "references", JArray referencesData);
                           (str "totalReferences",
                            JNumber (Z.of_nat (length referencesData)))]))
          end
      end
  end.

(** The whole route handler: the [try] block, and the [catch] that
    answers 500 with the error's message. *)
Definition findReferences_route (e : Engine) (body : json)
  : list Command * Response :=
  match run e (findReferences_try body) with
  | (t, Fulfilled response) => (t, response)
  | (t, Rejected message) =>
      (t, send 500
            (JObject
               [(str "error", JString (str "Failed to find references"));
                (str "message", JString message)]))
  end.

(** Express's own answers: no JSON body. *)
Definition express_answer (code : nat) : Response :=
  {| status := code; body := None |}.

Definition health_json (workspace timestamp : jsstring) : json :=
  JObject [(str "status", JString (str "ok"));
           (str "workspace", JString workspace);
           (str "timestamp", JString timestamp)].

(** [app.get('/api/health', ...)].  On an empty array
    [workspaceFolders[0].uri] throws, and Express answers 500. *)
Definition health_route (ws : Workspace) : Response :=
  match workspaceFolders ws with
  | Some (fsPath :: _) => send 200 (health_json fsPath (now ws))
  | Some [] => express_answer 500
  | None => send 200 (health_json (str "No workspace") (now ws))
  end.

(** The application [startServer] builds: [express.json()], then the two
    routes it registers.  A body that is not JSON is answered 400 by
    [express.json()]; a request no route matches falls through to
    Express's final handler, which answers 404.  The requests are those
    whose body [express.json()] reads within its size limit, and the
    method and the path are compared as they are written. *)
Definition app (ws : Workspace) (e : Engine) (req : Request)
  : list Command * Response :=
  match req_body req with
  | None => ([], express_answer 400)
  | Some body =>
      if jsstring_eqb (req_method req) (str "GET")
         && jsstring_eqb (req_path req) (str "/api/health")
      then ([], health_route ws)
      else if jsstring_eqb (req_method req) (str "POST")
              && jsstring_eqb (req_path req) (str "/api/findReferences")
      then findReferences_route e body
      else ([], express_answer 404)
  end.

End HttpServer.

(** ** The named-pipe server, first revision
       ([handleFindReferences] with [findSymbolInDocuments]) *)

Module PipeServer.
Import JS Json VSCode.
Local Open Scope async_scope.

Definition symbol_json (symbolName : jsstring) (l : SymbolLocation) : json :=
  JObject [(str "name", JString symbolName);
           (str "uri", JString (uri_toString (sl_uri l)));
           (str "position", position_json (sl_position l))].

Definition not_found_message (symbolName : jsstring) : jsstring :=
  str "No symbol named " ++ [dquote] ++ symbolName ++ [dquote]
  ++ str " found in the workspace or open documents".

(** The [while ((match = regex.exec(text)) !== null)] loop: a hover probe
    at each match in turn; [otherwise] is what follows the loop. *)
Fixpoint probe_matches (document : TextDocument) (indices : list nat)
    (otherwise : Async (option SymbolLocation))
  : Async (option SymbolLocation) :=
  match indices with
  | [] => otherwise
  | index :: later =>
      let position := positionAt document index in
      hovers <- Await (executeHoverProvider (doc_uri document) position)
                      Return ;;
      match hovers with
      | Some (_ :: _) =>
          Return (Some {| sl_uri := doc_uri document;
                          sl_position := position |})
      | _ => probe_matches document later otherwise
      end
  end.

(** The [for (const document of documents)] loop.  [symbolName] is not
    empty here, so every match is at least one unit long and [lastIndex]
    moves on: the text has at most [length text] matches. *)
Fixpoint scan_documents (documents : list TextDocument)
    (symbolName : jsstring) : Async (option SymbolLocation) :=
  match documents with
  | [] => Return None
  | document :: rest =>
      if negb (jsstring_eqb (scheme (doc_uri document)) (str "file"))
      then scan_documents rest symbolName
      else
        documentSymbols <-
          Await (executeDocumentSymbolProvider (doc_uri document)) Return ;;
        match match documentSymbols with
              | Some symbols => findSymbolInTree symbols symbolName
              | None => None
              end with
        | Some found =>
            Return (Some {| sl_uri := doc_uri document;
                            sl_position := range_start (ds_range found) |})
        | None =>
            let text := getText document in
            probe_matches document
              (exec_all (S (length text)) (symbol_regex symbolName) text 0)
              (scan_documents rest symbolName)
        end
  end.

Definition findSymbolInDocuments (ws : Workspace) (symbolName : jsstring)
  : Async (option SymbolLocation) :=
  scan_documents (textDocuments ws) symbolName.

(** STEP 1 of the handler: the exact match among the index results. *)
Definition exact_match (symbols : option (list SymbolInformation))
    (symbolName : jsstring) : option SymbolLocation :=
  match symbols with
  | Some ((_ :: _) as symbols) =>
      match find (fun s => jsstring_eqb (si_name s) symbolName) symbols with
      | Some symbol =>
          Some {| sl_uri := loc_uri (si_location symbol);
                  sl_position := range_start (loc_range (si_location symbol)) |}
      | None => None
      end
  | _ => None
  end.

(** STEP 1 and STEP 2 of the handler: the value of [symbolLocation]
    before the [throw]. *)
Definition resolve (ws : Workspace) (symbolName : jsstring)
  : Async (option SymbolLocation) :=
  symbols <- Await (executeWorkspaceSymbolProvider symbolName) Return ;;
  match exact_match symbols symbolName with
  | Some l => Return (Some l)
  | None => findSymbolInDocuments ws symbolName
  end.

(** STEP 3 of the handler, once [symbolLocation] is known. *)
Definition aggregate (symbolName : jsstring) (l : SymbolLocation)
  : Async json :=
  references <-
    Await (executeReferenceProvider (sl_uri l) (sl_position l)) Return ;;
  match references with
  | None | Some [] =>
      Return (JObject
                [(str "symbol", symbol_json symbolName l);
                 (str "references", JArray []);
                 (str "message",
                  JString (str "Symbol found but no references"))])
  | Some references =>
      let referencesData := map reference_json references in
      Return (JObject
                [(str "symbol", symbol_json symbolName l);
                 (str "references", JArray referencesData);
                 (str "totalReferences",
                  JNumber (Z.of_nat (length referencesData)))])
  end.

(** [handleFindReferences(params.symbolName)]; [None] is a request whose
    params carry no [symbolName].  The [catch] only rethrows. *)
Definition handleFindReferences (ws : Workspace)
    (symbolName : option jsstring) : Async json :=
  match symbolName with
  | None | Some [] => Throw (str "Missing required field: symbolName")
  | Some symbolName =>
      symbolLocation <- resolve ws symbolName ;;
      match symbolLocation with
      | None => Throw (not_found_message symbolName)
      | Some l => aggregate symbolName l
      end
  end.

End PipeServer.

(** ** The named-pipe server, second revision
       ([handleFindReferences] with [findSymbolLocation]) *)

Module PipeServerScoped.
Import JS Json VSCode.
Local Open Scope async_scope.

Definition symbol_json := PipeServer.symbol_json.

Definition not_found_message (symbolName : jsstring) : jsstring :=
  str "No symbol named " ++ [dquote] ++ symbolName ++ [dquote]
  ++ str " found in the workspace".

(** The fallback [for] loop of [findSymbolLocation]. *)
Fixpoint scan_documents (ws : Workspace) (documents : list TextDocument)
    (symbolName : jsstring) : Async (option SymbolLocation) :=
  match documents with
  | [] => Return None
  | document :: rest =>
      (* Skip non-file schemes *)
      if negb (jsstring_eqb (scheme (doc_uri document)) (str "file"))
      then scan_documents ws rest symbolName
      else
        (* Only process files within workspace folders *)
        match getWorkspaceFolder ws (doc_uri document) with
        | None => scan_documents ws rest symbolName
        | Some _ =>
            documentSymbols <-
              Await (executeDocumentSymbolProvider (doc_uri document))
                    Return ;;
            match findSymbolInTree
                    (match documentSymbols with
                     | Some symbols => symbols
                     | None => []
                     end) symbolName with
            | Some found =>
                Return (Some {| sl_uri := doc_uri document;
                                sl_position := range_start (ds_range found) |})
            | None =>
                match exec_from (symbol_regex symbolName)
                                (getText document) 0 with
                | Some (index, _) =>
                    let position := positionAt document index in
                    hovers <-
                      Await (executeHoverProvider (doc_uri document) position)
                            Return ;;
                    match hovers with
                    | Some (_ :: _) =>
                        Return (Some {| sl_uri := doc_uri document;
                                        sl_position := position |})
                    | _ => scan_documents ws rest symbolName
                    end
                | None => scan_documents ws rest symbolName
                end
            end
        end
  end.

Definition findSymbolLocation (ws : Workspace) (symbolName : jsstring)
  : Async (option SymbolLocation) :=
  (* Try workspace symbols first *)
  symbols <- Await (executeWorkspaceSymbolProvider symbolName) Return ;;
  match match symbols with
        | Some symbols =>
            find (fun s => jsstring_eqb (si_name s) symbolName) symbols
        | None => None
        end with
  | Some exactMatch =>
      Return (Some {| sl_uri := loc_uri (si_location exactMatch);
                      sl_position :=
                        range_start (loc_range (si_location exactMatch)) |})
  | None => scan_documents ws (textDocuments ws) symbolName
  end.

(** STEP 2 and STEP 3 of the handler. *)
Definition aggregate (symbolName : jsstring) (l : SymbolLocation)
  : Async json :=
  references <-
    Await (executeReferenceProvider (sl_uri l) (sl_position l)) Return ;;
  Return (JObject
            [(str "symbol", symbol_json symbolName l);
             (str "references",
              JArray (map reference_json
                          (match references with
                           | Some references => references
                           | None => []
                           end)));
             (str "totalReferences",
              JNumber (match references with
                       | Some references => Z.of_nat (length references)
                       | None => 0
                       end))]).

Definition handleFindReferences (ws : Workspace)
    (symbolName : option jsstring) : Async json :=
  match symbolName with
  | None | Some [] => Throw (str "Missing required field: symbolName")
  | Some symbolName =>
      (* STEP 1: Find the symbol location *)
      symbolLocation <- findSymbolLocation ws symbolName ;;
      match symbolLocation with
      | None => Throw (not_found_message symbolName)
      | Some l => aggregate symbolName l
      end
  end.

End PipeServerScoped.

(** ** The document scan, as the specification words it *)

(** The fallback as the specification words it, as plain functions of
    what the engine answers. *)
Module ResolverSpec.
Import JS Json VSCode.

Section Spec.
Variable e : Engine.
Variable symbolName : jsstring.

(** The document's symbol outline; nothing when the engine has none. *)
Definition outline (d : TextDocument) : list DocumentSymbol :=
  match e (executeDocumentSymbolProvider (doc_uri d)) with
  | Fulfilled (Some symbols) => symbols
  | _ => []
  end.

(** Hover information is present at a position of the document. *)
Definition hover_present (d : TextDocument) (p : Position) : bool :=
  match e (executeHoverProvider (doc_uri d) p) with
  | Fulfilled (Some (_ :: _)) => true
  | _ => false
  end.

Definition file_backed (d : TextDocument) : bool :=
  jsstring_eqb (scheme (doc_uri d)) (str "file").

Definition in_document (d : TextDocument) (p : Position) : SymbolLocation :=
  {| sl_uri := doc_uri d; sl_position := p |}.

(** Step 2: an exact name in the symbol tree, nested children included;
    the declaration start of that symbol. *)
Definition tree_match (d : TextDocument) : option SymbolLocation :=
  option_map (fun found => in_document d (range_start (ds_range found)))
             (findSymbolInTree (outline d) symbolName).

(** The successive word-boundary matches of the literal name in the
    text of the document. *)
Definition text_matches (d : TextDocument) : list nat :=
  exec_all (S (length (getText d))) (symbol_regex symbolName) (getText d) 0.

(** Step 3 over all matches: the first text match at which hover
    information is present. *)
Definition first_hovered_match (d : TextDocument) : option SymbolLocation :=
  option_map (fun index => in_document d (positionAt d index))
             (find (fun index => hover_present d (positionAt d index))
                   (text_matches d)).

(** Step 3 restricted to the first text match: it counts if hover
    information is present there. *)
Definition first_match_if_hovered (d : TextDocument)
  : option SymbolLocation :=
  match exec_from (symbol_regex symbolName) (getText d) 0 with
  | Some (index, _) =>
      if hover_present d (positionAt d index)
      then Some (in_document d (positionAt d index))
      else None
  | None => None
  end.

(** Within one document: the tree first, the text only if the tree
    search fails. *)
Definition document_match (text_rule : TextDocument -> option SymbolLocation)
    (d : TextDocument) : option SymbolLocation :=
  match tree_match d with
  | Some l => Some l
  | None => text_rule d
  end.

(** The first document, in the order of the list, that yields a match;
    [None] is NotFound. *)
Fixpoint first_yield (yield : TextDocument -> option SymbolLocation)
    (documents : list TextDocument) : option SymbolLocation :=
  match documents with
  | [] => None
  | d :: rest =>
      match yield d with
      | Some l => Some l
      | None => first_yield yield rest
      end
  end.

(** The scan over every open document but the ones that are not
    file-backed. *)
Definition scan_open_documents (documents : list TextDocument)
  : option SymbolLocation :=
  first_yield (document_match first_hovered_match)
              (filter file_backed documents).

(** The scan of the second revision: file-backed documents inside a
    workspace folder, and the first text match only. *)
Definition scan_workspace_documents (ws : Workspace)
    (documents : list TextDocument) : option SymbolLocation :=
  first_yield (document_match first_match_if_hovered)
    (filter (fun d => file_backed d
                      && match getWorkspaceFolder ws (doc_uri d) with
                         | Some _ => true
                         | None => false
                         end) documents).

End Spec.
End ResolverSpec.

(** ** A fixture: the sample file of the repository *)

Module Fixture.
Import JS Json VSCode.

Definition sample_uri : Uri :=
  {| scheme := str "file";
     uri_toString := str "file:///d:/lsp-poc/test-sample.ts" |}.

Definition span (l c c' : nat) : Range :=
  {| range_start := {| line := l; character := c |};
     range_end := {| line := l; character := c' |} |}.

(** [function greetUser] of [test-sample.ts]: line 3, character 9. *)
Definition greetUser : SymbolInformation :=
  {| si_name := str "greetUser"; si_kind := 11;
     si_location := {| loc_uri := sample_uri; loc_range := span 3 9 18 |} |}.

Definition greetUser_references : list Location :=
  map (fun lc => {| loc_uri := sample_uri;
                    loc_range := span (fst lc) (snd lc) (snd lc + 9) |})
      [(3, 9); (8, 18); (9, 18); (10, 18); (14, 20); (21, 15); (29, 9)]%nat.

(** An engine whose symbol index answers every query with [symbols], as
    a fuzzy index does for a query that is a part of their names, and
    whose reference provider answers [references]; it knows no document
    symbols and no hovers. *)
Definition index_engine (symbols : option (list SymbolInformation))
    (references : option (list Location)) : Engine :=
  fun c =>
    match c with
    | executeWorkspaceSymbolProvider _ => Fulfilled symbols
    | executeReferenceProvider _ _ => Fulfilled references
    | executeDocumentSymbolProvider _ => Fulfilled None
    | executeHoverProvider _ _ => Fulfilled None
    end.

(** A workspace with no open document. *)
Definition bare_workspace : Workspace :=
  {| workspaceFolders := Some [str "d:\lsp-poc"];
     textDocuments := [];
     getWorkspaceFolder := fun _ => Some (str "d:\lsp-poc");
     now := str "2025-12-08T10:30:00.000Z" |}.

Definition post (path : string) (body : json) : HttpServer.Request :=
  {| HttpServer.req_method := str "POST";
     HttpServer.req_path := str path;
     HttpServer.req_body := Some body |}.

Definition symbolName_body (symbolName : jsstring) : json :=
  JObject [(str "symbolName", JString symbolName)].

(** A file-backed document: one line of text, so that an offset is a
    column of line 0. *)
Definition one_line (path text : string) : TextDocument :=
  {| doc_uri := {| scheme := str "file"; uri_toString := str path |};
     getText := str text;
     positionAt := fun offset => {| line := 0; character := offset |} |}.

Definition vendored : TextDocument :=
  one_line "file:///d:/vendor/greet.d.ts" "declare function greetUser(): void".

Definition commented : TextDocument :=
  one_line "file:///d:/lsp-poc/use.ts" "// greetUser is called: greetUser()".

(** The workspace folder holds [use.ts]; [greet.d.ts] lies outside. *)
Definition in_workspace (uri : Uri) : option jsstring :=
  if jsstring_eqb (uri_toString uri) (uri_toString (doc_uri commented))
  then Some (str "d:\lsp-poc") else None.

Definition workspace_with (documents : list TextDocument) : Workspace :=
  {| workspaceFolders := Some [str "d:\lsp-poc"];
     textDocuments := documents;
     getWorkspaceFolder := in_workspace;
     now := str "2025-12-08T10:30:00.000Z" |}.

(** The index knows nothing; the outline of [greet.d.ts] declares
    [greetUser] at column 17, the outline of [use.ts] is empty; hover
    information exists on the call in [use.ts] (column 24), not in its
    comment. *)
Definition scan_engine : Engine :=
  fun c =>
    match c with
    | executeWorkspaceSymbolProvider _ => Fulfilled (Some [])
    | executeReferenceProvider _ _ => Fulfilled (Some [])
    | executeDocumentSymbolProvider uri =>
        if jsstring_eqb (uri_toString uri) (uri_toString (doc_uri vendored))
        then Fulfilled
               (Some [mkDocumentSymbol (str "greetUser") (span 0 17 26) []])
        else Fulfilled (Some [])
    | executeHoverProvider uri position =>
        if (character position =? 24)%nat then Fulfilled (Some [str "call"])
        else Fulfilled (Some [])
    end.

End Fixture.

(* ================================================================== *)
(** ** The standalone client: requests, answers and timeouts *)

Module Client.
Import JS Json Framer.

(** The fields of [SimpleJsonRpcClient].  The [Map] [pendingRequests]
    is kept as the list of its keys; the value under a key is the pair of
    callbacks of that request's promise, which the key identifies. *)
Record client : Type :=
  { messageId : nat; pendingRequests : list nat; buffer : jsstring }.

(** The constructor. *)
Definition new_client : client :=
  {| messageId := 0; pendingRequests := []; buffer := [] |}.

(** How the promise of request [id] is settled: [resolve(value)], where
    [None] is [undefined], or [reject(new Error(argument))]. *)
Inductive settlement : Type :=
| Resolve (id : nat) (value : option json)
| Reject (id : nat) (argument : json).

Definition settled_id (s : settlement) : nat :=
  match s with
  | Resolve id _ => id
  | Reject id _ => id
  end.

(** ToBoolean on a property that may be absent. *)
Definition truthy (v : option json) : bool :=
  match v with
  | None => false
  | Some JNull => false
  | Some (JBool b) => b
  | Some (JNumber n) => negb (n =? 0)
  | Some (JString s) => match s with [] => false | _ :: _ => true end
  | Some (JArray _) => true
  | Some (JObject _) => true
  end.

(** [pendingRequests.has(key)] for a key read from a message: the keys
    of the map are the numbers [sendRequest] has put there, and a key of
    another type equals none of them. *)
Definition has (pending : list nat) (key : json) : option nat :=
  match key with
  | JNumber n => find (fun id => Z.of_nat id =? n) pending
  | _ => None
  end.

(** [pendingRequests.delete(id)] and [pendingRequests.set(id, ...)]. *)
Definition delete (id : nat) (pending : list nat) : list nat :=
  filter (fun k => negb (k =? id)%nat) pending.

Definition set (id : nat) (pending : list nat) : list nat :=
  if existsb (Nat.eqb id) pending then pending else pending ++ [id].

(** [message.error.message || JSON.stringify(message.error)]. *)
Definition error_argument (error : json) : json :=
  if truthy (prop (str "message") error)
  then match prop (str "message") error with
       | Some m => m
       | None => JNull
       end
  else JString (stringify error).

(** The body of the [try] block of [processBuffer] after [JSON.parse]. *)
Definition dispatch (c : client) (message : json)
  : client * option settlement :=
  if truthy (prop (str "id") message) then
    match match prop (str "id") message with
          | Some key => has (pendingRequests c) key
          | None => None
          end with
    | Some id =>
        let c' := {| messageId := messageId c;
                     pendingRequests := delete id (pendingRequests c);
                     buffer := buffer c |} in
        if truthy (prop (str "error") message)
        then (c', Some (Reject id
                          (match prop (str "error") message with
                           | Some error => error_argument error
                           | None => JNull
                           end)))
        else (c', Some (Resolve id (prop (str "result") message)))
    | None => (c, None)
    end
  else (c, None).

Section WithParser.

(** [JSON.parse]; [None] when it throws, which the [catch] logs. *)
Variable JSON_parse : jsstring -> option json.

Definition handle_text (c : client) (messageStr : jsstring)
  : client * option settlement :=
  match JSON_parse messageStr with
  | Some message => dispatch c message
  | None => (c, None)
  end.

Fixpoint handle_texts (c : client) (texts : list jsstring)
  : client * list settlement :=
  match texts with
  | [] => (c, [])
  | t :: later =>
      let '(c', s) := handle_text c t in
      let '(c'', ss) := handle_texts c' later in
      (c'', match s with Some x => x :: ss | None => ss end)
  end.

(** The ['data'] listener with its effects on the pending requests.  The
    loop of [processBuffer] always returns; the second branch is never
    taken. *)
Definition on_data (c : client) (data : JS.buffer)
  : client * list settlement :=
  match Framer.on_data (buffer c) data with
  | Some (texts, rest) =>
      handle_texts {| messageId := messageId c;
                      pendingRequests := pendingRequests c;
                      buffer := rest |} texts
  | None => (c, [])
  end.

(** [sendRequest(method, params)] up to [socket.write]: the new state,
    the id of the request and the octets written. *)
Definition sendRequest (c : client) (method : jsstring) (params : json)
  : client * nat * JS.buffer :=
  let id := S (messageId c) in
  ({| messageId := id;
      pendingRequests := set id (pendingRequests c);
      buffer := buffer c |},
   id, Framer.sendRequest id method params).

(** The callback given to [setTimeout] by the request [id]. *)
Definition on_timeout (c : client) (id : nat) : client * option settlement :=
  if existsb (Nat.eqb id) (pendingRequests c)
  then ({| messageId := messageId c;
           pendingRequests := delete id (pendingRequests c);
           buffer := buffer c |},
        Some (Reject id (JString (str "Request timeout"))))
  else (c, None).

(** What happens to a client, one event after the other. *)
Inductive event : Type :=
| Send (method : jsstring) (params : json)
| Data (data : JS.buffer)
| Timeout (id : nat).

Definition step (c : client) (ev : event) : client * list settlement :=
  match ev with
  | Send method params => (fst (fst (sendRequest c method params)), [])
  | Data data => on_data c data
  | Timeout id =>
      let '(c', s) := on_timeout c id in
      (c', match s with Some x => [x] | None => [] end)
  end.

Fixpoint run (c : client) (events : list event) : client * list settlement :=
  match events with
  | [] => (c, [])
  | ev :: later =>
      let '(c', ss) := step c ev in
      let '(c'', ss') := run c' later in
      (c'', ss ++ ss')
  end.

End WithParser.
End Client.

(** ** The notification of the pipe server *)

Module PipeNotice.
Import JS.

(** [s.split('\\').pop()]: what follows the last backslash of [s], the
    whole of [s] when it has none.  [current] is the segment being read. *)
Fixpoint last_segment (s current : jsstring) : jsstring :=
  match s with
  | [] => current
  | c :: rest =>
      if c =? 92 then last_segment rest []
      else last_segment rest (current ++ [c])
  end.

(** The text [startNamedPipeServer] shows once the server listens:
    [`Forge LSP API: ${pipeName?.split('\\').pop() || pipeName}`]. *)
Definition listening_notice (pipeName : jsstring) : jsstring :=
  str "Forge LSP API: "
  ++ match last_segment pipeName [] with
     | [] => pipeName
     | shown => shown
     end.

End PipeNotice.

(** * Part II. Properties *)
(* ================================================================== *)

(** ** Strings, numbers and UTF-8 on ASCII text *)

Module JSFacts.
Import JS.

Lemma jsstring_eqb_eq (a b : jsstring) : jsstring_eqb a b = true <-> a = b.
Proof.
  revert b; induction a as [|x a IH]; intros [|y b]; simpl;
    try (split; [discriminate|discriminate]); [tauto|].
  rewrite andb_true_iff, Z.eqb_eq, IH.
  split; [intros [-> ->]; reflexivity | intros [= -> ->]; auto].
Qed.

Lemma jsstring_eqb_refl (a : jsstring) : jsstring_eqb a a = true.
Proof. apply jsstring_eqb_eq; reflexivity. Qed.

Lemma jsstring_eqb_neq (a b : jsstring) : a <> b -> jsstring_eqb a b = false.
Proof.
  intros H; destruct (jsstring_eqb a b) eqn:E; [|reflexivity].
  apply jsstring_eqb_eq in E; contradiction.
Qed.

Lemma is_ascii_app (a b : jsstring) :
  is_ascii (a ++ b) <-> is_ascii a /\ is_ascii b.
Proof. apply Forall_app. Qed.

(** Decidable form, for literals. *)
Definition is_asciib (s : jsstring) : bool :=
  forallb (fun c => (0 <=? c) && (c <? 128)) s.

Lemma is_asciib_ok (s : jsstring) : is_asciib s = true -> is_ascii s.
Proof.
  unfold is_asciib, is_ascii. rewrite forallb_forall, Forall_forall.
  intros H c Hc. specialize (H c Hc). unfold is_ascii_unit. lia.
Qed.

Lemma utf8_encode_ascii (s : jsstring) : is_ascii s -> utf8_encode s = s.
Proof.
  induction 1 as [|c s Hc _ IH]; [reflexivity|].
  unfold is_ascii_unit in Hc. simpl.
  replace (is_high_surrogate c) with false
    by (unfold is_high_surrogate; lia).
  replace (is_low_surrogate c) with false
    by (unfold is_low_surrogate; lia).
  unfold utf8_of_code_point.
  replace (c <? 0x80) with true by lia.
  simpl. rewrite IH. reflexivity.
Qed.

Lemma byteLength_ascii (s : jsstring) : is_ascii s -> byteLength s = length s.
Proof. intros H; unfold byteLength; rewrite utf8_encode_ascii; auto. Qed.

Lemma toString_ascii (bs : buffer) : is_ascii bs -> toString bs = bs.
Proof.
  unfold toString.
  induction 1 as [|b bs Hb _ IH]; [reflexivity|].
  unfold is_ascii_unit in Hb. simpl. unfold utf8_lead.
  replace (b <=? 0x7F) with true by lia.
  rewrite IH. reflexivity.
Qed.

(** *** Decimal numerals *)

Definition parse_from (acc : nat) (ds : jsstring) : nat :=
  fold_left (fun acc d => (acc * 10 + Z.to_nat (d - 48))%nat) ds acc.

Lemma parse_decimal_aux (fuel n : nat) (acc : jsstring) :
  (n < fuel)%nat ->
  parse_from 0 (decimal_aux fuel n acc) = parse_from n acc.
Proof.
  revert n acc; induction fuel as [|fuel IH]; intros n acc Hn; [lia|].
  cbn [decimal_aux]. destruct (Nat.ltb_spec n 10) as [Hlt|Hge].
  - unfold parse_from; cbn [fold_left]. f_equal.
    rewrite Nat.mod_small by lia. lia.
  - rewrite IH.
    + unfold parse_from; cbn [fold_left]. f_equal.
      pose proof (Nat.div_mod_eq n 10).
      pose proof (Nat.mod_upper_bound n 10). lia.
    + pose proof (Nat.div_lt n 10). lia.
Qed.

Lemma parseInt_decimal (n : nat) : parseInt (decimal n) = n.
Proof.
  unfold decimal. change (parseInt ?x) with (parse_from 0 x).
  rewrite parse_decimal_aux by lia. reflexivity.
Qed.

Definition all_digits (s : jsstring) : Prop :=
  Forall (fun c => is_digit c = true) s.

Lemma decimal_aux_digits (fuel n : nat) (acc : jsstring) :
  all_digits acc -> all_digits (decimal_aux fuel n acc).
Proof.
  revert n acc; induction fuel as [|fuel IH]; intros n acc Hacc; [exact Hacc|].
  assert (Hd : is_digit (48 + Z.of_nat (n mod 10)) = true).
  { pose proof (Nat.mod_upper_bound n 10). unfold is_digit. lia. }
  cbn [decimal_aux]. destruct (n <? 10)%nat.
  - constructor; assumption.
  - apply IH. constructor; assumption.
Qed.

Lemma decimal_digits (n : nat) : all_digits (decimal n).
Proof. apply decimal_aux_digits. constructor. Qed.

Lemma decimal_aux_nonempty (fuel n : nat) (acc : jsstring) :
  (0 < fuel)%nat -> decimal_aux fuel n acc <> [].
Proof.
  revert n acc; induction fuel as [|fuel IH]; intros n acc Hf; [lia|].
  cbn [decimal_aux]. destruct (n <? 10)%nat; [discriminate|].
  destruct fuel; [cbn [decimal_aux]; discriminate|]. apply IH. lia.
Qed.

Lemma decimal_nonempty (n : nat) : decimal n <> [].
Proof. apply decimal_aux_nonempty. lia. Qed.

Lemma digits_are_ascii (s : jsstring) : all_digits s -> is_ascii s.
Proof.
  apply Forall_impl. intros c Hc. unfold is_digit in Hc.
  unfold is_ascii_unit. lia.
Qed.

Lemma digits_no_cr (s : jsstring) : all_digits s -> ~ In 13 s.
Proof.
  intros H Hin. unfold all_digits in H. rewrite Forall_forall in H.
  specialize (H _ Hin). discriminate.
Qed.

(** *** [substring] on a concatenation *)

Lemma substring_prefix (a b : jsstring) :
  substring 0 (length a) (a ++ b) = a.
Proof.
  unfold substring. rewrite Nat.max_r, Nat.min_l by lia. simpl.
  rewrite Nat.sub_0_r, firstn_app, Nat.sub_diag, firstn_all. simpl.
  apply app_nil_r.
Qed.

Lemma substring_from_app (a b : jsstring) :
  substring_from (length a) (a ++ b) = b.
Proof.
  unfold substring_from. rewrite skipn_app, skipn_all, Nat.sub_diag.
  reflexivity.
Qed.

Lemma substring_middle (a b c : jsstring) :
  substring (length a) (length a + length b) (a ++ b ++ c) = b.
Proof.
  unfold substring. rewrite Nat.max_r, Nat.min_l by lia.
  rewrite skipn_app, skipn_all, Nat.sub_diag. simpl.
  replace (length a + length b - length a)%nat with (length b) by lia.
  rewrite firstn_app, Nat.sub_diag, firstn_all. simpl. apply app_nil_r.
Qed.

(** *** [indexOf] *)

Lemma starts_with_app (p rest : jsstring) : starts_with p (p ++ rest) = true.
Proof.
  induction p as [|x p IH]; [reflexivity|].
  simpl. rewrite Z.eqb_refl, IH. reflexivity.
Qed.

Lemma starts_with_length (p s : jsstring) :
  starts_with p s = true -> (length p <= length s)%nat.
Proof.
  revert s; induction p as [|x p IH]; intros [|y s]; simpl;
    try discriminate; try lia.
  rewrite andb_true_iff. intros [_ H]. apply IH in H. lia.
Qed.

Lemma starts_with_app_r (p s t : jsstring) :
  starts_with p s = true -> starts_with p (s ++ t) = true.
Proof.
  revert s; induction p as [|x p IH]; intros [|y s]; simpl;
    try discriminate; auto.
  rewrite !andb_true_iff. intros [-> H]. auto.
Qed.

Lemma starts_with_false_app (p s t : jsstring) :
  starts_with p s = false -> (length p <= length s)%nat ->
  starts_with p (s ++ t) = false.
Proof.
  revert s; induction p as [|x p IH]; intros [|y s]; simpl;
    try discriminate; try lia.
  rewrite !andb_false_iff. intros [H|H] Hl; [left; exact H|right].
  apply IH; [exact H|lia].
Qed.

Lemma indexOf_bound (p s : jsstring) (i : nat) :
  indexOf p s = Some i -> (i + length p <= length s)%nat.
Proof.
  revert i; induction s as [|c s IH]; intros i; simpl.
  - destruct (starts_with p []) eqn:E; [|discriminate].
    intros [= <-]. apply starts_with_length in E. simpl in *. lia.
  - destruct (starts_with p (c :: s)) eqn:E.
    + intros [= <-]. apply starts_with_length in E. simpl in *. lia.
    + destruct (indexOf p s) as [j|]; [|discriminate].
      simpl. intros [= <-]. specialize (IH j eq_refl). lia.
Qed.

(** Text appended after the first occurrence does not move it. *)
Lemma indexOf_app (p s t : jsstring) (i : nat) :
  indexOf p s = Some i -> indexOf p (s ++ t) = Some i.
Proof.
  revert i; induction s as [|c s IH]; intros i; simpl.
  - destruct (starts_with p []) eqn:E; [|discriminate].
    intros [= <-]. destruct p; [|discriminate]. destruct t; reflexivity.
  - destruct (starts_with p (c :: s)) eqn:E.
    + intros [= <-].
      change (c :: s ++ t) with ((c :: s) ++ t).
      rewrite (starts_with_app_r _ _ t E). reflexivity.
    + destruct (indexOf p s) as [j|] eqn:Ej; [|discriminate].
      simpl. intros [= <-].
      pose proof (indexOf_bound _ _ _ Ej) as Hb.
      change (c :: s ++ t) with ((c :: s) ++ t).
      rewrite starts_with_false_app by (simpl; auto; lia).
      rewrite (IH j eq_refl). reflexivity.
Qed.

(** The terminator is found right after a text without carriage return. *)
Lemma indexOf_after_no_cr (pre rest : jsstring) :
  ~ In 13 pre ->
  indexOf [13; 10; 13; 10] (pre ++ [13; 10; 13; 10] ++ rest)
  = Some (length pre).
Proof.
  induction pre as [|c pre IH]; intros Hno.
  - simpl. reflexivity.
  - assert (c <> 13) by (intros ->; apply Hno; left; reflexivity).
    change ((c :: pre) ++ ?x) with (c :: (pre ++ x)).
    cbn [indexOf starts_with]. 
    replace (13 =? c) with false by lia. simpl andb. cbv iota.
    rewrite IH by (intros Hin; apply Hno; right; exact Hin).
    reflexivity.
Qed.

(** A proper prefix that stops before the terminator is complete does
    not contain it. *)
Lemma indexOf_cut_before (pre rest : jsstring) (n : nat) :
  ~ In 13 pre -> (n < length pre + 4)%nat ->
  indexOf [13; 10; 13; 10] (firstn n (pre ++ [13; 10; 13; 10] ++ rest))
  = None.
Proof.
  revert n; induction pre as [|c pre IH]; intros n Hno Hn.
  - simpl in Hn.
    destruct n as [|[|[|[|n]]]]; try lia; reflexivity.
  - assert (c <> 13) by (intros ->; apply Hno; left; reflexivity).
    destruct n as [|n]; [reflexivity|].
    change ((c :: pre) ++ ?x) with (c :: (pre ++ x)).
    rewrite firstn_cons. cbn [indexOf starts_with].
    replace (13 =? c) with false by lia. simpl andb. cbv iota.
    rewrite IH; [reflexivity| |simpl in Hn; lia].
    intros Hin; apply Hno; right; exact Hin.
Qed.

End JSFacts.

(** ** The framer on well-formed ASCII traffic *)

Module FramerFacts.
Import JS Json Framer JSFacts.

(** The header line of a frame, without its terminator. *)
Definition header_line (n : nat) : jsstring :=
  content_length_label ++ decimal n.

Lemma frame_shape (content rest : jsstring) :
  frame content ++ rest
  = header_line (byteLength content) ++ CRLFCRLF ++ content ++ rest.
Proof.
  unfold frame, header_line. rewrite <- !app_assoc. reflexivity.
Qed.

Lemma header_line_no_cr (n : nat) : ~ In 13 (header_line n).
Proof.
  unfold header_line. intros H. apply in_app_or in H. destruct H as [H|H].
  - cbv in H. intuition discriminate.
  - exact (digits_no_cr _ (decimal_digits n) H).
Qed.

Lemma header_line_ascii (n : nat) : is_ascii (header_line n).
Proof.
  apply is_ascii_app. split.
  - apply is_asciib_ok. reflexivity.
  - apply digits_are_ascii, decimal_digits.
Qed.

Lemma frame_ascii (content : jsstring) :
  is_ascii content -> is_ascii (frame content).
Proof.
  intros H. unfold frame. rewrite !is_ascii_app. repeat split.
  - apply is_asciib_ok. reflexivity.
  - apply digits_are_ascii, decimal_digits.
  - apply is_asciib_ok. reflexivity.
  - exact H.
Qed.

Lemma starts_with_ci_app (p rest : jsstring) :
  starts_with_ci p (p ++ rest) = true.
Proof.
  induction p as [|x p IH]; [reflexivity|].
  simpl. rewrite Z.eqb_refl, IH. reflexivity.
Qed.

Lemma take_digits_all (ds : jsstring) : all_digits ds -> take_digits ds = ds.
Proof.
  induction 1 as [|c ds Hc _ IH]; [reflexivity|].
  simpl. rewrite Hc, IH. reflexivity.
Qed.

Lemma match_content_length_eq (headers : jsstring) :
  match_content_length headers
  = match
      (if starts_with_ci content_length_label headers then
         match take_digits (skipn (length content_length_label) headers) with
         | [] => None
         | ds => Some ds
         end
       else None)
    with
    | Some ds => Some ds
    | None => match headers with
              | [] => None
              | _ :: rest => match_content_length rest
              end
    end.
Proof. destruct headers; reflexivity. Qed.

(** The regular expression reads the length back from a header line. *)
Lemma match_content_length_header (n : nat) :
  match_content_length (header_line n) = Some (decimal n).
Proof.
  rewrite match_content_length_eq. unfold header_line.
  rewrite starts_with_ci_app, skipn_app, skipn_all, Nat.sub_diag.
  cbn [skipn app]. rewrite take_digits_all by apply decimal_digits.
  pose proof (decimal_nonempty n) as Hne.
  destruct (decimal n) as [|d ds]; [contradiction|reflexivity].
Qed.

Lemma loop_eq (fuel : nat) (buffer : jsstring) :
  processBuffer_loop (S fuel) buffer
  = match indexOf CRLFCRLF buffer with
    | None => Some ([], buffer)
    | Some headerEnd =>
        match match_content_length (substring 0 headerEnd buffer) with
        | None =>
            processBuffer_loop fuel (substring_from (headerEnd + 4) buffer)
        | Some digits =>
            if (length buffer <? headerEnd + 4 + parseInt digits)%nat
            then Some ([], buffer)
            else
              match processBuffer_loop fuel
                      (substring_from (headerEnd + 4 + parseInt digits)
                                      buffer) with
              | None => None
              | Some (messages, rest) =>
                  Some (substring (headerEnd + 4)
                                  (headerEnd + 4 + parseInt digits) buffer
                        :: messages, rest)
              end
        end
    end.
Proof. reflexivity. Qed.

(** Fuel above the length of the buffer is never used up. *)
Lemma loop_fuel (n : nat) :
  forall (buffer : jsstring) (fuel : nat),
    (length buffer < n)%nat -> (length buffer < fuel)%nat ->
    processBuffer_loop fuel buffer = processBuffer buffer
    /\ processBuffer buffer <> None.
Proof.
  induction n as [|n IH]; intros buffer fuel Hn Hf; [lia|].
  unfold processBuffer.
  destruct fuel as [|fuel]; [lia|]. rewrite !loop_eq.
  destruct (indexOf CRLFCRLF buffer) as [headerEnd|] eqn:Ei;
    [|split; [reflexivity|discriminate]].
  apply indexOf_bound in Ei. cbn [length CRLFCRLF] in Ei.
  assert (Hshort : forall k, (headerEnd + 4 <= k)%nat ->
            (length (substring_from k buffer) < length buffer)%nat).
  { intros k Hk. unfold substring_from. rewrite length_skipn. lia. }
  destruct (match_content_length (substring 0 headerEnd buffer)) as [ds|].
  - destruct (length buffer <? headerEnd + 4 + parseInt ds)%nat;
      [split; [reflexivity|discriminate]|].
    specialize (Hshort (headerEnd + 4 + parseInt ds)%nat ltac:(lia)).
    set (b' := substring_from (headerEnd + 4 + parseInt ds) buffer) in *.
    destruct (IH b' fuel ltac:(lia) ltac:(lia)) as [-> Hsome].
    destruct (IH b' (length buffer) ltac:(lia) ltac:(lia)) as [-> _].
    split; [reflexivity|].
    destruct (processBuffer b') as [[ms r]|]; congruence.
  - specialize (Hshort (headerEnd + 4)%nat ltac:(lia)).
    set (b' := substring_from (headerEnd + 4) buffer) in *.
    destruct (IH b' fuel ltac:(lia) ltac:(lia)) as [-> Hsome].
    destruct (IH b' (length buffer) ltac:(lia) ltac:(lia)) as [-> _].
    split; [reflexivity|exact Hsome].
Qed.

(** [processBuffer] returns on every buffer. *)
Lemma processBuffer_total (buffer : jsstring) :
  exists messages rest, processBuffer buffer = Some (messages, rest).
Proof.
  destruct (loop_fuel (S (length buffer)) buffer (S (length buffer))
              ltac:(lia) ltac:(lia)) as [_ H].
  destruct (processBuffer buffer) as [[ms r]|]; [eauto|contradiction].
Qed.

Lemma processBuffer_unfold (buffer : jsstring) :
  processBuffer buffer
  = match indexOf CRLFCRLF buffer with
    | None => Some ([], buffer)
    | Some headerEnd =>
        match match_content_length (substring 0 headerEnd buffer) with
        | None => processBuffer (substring_from (headerEnd + 4) buffer)
        | Some digits =>
            if (length buffer <? headerEnd + 4 + parseInt digits)%nat
            then Some ([], buffer)
            else
              match processBuffer
                      (substring_from (headerEnd + 4 + parseInt digits)
                                      buffer) with
              | None => None
              | Some (messages, rest) =>
                  Some (substring (headerEnd + 4)
                                  (headerEnd + 4 + parseInt digits) buffer
                        :: messages, rest)
              end
        end
    end.
Proof.
  unfold processBuffer at 1. rewrite loop_eq.
  destruct (indexOf CRLFCRLF buffer) as [headerEnd|] eqn:Ei; [|reflexivity].
  apply indexOf_bound in Ei. cbn [length CRLFCRLF] in Ei.
  assert (Hshort : forall k, (headerEnd + 4 <= k)%nat ->
            (length (substring_from k buffer) < length buffer)%nat).
  { intros k Hk. unfold substring_from. rewrite length_skipn. lia. }
  destruct (match_content_length (substring 0 headerEnd buffer)) as [ds|].
  - destruct (length buffer <? headerEnd + 4 + parseInt ds)%nat;
      [reflexivity|].
    specialize (Hshort (headerEnd + 4 + parseInt ds)%nat ltac:(lia)).
    destruct (loop_fuel (length buffer) _ (length buffer) Hshort Hshort)
      as [-> _].
    reflexivity.
  - specialize (Hshort (headerEnd + 4)%nat ltac:(lia)).
    destruct (loop_fuel (length buffer) _ (length buffer) Hshort Hshort)
      as [-> _].
    reflexivity.
Qed.

(** One complete frame at the head of the buffer is extracted, whatever
    follows it. *)
Lemma processBuffer_frame (content rest : jsstring) :
  is_ascii content ->
  processBuffer (frame content ++ rest)
  = match processBuffer rest with
    | None => None
    | Some (messages, rest') => Some (content :: messages, rest')
    end.
Proof.
  intros Hc. rewrite processBuffer_unfold, frame_shape.
  rewrite byteLength_ascii by exact Hc.
  set (h := header_line (length content)).
  assert (Hi : indexOf CRLFCRLF (h ++ CRLFCRLF ++ content ++ rest)
               = Some (length h))
    by (apply indexOf_after_no_cr, header_line_no_cr).
  rewrite Hi, substring_prefix. unfold h at 1.
  rewrite match_content_length_header, parseInt_decimal.
  assert (Hl : length (h ++ CRLFCRLF) = (length h + 4)%nat)
    by (rewrite length_app; reflexivity).
  rewrite <- Hl, (app_assoc h CRLFCRLF).
  replace (_ <? _)%nat with false
    by (symmetry; apply Nat.ltb_ge; rewrite !length_app; lia).
  rewrite substring_middle.
  rewrite <- (length_app (h ++ CRLFCRLF) content).
  rewrite (app_assoc _ content rest), substring_from_app.
  reflexivity.
Qed.

(** A header block without a usable length is dropped, terminator
    included. *)
Lemma processBuffer_skip (block rest : jsstring) :
  indexOf CRLFCRLF (block ++ CRLFCRLF) = Some (length block) ->
  match_content_length block = None ->
  processBuffer (block ++ CRLFCRLF ++ rest) = processBuffer rest.
Proof.
  intros Hi Hm. rewrite processBuffer_unfold.
  rewrite app_assoc, (indexOf_app _ _ rest _ Hi), <- app_assoc.
  rewrite substring_prefix, Hm.
  rewrite app_assoc.
  replace (length block + 4)%nat with (length (block ++ CRLFCRLF))
    by (rewrite length_app; reflexivity).
  apply f_equal, substring_from_app.
Qed.

(** Every frame of a pipelined buffer is extracted in one call. *)
Lemma processBuffer_frames (contents : list jsstring) :
  Forall is_ascii contents ->
  processBuffer (concat (map frame contents)) = Some (contents, []).
Proof.
  induction 1 as [|c cs Hc _ IH]; [reflexivity|].
  cbn [map concat]. rewrite processBuffer_frame by exact Hc.
  rewrite IH. reflexivity.
Qed.

(** A frame cut anywhere before its end yields nothing and is kept. *)
Lemma processBuffer_partial (content : jsstring) (n : nat) :
  is_ascii content -> (n < length (frame content))%nat ->
  processBuffer (firstn n (frame content))
  = Some ([], firstn n (frame content)).
Proof.
  intros Hc Hn. rewrite processBuffer_unfold.
  rewrite <- (app_nil_r (frame content)) in *. rewrite frame_shape in *.
  rewrite byteLength_ascii in * by exact Hc. rewrite app_nil_r in *.
  set (h := header_line (length content)) in *.
  assert (Hl : length (h ++ CRLFCRLF) = (length h + 4)%nat)
    by (rewrite length_app; reflexivity).
  destruct (Nat.lt_ge_cases n (length h + 4)) as [Hcut|Hfull].
  - unfold CRLFCRLF.
    rewrite indexOf_cut_before;
      [reflexivity|apply header_line_no_cr|exact Hcut].
  - rewrite app_assoc in *. rewrite firstn_app.
    rewrite firstn_all2 by lia. rewrite Hl.
    rewrite <- app_assoc.
    assert (Hi : indexOf CRLFCRLF
                   (h ++ CRLFCRLF ++ firstn (n - (length h + 4)) content)
                 = Some (length h))
      by (apply indexOf_after_no_cr, header_line_no_cr).
    rewrite Hi, substring_prefix. unfold h at 1.
    rewrite match_content_length_header, parseInt_decimal.
    rewrite length_app in Hn.
    replace (_ <? _)%nat with true; [reflexivity|].
    symmetry. apply Nat.ltb_lt.
    rewrite app_assoc, length_app, length_firstn. lia.
Qed.

End FramerFacts.

(** ** Framing: fragmentation, pipelining, resynchronization *)

Module FramerTheorems.
Import JS Json Framer JSFacts FramerFacts.

Lemma firstn_more (A : Type) (l : list A) (n k : nat) :
  firstn n l ++ firstn k (skipn n l) = firstn (n + k) l.
Proof.
  revert l; induction n as [|n IH]; intros l; [reflexivity|].
  destruct l as [|x l]; [simpl; rewrite firstn_nil; reflexivity|].
  simpl. rewrite IH. reflexivity.
Qed.

Lemma split_suffix (A : Type) (data later l : list A) (n : nat) :
  data ++ later = skipn n l ->
  firstn n l ++ data = firstn (n + length data) l
  /\ later = skipn (n + length data) l
  /\ (n + length data + length later = Nat.max n (length l))%nat.
Proof.
  intros H. repeat split.
  - rewrite <- firstn_more, <- H, firstn_app, Nat.sub_diag, firstn_all.
    simpl. rewrite app_nil_r. reflexivity.
  - rewrite Nat.add_comm, <- skipn_skipn, <- H.
    rewrite skipn_app, skipn_all, Nat.sub_diag. reflexivity.
  - apply (f_equal (@length A)) in H.
    rewrite length_app, length_skipn in H. lia.
Qed.

Lemma receive_nothing (chunks : list JS.buffer) :
  concat chunks = [] -> receive [] chunks = Some ([], []).
Proof.
  induction chunks as [|data later IH]; [reflexivity|].
  cbn [concat]. intros H. apply app_eq_nil in H. destruct H as [-> H].
  cbn [receive]. unfold on_data. cbn. rewrite (IH H). reflexivity.
Qed.

(** The state of a connection in the middle of one ASCII frame: the
    buffer holds the first [n] units, the socket still owes the rest. *)
Lemma receive_rest_of_frame (content : jsstring) :
  is_ascii content ->
  forall (chunks : list JS.buffer) (n : nat),
    (n < length (frame content))%nat ->
    concat chunks = skipn n (frame content) ->
    receive (firstn n (frame content)) chunks = Some ([content], []).
Proof.
  intros Hc chunks.
  induction chunks as [|data later IH]; intros n Hn Hrest.
  - exfalso. apply (f_equal (@length Z)) in Hrest.
    rewrite length_skipn in Hrest. cbn [concat length] in Hrest. lia.
  - cbn [concat] in Hrest.
    destruct (split_suffix _ _ _ _ _ Hrest) as (Hbuf & Hlater & Hlen).
    assert (Hdata : is_ascii data).
    { pose proof (frame_ascii _ Hc) as Hf.
      rewrite <- (firstn_skipn n (frame content)) in Hf.
      apply is_ascii_app in Hf. destruct Hf as [_ Hf].
      rewrite <- Hrest in Hf. apply is_ascii_app in Hf. tauto. }
    cbn [receive]. unfold on_data.
    rewrite (toString_ascii _ Hdata), Hbuf.
    destruct (Nat.lt_ge_cases (n + length data) (length (frame content)))
      as [Hmid|Hend].
    + rewrite processBuffer_partial by assumption.
      rewrite (IH _ Hmid Hlater). reflexivity.
    + rewrite firstn_all2 by lia.
      rewrite <- (app_nil_r (frame content)) at 1.
      rewrite processBuffer_frame by exact Hc.
      change (processBuffer []) with (Some (@nil jsstring, @nil Z)).
      cbv iota beta.
      rewrite receive_nothing; [reflexivity|].
      rewrite Hlater. apply skipn_all2. lia.
Qed.

(** Round trip of an ASCII body: however the socket cuts the octets of
    one frame into ['data'] events, one octet at a time included, the
    framer hands exactly that body to [JSON.parse], once, and is left
    with an empty buffer. *)
Lemma roundtrip_ascii (content : jsstring) (chunks : list JS.buffer) :
  is_ascii content ->
  concat chunks = utf8_encode (frame content) ->
  receive [] chunks = Some ([content], []).
Proof.
  intros Hc Hchunks.
  rewrite (utf8_encode_ascii _ (frame_ascii _ Hc)) in Hchunks.
  apply (receive_rest_of_frame content Hc chunks 0).
  - unfold frame. rewrite !length_app. simpl. lia.
  - exact Hchunks.
Qed.

Lemma sendRequest_eq (id : nat) (method : jsstring) (params : json) :
  sendRequest id method params
  = utf8_encode (frame (stringify (request id method params))).
Proof. reflexivity. Qed.

(** The same for a request of [sendRequest] whose JSON text is ASCII. *)
Lemma sendRequest_roundtrip_ascii (id : nat) (method : jsstring)
    (params : json) (chunks : list JS.buffer) :
  is_ascii (stringify (request id method params)) ->
  concat chunks = sendRequest id method params ->
  receive [] chunks = Some ([stringify (request id method params)], []).
Proof.
  intros H Hc. rewrite sendRequest_eq in Hc.
  generalize dependent (stringify (request id method params)).
  intros text H Hc. exact (roundtrip_ascii text chunks H Hc).
Qed.

(** A frame whose body has more UTF-8 octets than characters, which is
    every body with a character outside ASCII, is never decoded when it
    is all the buffer holds: the framer waits for characters that no
    sender owes. *)
Lemma frame_alone_stalls (content : jsstring) :
  (length content < byteLength content)%nat ->
  processBuffer (frame content) = Some ([], frame content).
Proof.
  intros Hlen. rewrite processBuffer_unfold.
  rewrite <- (app_nil_r (frame content)), frame_shape, app_nil_r.
  set (h := header_line (byteLength content)).
  assert (Hi : indexOf CRLFCRLF (h ++ CRLFCRLF ++ content) = Some (length h))
    by (apply indexOf_after_no_cr, header_line_no_cr).
  rewrite Hi, substring_prefix. unfold h at 1.
  rewrite match_content_length_header, parseInt_decimal.
  replace (_ <? _)%nat with true; [reflexivity|].
  symmetry. apply Nat.ltb_lt. rewrite !length_app. cbn [length CRLFCRLF]. lia.
Qed.

(** The request [sendRequest('findReferences', {symbolName: 'é'})]. *)
Definition accented_request : json :=
  request 1 (str "findReferences")
          (JObject [(str "symbolName", JString [233])]).

(** ** C2.  The round trip of the request [accented_request], whose text
    has 78 characters and 79 UTF-8 octets.  The frame announces 79.
    Delivered in one piece, the framer compares 79 with the 78 characters
    it holds and waits: the request is never handed to [JSON.parse] and
    the whole frame stays in the buffer.  Delivered one octet at a time,
    each half of the two-octet character decodes to U+FFFD, and what is
    handed to [JSON.parse] is not the text that was sent. *)
Theorem roundtrip_fails_on_non_ascii :
  let text := stringify accented_request in
  let octets := sendRequest 1 (str "findReferences")
                  (JObject [(str "symbolName", JString [233])]) in
  length text = 78%nat /\ byteLength text = 79%nat
  /\ receive [] [octets] = Some ([], frame text)
  /\ receive [] (map (fun b => [b]) octets)
     = Some ([firstn 74 text ++ [0xFFFD; 0xFFFD] ++ skipn 75 text], []).
Proof. vm_compute. repeat split; reflexivity. Qed.

(** The answer [{jsonrpc: '2.0', id: 1, result: 'é'}] of a server. *)
Definition accented_answer : jsstring :=
  stringify (JObject [(str "jsonrpc", JString (str "2.0"));
                      (str "id", JNumber 1);
                      (str "result", JString [233])]).

Definition plain_answer : jsstring :=
  stringify (JObject [(str "jsonrpc", JString (str "2.0"));
                      (str "id", JNumber 2);
                      (str "result", JString (str "ok"))]).

(** Resynchronization and pipelining on ASCII traffic: a header block
    that ends at the first terminator and has no [Content-Length: <digits>]
    is dropped, and every frame that follows in the same buffer is
    extracted by the one call. *)
Lemma resync_then_frames (block : jsstring) (contents : list jsstring) :
  indexOf CRLFCRLF (block ++ CRLFCRLF) = Some (length block) ->
  match_content_length block = None ->
  Forall is_ascii contents ->
  processBuffer (block ++ CRLFCRLF ++ concat (map frame contents))
  = Some (contents, []).
Proof.
  intros Hi Hm Hc. rewrite processBuffer_skip by assumption.
  apply processBuffer_frames, Hc.
Qed.

(** ** C9.  After a header block without [Content-Length], the
    well-formed frame of [accented_answer] (37 characters, 38 octets) is
    not decoded: the framer waits for a 38th character.  Two well-formed
    frames in one read, the first one [accented_answer]: the framer hands
    out the first body with the first character of the next header
    attached, then drops what is left of that header, and the second
    message is lost. *)
Theorem resync_loses_non_ascii_message :
  let junk := str "X-Junk: 1" in
  length accented_answer = 37%nat /\ byteLength accented_answer = 38%nat
  /\ match_content_length junk = None
  /\ processBuffer (junk ++ CRLFCRLF ++ frame accented_answer)
     = Some ([], frame accented_answer)
  /\ processBuffer (frame accented_answer ++ frame plain_answer)
     = Some ([accented_answer ++ str "C"], plain_answer).
Proof. vm_compute. repeat split; reflexivity. Qed.

End FramerTheorems.

(** ** Endpoint naming *)

Module NamerTheorems.
Import JS Namer.

Definition is_hex (c : Z) : Prop := 48 <= c <= 57 \/ 97 <= c <= 102.
Definition is_octet (b : Z) : Prop := 0 <= b < 256.

(** What precedes and what follows the tag in [pipe_path]. *)
Definition prefix (platform : jsstring) : jsstring :=
  if jsstring_eqb platform win32 then str "\\.\pipe\forge-lsp-"
  else str "/tmp/forge-lsp-".

Definition suffix (platform : jsstring) : jsstring :=
  if jsstring_eqb platform win32 then [] else str ".sock".

Lemma pipe_path_shape (platform tag : jsstring) :
  pipe_path platform tag = prefix platform ++ tag ++ suffix platform.
Proof.
  unfold pipe_path, prefix, suffix.
  destruct (jsstring_eqb platform win32); [rewrite app_nil_r|]; reflexivity.
Qed.

Lemma pipe_path_inj (platform a b : jsstring) :
  pipe_path platform a = pipe_path platform b <-> a = b.
Proof.
  split; [|intros ->; reflexivity].
  rewrite !pipe_path_shape. intros H.
  apply app_inv_head in H. apply app_inv_tail in H. exact H.
Qed.

Lemma hex_digit_is_hex (d : Z) : 0 <= d < 16 -> is_hex (Json.hex_digit d).
Proof.
  intros H. unfold is_hex, Json.hex_digit.
  destruct (Z.ltb_spec d 10); lia.
Qed.

Lemma low_byte_is_octet (w : Z) : is_octet (Z.land w 0xFF).
Proof.
  unfold is_octet. change 0xFF with (Z.ones 8).
  rewrite Z.land_ones by lia. apply Z.mod_pos_bound. reflexivity.
Qed.

Lemma hex_of_octets (bs : buffer) :
  Forall is_octet bs ->
  length (MD5.hex bs) = (2 * length bs)%nat /\ Forall is_hex (MD5.hex bs).
Proof.
  induction 1 as [|b bs Hb _ [IHl IHh]]; [split; [reflexivity|constructor]|].
  unfold is_octet in Hb. cbn [MD5.hex flat_map app length].
  fold (MD5.hex bs). split; [rewrite IHl; lia|].
  constructor; [|constructor; [|exact IHh]]; apply hex_digit_is_hex.
  - rewrite Z.shiftr_div_pow2 by lia. change (2 ^ 4) with 16.
    split; [apply Z.div_pos; lia|apply Z.div_lt_upper_bound; lia].
  - change 0xF with (Z.ones 4). rewrite Z.land_ones by lia.
    apply Z.mod_pos_bound. reflexivity.
Qed.

Lemma digest_octets (msg : buffer) :
  length (MD5.digest msg) = 16%nat /\ Forall is_octet (MD5.digest msg).
Proof.
  unfold MD5.digest.
  destruct (fold_left MD5.compress _ _) as [[[a b] c] d].
  split; [reflexivity|].
  unfold MD5.octets_of_word. cbn [app].
  repeat (constructor; [apply low_byte_is_octet|]). constructor.
Qed.

(** The tag is always eight lower-case hexadecimal digits. *)
Lemma hash8_shape (workspacePath : jsstring) :
  length (hash8 workspacePath) = 8%nat /\ Forall is_hex (hash8 workspacePath).
Proof.
  unfold hash8, MD5.md5_hex, substring.
  destruct (digest_octets (utf8_encode workspacePath)) as [Hl Ho].
  destruct (hex_of_octets _ Ho) as [Hhl Hhh]. rewrite Hl in Hhl.
  cbn [Nat.max Nat.min Nat.sub skipn]. split.
  - rewrite length_firstn, Hhl. reflexivity.
  - rewrite <- (firstn_skipn 8 (MD5.hex _)) in Hhh.
    apply Forall_app in Hhh. tauto.
Qed.

Lemma hex_digit_injective (a b : Z) :
  0 <= a < 16 -> 0 <= b < 16 ->
  Json.hex_digit a = Json.hex_digit b -> a = b.
Proof.
  unfold Json.hex_digit. intros Ha Hb.
  destruct (Z.ltb_spec a 10), (Z.ltb_spec b 10); lia.
Qed.

(** Nothing is lost in [toString('hex')]. *)
Lemma hex_injective (a : buffer) :
  forall b : buffer,
    Forall is_octet a -> Forall is_octet b -> MD5.hex a = MD5.hex b -> a = b.
Proof.
  induction a as [|x a IH]; intros [|y b] Ha Hb H; try discriminate;
    [reflexivity|].
  inversion Ha as [|? ? Hx Ha']; inversion Hb as [|? ? Hy Hb']; subst.
  cbn [MD5.hex flat_map app] in H. injection H as Hhi Hlo Hrest.
  unfold is_octet in Hx, Hy.
  assert (Hs : forall z, 0 <= z < 256 ->
             0 <= Z.shiftr z 4 < 16 /\ 0 <= Z.land z 0xF < 16
             /\ z = 16 * Z.shiftr z 4 + Z.land z 0xF).
  { intros z Hz. rewrite Z.shiftr_div_pow2 by lia.
    change 0xF with (Z.ones 4). rewrite Z.land_ones by lia.
    change (2 ^ 4) with 16.
    pose proof (Z.div_mod z 16 ltac:(lia)).
    pose proof (Z.mod_pos_bound z 16 ltac:(lia)).
    assert (0 <= z / 16 < 16)
      by (split; [apply Z.div_pos; lia|apply Z.div_lt_upper_bound; lia]).
    lia. }
  destruct (Hs x Hx) as (Hx1 & Hx2 & Ex).
  destruct (Hs y Hy) as (Hy1 & Hy2 & Ey).
  apply hex_digit_injective in Hhi; [|assumption..].
  apply hex_digit_injective in Hlo; [|assumption..].
  f_equal; [lia|]. apply IH; assumption.
Qed.

(** The first 32 bits of the MD5 digest of a path, taken in UTF-8. *)
Definition digest32 (workspacePath : jsstring) : buffer :=
  firstn 4 (MD5.digest (utf8_encode workspacePath)).

Lemma hex_firstn (n : nat) :
  forall bs : buffer, firstn (2 * n) (MD5.hex bs) = MD5.hex (firstn n bs).
Proof.
  induction n as [|n IH]; intros bs; [reflexivity|].
  destruct bs as [|b bs]; [reflexivity|].
  replace (2 * S n)%nat with (S (S (2 * n))) by lia.
  cbn [MD5.hex flat_map app firstn]. fold (MD5.hex bs).
  fold (MD5.hex (firstn n bs)). rewrite IH. reflexivity.
Qed.

(** The tag is the hexadecimal form of those 32 bits. *)
Lemma hash8_digest32 (workspacePath : jsstring) :
  hash8 workspacePath = MD5.hex (digest32 workspacePath).
Proof.
  unfold hash8, MD5.md5_hex, substring, digest32.
  cbn [Nat.max Nat.min Nat.sub skipn]. exact (hex_firstn 4 _).
Qed.

Lemma digest32_octets (workspacePath : jsstring) :
  Forall is_octet (digest32 workspacePath).
Proof.
  unfold digest32.
  destruct (digest_octets (utf8_encode workspacePath)) as [_ Ho].
  rewrite <- (firstn_skipn 4 (MD5.digest _)) in Ho.
  apply Forall_app in Ho. tauto.
Qed.

Lemma hash8_eq_iff (a b : jsstring) :
  hash8 a = hash8 b <-> digest32 a = digest32 b.
Proof.
  rewrite !hash8_digest32. split; [|intros ->; reflexivity].
  apply hex_injective; apply digest32_octets.
Qed.

Section WithLowerCase.
Variable toLowerCase : jsstring -> jsstring.

(** ** C3, as the code has it.  With a workspace root the address is
    [prefix ++ tag ++ suffix], where the tag is the hexadecimal form,
    eight digits, of the first 32 bits of the MD5 of the path that is
    hashed: the lower-cased root when [process.platform] is [win32], the
    root as it is on every other platform.  So the address is a function
    of the platform and that path alone, the same in the extension and in
    the client, whatever the other folders and the random source hold.
    On win32 two roots with the same lower-case form get the same
    address.  Two roots get the same address exactly when the first 32
    bits of the MD5 of their hashed paths coincide; off win32, where no
    letter is folded, on darwin as on linux, two roots get different
    addresses exactly when the 32 bits of their own digests differ.
    Without a workspace root the tag is the hexadecimal form of the four
    random octets: eight hexadecimal digits again. *)
Theorem deriveAddress_by_normalized_root
    (platform root root' : jsstring) (others others' : list jsstring)
    (random random' : buffer) :
  let address r o rnd :=
    generatePipeName toLowerCase platform (Some (r :: o)) rnd in
  let hashed r :=
    if jsstring_eqb platform win32 then toLowerCase r else r in
  (address root others random
     = prefix platform ++ MD5.hex (digest32 (hashed root)) ++ suffix platform
   /\ length (MD5.hex (digest32 (hashed root))) = 8%nat
   /\ Forall is_hex (MD5.hex (digest32 (hashed root))))
  /\ address root others random = address root others' random'
  /\ client_generatePipeName toLowerCase platform root
     = address root others random
  /\ (platform = win32 -> toLowerCase root = toLowerCase root' ->
      address root others random = address root' others' random')
  /\ (address root others random = address root' others' random'
      <-> digest32 (hashed root) = digest32 (hashed root'))
  /\ (platform <> win32 ->
      (address root others random <> address root' others' random'
       <-> digest32 root <> digest32 root'))
  /\ (length random = 4%nat -> Forall is_octet random ->
      forall folders, folders = None \/ folders = Some [] ->
        generatePipeName toLowerCase platform folders random
        = prefix platform ++ MD5.hex random ++ suffix platform
        /\ length (MD5.hex random) = 8%nat
        /\ Forall is_hex (MD5.hex random)).
Proof.
  cbv zeta. unfold generatePipeName, client_generatePipeName.
  fold (normalize toLowerCase platform root).
  fold (normalize toLowerCase platform root').
  rewrite <- !hash8_digest32.
  split; [|split; [|split; [|split; [|split; [|split]]]]].
  - split; [apply pipe_path_shape|apply hash8_shape].
  - reflexivity.
  - reflexivity.
  - intros -> E. unfold normalize.
    rewrite JSFacts.jsstring_eqb_refl, E. reflexivity.
  - rewrite pipe_path_inj. apply hash8_eq_iff.
  - intros Hp. rewrite pipe_path_inj. unfold normalize.
    rewrite (JSFacts.jsstring_eqb_neq _ _ Hp), hash8_eq_iff. tauto.
  - intros Hlen Ho folders Hf. split; [|split].
    + destruct Hf as [-> | ->]; apply pipe_path_shape.
    + destruct (hex_of_octets _ Ho) as [Hl _]. rewrite Hl, Hlen. reflexivity.
    + apply hex_of_octets, Ho.
Qed.

End WithLowerCase.

(** ** C3, as stated, fails on darwin, whose file systems fold case as
    those of Windows do: the code lower-cases the path on [win32] only,
    so there two spellings of one directory that differ only in letter
    case get two addresses, and a client started under one spelling does
    not derive the address of an extension that was given the other. *)
Lemma case_variants_differ_on_darwin :
  let darwin := str "darwin" in
  let upper := str "/Users/dev/Lsp-Poc" in
  let lower := str "/Users/dev/lsp-poc" in
  ascii_toLowerCase upper = ascii_toLowerCase lower
  /\ generatePipeName ascii_toLowerCase darwin (Some [upper]) []
     = str "/tmp/forge-lsp-4f7bbfbe.sock"
  /\ generatePipeName ascii_toLowerCase darwin (Some [lower]) []
     = str "/tmp/forge-lsp-9e8ab882.sock"
  /\ client_generatePipeName ascii_toLowerCase darwin lower
     <> generatePipeName ascii_toLowerCase darwin (Some [upper]) [].
Proof.
  cbv zeta.
  assert (Hupper : generatePipeName ascii_toLowerCase (str "darwin")
                     (Some [str "/Users/dev/Lsp-Poc"]) []
                   = str "/tmp/forge-lsp-4f7bbfbe.sock")
    by (vm_compute; reflexivity).
  assert (Hlower : client_generatePipeName ascii_toLowerCase (str "darwin")
                     (str "/Users/dev/lsp-poc")
                   = str "/tmp/forge-lsp-9e8ab882.sock")
    by (vm_compute; reflexivity).
  split; [vm_compute; reflexivity|]. split; [exact Hupper|].
  split; [exact Hlower|]. rewrite Hupper, Hlower. discriminate.
Qed.

(** Two roots that differ only in the case of their letters. *)
Definition root_upper : jsstring := str "/HOME/Dev/PRojecTs/Lsppoc".
Definition root_lower : jsstring := str "/hOMe/DEv/PrOJECts/lsPpoc".

(** The 32 bits do collide: on Linux these two distinct roots get the
    same address, their MD5 digests sharing the first eight digits. *)
Remark tags_of_distinct_roots_can_collide :
  root_upper <> root_lower
  /\ generatePipeName ascii_toLowerCase (str "linux") (Some [root_upper]) []
     = str "/tmp/forge-lsp-b0be816c.sock"
  /\ generatePipeName ascii_toLowerCase (str "linux") (Some [root_lower]) []
     = str "/tmp/forge-lsp-b0be816c.sock".
Proof.
  split; [discriminate|]. vm_compute. split; reflexivity.
Qed.

Lemma deriveAddress_by_normalized_root_witness :
  let upper := str "C:\Work\Poc" in
  let lower := str "c:\work\poc" in
  let random := [0xde; 0xad; 0xbe; 0xef] in
  ascii_toLowerCase upper = ascii_toLowerCase lower
  /\ generatePipeName ascii_toLowerCase win32 (Some [upper]) random
     = generatePipeName ascii_toLowerCase win32 (Some [lower]) []
  /\ generatePipeName ascii_toLowerCase win32 (Some [upper]) random
     = str "\\.\pipe\forge-lsp-bc883aa1"
  /\ length random = 4%nat /\ Forall is_octet random
  /\ generatePipeName ascii_toLowerCase win32 None random
     = prefix win32 ++ str "deadbeef" ++ suffix win32.
Proof.
  cbv zeta.
  assert (Hr : Forall is_octet [0xde; 0xad; 0xbe; 0xef])
    by (repeat constructor; unfold is_octet; lia).
  destruct (deriveAddress_by_normalized_root ascii_toLowerCase win32
              (str "C:\Work\Poc") (str "c:\work\poc") [] []
              [0xde; 0xad; 0xbe; 0xef] [])
    as ((Hshape & _ & _) & _ & _ & Hwin & _ & _ & Hrandom).
  split; [reflexivity|]. split; [exact (Hwin eq_refl eq_refl)|].
  split; [rewrite Hshape; vm_compute; reflexivity|].
  split; [reflexivity|]. split; [exact Hr|].
  destruct (Hrandom eq_refl Hr None (or_introl eq_refl)) as (Haddr & _ & _).
  exact Haddr.
Defined.

End NamerTheorems.

(** ** Running [async] bodies *)

Module AsyncFacts.
Import JS Json VSCode.
Local Open Scope async_scope.

Lemma run_bind (A B : Type) (e : Engine) (p : Async A) (f : A -> Async B) :
  run e (bind p f)
  = match run e p with
    | (t, Fulfilled a) => let '(t', o) := run e (f a) in (t ++ t', o)
    | (t, Rejected m) => (t, Rejected m)
    end.
Proof.
  induction p as [a|m|c k IH]; cbn [bind run].
  - destruct (run e (f a)); reflexivity.
  - reflexivity.
  - destruct (e c) as [r|m]; [|reflexivity].
    rewrite IH. destruct (run e (k r)) as [t [a|m]]; [|reflexivity].
    destruct (run e (f a)); reflexivity.
Qed.

Lemma outcome_bind (A B : Type) (e : Engine) (p : Async A)
    (f : A -> Async B) :
  outcome e (bind p f)
  = match outcome e p with
    | Fulfilled a => outcome e (f a)
    | Rejected m => Rejected m
    end.
Proof.
  unfold outcome. rewrite run_bind.
  destruct (run e p) as [t [a|m]]; [|reflexivity].
  cbn [snd]. destruct (run e (f a)); reflexivity.
Qed.

Lemma trace_bind (A B : Type) (e : Engine) (p : Async A)
    (f : A -> Async B) :
  trace e (bind p f)
  = match outcome e p with
    | Fulfilled a => trace e p ++ trace e (f a)
    | Rejected m => trace e p
    end.
Proof.
  unfold trace, outcome. rewrite run_bind.
  destruct (run e p) as [t [a|m]]; [|reflexivity].
  cbn [fst snd]. destruct (run e (f a)); reflexivity.
Qed.

(** Awaiting one command and going on with its reply. *)
Lemma run_await (A : Type) (e : Engine) (c : Command)
    (f : Reply c -> Async A) :
  run e (bind (Await c Return) f)
  = match e c with
    | Fulfilled r => let '(t, o) := run e (f r) in (c :: t, o)
    | Rejected m => ([c], Rejected m)
    end.
Proof. reflexivity. Qed.

Lemma outcome_await (A : Type) (e : Engine) (c : Command)
    (f : Reply c -> Async A) :
  outcome e (bind (Await c Return) f)
  = match e c with
    | Fulfilled r => outcome e (f r)
    | Rejected m => Rejected m
    end.
Proof.
  unfold outcome. rewrite run_await.
  destruct (e c) as [r|m]; [|reflexivity].
  destruct (run e (f r)); reflexivity.
Qed.

Lemma run_pair (A : Type) (e : Engine) (p : Async A) :
  run e p = (trace e p, outcome e p).
Proof. unfold trace, outcome. destruct (run e p); reflexivity. Qed.

(** An engine that settles every command with a value. *)
Definition responsive (e : Engine) : Prop :=
  forall c : Command, exists r : Reply c, e c = Fulfilled r.

End AsyncFacts.


(** ** The request handlers *)

Module HandlerTheorems.
Import JS Json VSCode AsyncFacts Fixture.
Local Open Scope async_scope.

Lemma app_findReferences (ws : Workspace) (e : Engine) (body : json) :
  HttpServer.app ws e (post "/api/findReferences" body)
  = HttpServer.findReferences_route e body.
Proof. reflexivity. Qed.

Lemma symbolName_of_string (body : json) (symbolName : jsstring) :
  prop (str "symbolName") body = Some (JString symbolName) ->
  HttpServer.symbolName_of body = Some symbolName.
Proof. unfold HttpServer.symbolName_of. intros ->. reflexivity. Qed.

Definition missing_field : jsstring := str "Missing required field: symbolName".

(** ** C6.  A [findReferences] request without [symbolName], or with the
    empty string, is answered by a validation error and no engine command
    is issued: the HTTP route answers 400 with [{error, example}], both
    pipe handlers throw [Missing required field: symbolName]; the trace of
    engine commands is empty, whatever the engine. *)
Theorem missing_symbolName_is_refused_without_lookup
    (ws : Workspace) (e : Engine) :
  (forall body : json,
      prop (str "symbolName") body = None
      \/ prop (str "symbolName") body = Some (JString []) ->
      HttpServer.app ws e (post "/api/findReferences" body)
      = ([], HttpServer.send 400
               (JObject [(str "error", JString missing_field);
                         (str "example",
                          symbolName_body (str "CustomeFormField"))])))
  /\ (forall symbolName : option jsstring,
         symbolName = None \/ symbolName = Some [] ->
         run e (PipeServer.handleFindReferences ws symbolName)
         = ([], Rejected missing_field)
         /\ run e (PipeServerScoped.handleFindReferences ws symbolName)
            = ([], Rejected missing_field)).
Proof.
  split.
  - intros body H. rewrite app_findReferences.
    unfold HttpServer.findReferences_route, HttpServer.findReferences_try,
      HttpServer.symbolName_of.
    destruct H as [-> | ->]; reflexivity.
  - intros symbolName [-> | ->]; split; reflexivity.
Qed.

Lemma missing_symbolName_is_refused_without_lookup_witness :
  HttpServer.app bare_workspace (index_engine (Some [greetUser]) None)
    (post "/api/findReferences" (symbolName_body []))
  = ([], HttpServer.send 400
           (JObject [(str "error", JString missing_field);
                     (str "example",
                      symbolName_body (str "CustomeFormField"))]))
  /\ run (index_engine (Some [greetUser]) None)
         (PipeServerScoped.handleFindReferences bare_workspace None)
     = ([], Rejected missing_field).
Proof.
  pose proof (missing_symbolName_is_refused_without_lookup bare_workspace
                (index_engine (Some [greetUser]) None)) as [Hhttp Hpipe].
  split.
  - apply Hhttp. right. reflexivity.
  - apply (Hpipe None). left. reflexivity.
Defined.

(** ** C7, on the HTTP route.  The index is asked for [greetuser], a
    name that no symbol bears, and returns [greetUser], as an index that
    folds case does.  The route does not answer 404: it takes
    [symbols[0]], asks for the references of [greetUser] and answers 200
    with that symbol and its seven references, without an [error]
    property.  On the same engine both pipe handlers end with their
    not-found error after the index query. *)
Theorem near_match_is_answered_200_not_404 :
  let e := index_engine (Some [greetUser]) (Some greetUser_references) in
  let name := str "greetuser" in
  (forall s, In s [greetUser] -> si_name s <> name)
  /\ (exists answer references,
         HttpServer.app bare_workspace e
           (post "/api/findReferences" (symbolName_body name))
         = ([executeWorkspaceSymbolProvider name;
             executeReferenceProvider sample_uri
               {| line := 3; character := 9 |}],
            {| HttpServer.status := 200; HttpServer.body := Some answer |})
         /\ at_path [str "symbol"; str "name"] answer
            = Some (JString (str "greetUser"))
         /\ prop (str "error") answer = None
         /\ prop (str "references") answer = Some (JArray references)
         /\ length references = 7%nat)
  /\ run e (PipeServer.handleFindReferences bare_workspace (Some name))
     = ([executeWorkspaceSymbolProvider name],
        Rejected (str "No symbol named " ++ [dquote] ++ name ++ [dquote]
                  ++ str " found in the workspace or open documents"))
  /\ run e (PipeServerScoped.handleFindReferences bare_workspace (Some name))
     = ([executeWorkspaceSymbolProvider name],
        Rejected (str "No symbol named " ++ [dquote] ++ name ++ [dquote]
                  ++ str " found in the workspace")).
Proof.
  cbv zeta. split; [|split; [|split]].
  - intros s [<-|[]]. discriminate.
  - do 2 eexists. split; [reflexivity|]. repeat split; reflexivity.
  - reflexivity.
  - reflexivity.
Qed.

End HandlerTheorems.

(** ** Reference aggregation *)

Module ReferenceTheorems.
Import JS Json VSCode AsyncFacts Fixture HandlerTheorems.
Local Open Scope async_scope.

(** The engine's list, [undefined] read as the empty list. *)
Definition listed (references : option (list Location)) : list Location :=
  match references with
  | Some l => l
  | None => []
  end.

Lemma first_revision_aggregate (e : Engine) (symbolName : jsstring)
    (l : SymbolLocation) (references : option (list Location)) :
  e (executeReferenceProvider (sl_uri l) (sl_position l))
  = Fulfilled references ->
  exists result,
    outcome e (PipeServer.aggregate symbolName l) = Fulfilled result
    /\ prop (str "references") result
       = Some (JArray (map reference_json (listed references))).
Proof.
  intros He. unfold PipeServer.aggregate. rewrite outcome_await, He.
  destruct references as [[|r rs]|]; eexists; split; reflexivity.
Qed.

Lemma second_revision_aggregate (e : Engine) (symbolName : jsstring)
    (l : SymbolLocation) (references : option (list Location)) :
  e (executeReferenceProvider (sl_uri l) (sl_position l))
  = Fulfilled references ->
  outcome e (PipeServerScoped.aggregate symbolName l)
  = Fulfilled
      (JObject
         [(str "symbol", PipeServerScoped.symbol_json symbolName l);
          (str "references", JArray (map reference_json (listed references)));
          (str "totalReferences",
           JNumber (Z.of_nat (length (listed references))))]).
Proof.
  intros He. unfold PipeServerScoped.aggregate. rewrite outcome_await, He.
  destruct references; reflexivity.
Qed.

(** What a client reads in the element [j] of [references] when [j]
    stands for the location [loc]: the URI as a string, and the four
    numbers of the range. *)
Definition reports (loc : Location) (j : json) : Prop :=
  prop (str "uri") j = Some (JString (uri_toString (loc_uri loc)))
  /\ at_path [str "range"; str "start"; str "line"] j
     = Some (JNumber (Z.of_nat (line (range_start (loc_range loc)))))
  /\ at_path [str "range"; str "start"; str "character"] j
     = Some (JNumber (Z.of_nat (character (range_start (loc_range loc)))))
  /\ at_path [str "range"; str "end"; str "line"] j
     = Some (JNumber (Z.of_nat (line (range_end (loc_range loc)))))
  /\ at_path [str "range"; str "end"; str "character"] j
     = Some (JNumber (Z.of_nat (character (range_end (loc_range loc))))).

Lemma references_reported (references : list Location) :
  Forall2 reports references (map reference_json references).
Proof.
  induction references as [|loc rest IH]; [constructor|].
  cbn [map]. constructor; [|exact IH]. repeat split; reflexivity.
Qed.

(** ** C8.  Once the symbol is resolved, whatever the engine's reference
    provider returns is passed through.  The result is a success, [200]
    without an [error] property or a fulfilled promise, whose
    [references] array has one element for each location of the engine's
    list, at the same index: the element at index [i] carries the URI,
    the start and the end of the engine's location number [i], so nothing
    is dropped, merged or moved, duplicates included.  An engine that
    reports no reference ([undefined] or an empty array) gives a success
    with an empty [references] array.  This holds for the HTTP route and
    for both revisions of the pipe handler. *)
Theorem references_pass_through
    (ws : Workspace) (e : Engine) (symbolName : jsstring)
    (references : option (list Location)) :
  symbolName <> [] ->
  (forall (body : json) (symbol : SymbolInformation)
          (others : list SymbolInformation),
      prop (str "symbolName") body = Some (JString symbolName) ->
      e (executeWorkspaceSymbolProvider symbolName)
      = Fulfilled (Some (symbol :: others)) ->
      e (executeReferenceProvider
           (loc_uri (si_location symbol))
           (range_start (loc_range (si_location symbol))))
      = Fulfilled references ->
      exists answer items,
        snd (HttpServer.app ws e (post "/api/findReferences" body))
        = {| HttpServer.status := 200; HttpServer.body := Some answer |}
        /\ prop (str "error") answer = None
        /\ prop (str "references") answer = Some (JArray items)
        /\ Forall2 reports (listed references) items)
  /\ (forall l : SymbolLocation,
         outcome e (PipeServer.resolve ws symbolName) = Fulfilled (Some l) ->
         e (executeReferenceProvider (sl_uri l) (sl_position l))
         = Fulfilled references ->
         exists result items,
           outcome e (PipeServer.handleFindReferences ws (Some symbolName))
           = Fulfilled result
           /\ prop (str "references") result = Some (JArray items)
           /\ Forall2 reports (listed references) items)
  /\ (forall l : SymbolLocation,
         outcome e (PipeServerScoped.findSymbolLocation ws symbolName)
         = Fulfilled (Some l) ->
         e (executeReferenceProvider (sl_uri l) (sl_position l))
         = Fulfilled references ->
         exists result items,
           outcome e
             (PipeServerScoped.handleFindReferences ws (Some symbolName))
           = Fulfilled result
           /\ prop (str "references") result = Some (JArray items)
           /\ Forall2 reports (listed references) items).
Proof.
  intros Hne. destruct symbolName as [|c name]; [contradiction|].
  split; [|split].
  - intros body symbol others Hbody Hsym Href.
    rewrite app_findReferences.
    unfold HttpServer.findReferences_route, HttpServer.findReferences_try.
    rewrite (symbolName_of_string _ _ Hbody), run_await, Hsym.
    cbv iota beta. rewrite run_await, Href.
    exists (JObject
              ((str "symbol", HttpServer.symbol_json symbol)
               :: (str "references",
                   JArray (map reference_json (listed references)))
               :: match listed references with
                  | [] => [(str "message",
                            JString (str "Symbol found but no references"))]
                  | _ :: _ =>
                      [(str "totalReferences",
                        JNumber (Z.of_nat (length (listed references))))]
                  end)),
      (map reference_json (listed references)).
    split; [|split; [|split]].
    + destruct references as [[|r rs]|]; cbn [listed run snd];
        try reflexivity.
      rewrite length_map. reflexivity.
    + destruct references as [[|r rs]|]; reflexivity.
    + reflexivity.
    + apply references_reported.
  - intros l Hres Href.
    cbn [PipeServer.handleFindReferences]. rewrite outcome_bind, Hres.
    destruct (first_revision_aggregate e (c :: name) l references Href)
      as (result & Hout & Hrefs).
    exists result, (map reference_json (listed references)).
    split; [exact Hout|]. split; [exact Hrefs|apply references_reported].
  - intros l Hres Href.
    cbn [PipeServerScoped.handleFindReferences].
    rewrite outcome_bind, Hres.
    rewrite (second_revision_aggregate e (c :: name) l references Href).
    do 2 eexists. split; [reflexivity|].
    split; [reflexivity|apply references_reported].
Qed.

(** A list of the engine with a location twice and the later line
    first. *)
Definition unordered_references : list Location :=
  [{| loc_uri := sample_uri; loc_range := span 8 18 27 |};
   {| loc_uri := sample_uri; loc_range := span 3 9 18 |};
   {| loc_uri := sample_uri; loc_range := span 8 18 27 |}].

Lemma references_pass_through_witness :
  let e := index_engine (Some [greetUser]) (Some unordered_references) in
  let name := str "greetUser" in
  (exists answer items,
      snd (HttpServer.app bare_workspace e
             (post "/api/findReferences" (symbolName_body name)))
      = {| HttpServer.status := 200; HttpServer.body := Some answer |}
      /\ prop (str "error") answer = None
      /\ prop (str "references") answer = Some (JArray items)
      /\ Forall2 reports unordered_references items)
  /\ (exists result items,
         outcome e (PipeServer.handleFindReferences bare_workspace
                      (Some name)) = Fulfilled result
         /\ prop (str "references") result = Some (JArray items)
         /\ Forall2 reports unordered_references items)
  /\ (exists result items,
         outcome e (PipeServerScoped.handleFindReferences bare_workspace
                      (Some name)) = Fulfilled result
         /\ prop (str "references") result = Some (JArray items)
         /\ Forall2 reports unordered_references items).
Proof.
  cbv zeta.
  pose proof (references_pass_through bare_workspace
                (index_engine (Some [greetUser]) (Some unordered_references))
                (str "greetUser") (Some unordered_references)
                ltac:(discriminate))
    as (Hhttp & Hone & Htwo).
  split; [|split].
  - exact (Hhttp (symbolName_body (str "greetUser")) greetUser []
                 eq_refl eq_refl eq_refl).
  - exact (Hone {| sl_uri := sample_uri;
                   sl_position := {| line := 3; character := 9 |} |}
                eq_refl eq_refl).
  - exact (Htwo {| sl_uri := sample_uri;
                   sl_position := {| line := 3; character := 9 |} |}
                eq_refl eq_refl).
Defined.

(** ** C10.  Every result the pipe handler (second revision) returns has
    a [references] array and a [totalReferences] number equal to the
    length of that array; this includes the result for a symbol without
    references, where both are empty and 0. *)
Theorem totalReferences_counts_references
    (ws : Workspace) (e : Engine) (symbolName : option jsstring)
    (result : json) :
  outcome e (PipeServerScoped.handleFindReferences ws symbolName)
  = Fulfilled result ->
  exists references : list json,
    prop (str "references") result = Some (JArray references)
    /\ prop (str "totalReferences") result
       = Some (JNumber (Z.of_nat (length references))).
Proof.
  destruct symbolName as [[|c name]|]; try discriminate.
  cbn [PipeServerScoped.handleFindReferences]. rewrite outcome_bind.
  destruct (outcome e (PipeServerScoped.findSymbolLocation ws (c :: name)))
    as [[l|]|m]; try discriminate.
  unfold PipeServerScoped.aggregate. rewrite outcome_await.
  destruct (e (executeReferenceProvider (sl_uri l) (sl_position l)))
    as [references|m]; [|discriminate].
  intros [= <-].
  exists (map reference_json (listed references)). split.
  - destruct references; reflexivity.
  - rewrite length_map. destruct references; reflexivity.
Qed.

Lemma totalReferences_counts_references_witness :
  exists result references,
    outcome (index_engine (Some [greetUser]) (Some greetUser_references))
            (PipeServerScoped.handleFindReferences bare_workspace
               (Some (str "greetUser")))
    = Fulfilled result
    /\ prop (str "references") result = Some (JArray references)
    /\ prop (str "totalReferences") result = Some (JNumber 7).
Proof.
  eexists.
  destruct (totalReferences_counts_references bare_workspace
              (index_engine (Some [greetUser]) (Some greetUser_references))
              (Some (str "greetUser")) _ eq_refl) as (references & Hr & Ht).
  exists references. split; [reflexivity|]. split; [exact Hr|].
  rewrite Ht. cbv in Hr. injection Hr as <-. reflexivity.
Defined.

(** The first revision of the pipe handler and the HTTP route leave
    [totalReferences] out when the engine reports no reference. *)
Remark earlier_handlers_omit_the_count_when_empty :
  let e := index_engine (Some [greetUser]) (Some []) in
  (exists result,
      outcome e (PipeServer.handleFindReferences bare_workspace
                   (Some (str "greetUser"))) = Fulfilled result
      /\ prop (str "references") result = Some (JArray [])
      /\ prop (str "totalReferences") result = None)
  /\ (exists answer,
         snd (HttpServer.app bare_workspace e
                (post "/api/findReferences"
                      (symbolName_body (str "greetUser"))))
         = HttpServer.send 200 answer
         /\ prop (str "references") answer = Some (JArray [])
         /\ prop (str "totalReferences") answer = None).
Proof.
  split; eexists; (split; [cbv; reflexivity|split; reflexivity]).
Qed.

End ReferenceTheorems.

(** ** The routes of the HTTP server *)

Module RoutingTheorems.
Import JS Json VSCode Fixture.

(** The body of the documented request:
    [{uri, position: {line: 3, character: 9}}]. *)
Definition references_body : json :=
  JObject [(str "uri", JString (uri_toString sample_uri));
           (str "position",
            position_json {| line := 3; character := 9 |})].

(** ** C5.  [startServer] registers [GET /api/health] and
    [POST /api/findReferences] only.  A POST to
    [/api/textDocument/references] reaches no handler: whatever JSON body
    it carries, the well-formed [{uri, position}] included, no engine
    command is issued and the answer is Express's 404, not 200 with
    [{references}]. *)
Theorem textDocument_references_is_not_routed
    (ws : Workspace) (e : Engine) (body : json) :
  HttpServer.app ws e (post "/api/textDocument/references" body)
  = ([], HttpServer.express_answer 404)
  /\ HttpServer.app ws e (post "/api/textDocument/references" references_body)
     = ([], {| HttpServer.status := 404; HttpServer.body := None |}).
Proof. split; reflexivity. Qed.

End RoutingTheorems.

(** ** Symbol resolution, stage 1: the workspace symbol index *)

Module IndexStageTheorems.
Import JS Json VSCode AsyncFacts JSFacts Fixture.
Local Open Scope async_scope.

Definition location_of (s : SymbolInformation) : SymbolLocation :=
  {| sl_uri := loc_uri (si_location s);
     sl_position := range_start (loc_range (si_location s)) |}.

Definition named (symbolName : jsstring) (s : SymbolInformation) : bool :=
  jsstring_eqb (si_name s) symbolName.

Definition results (symbols : option (list SymbolInformation))
  : list SymbolInformation :=
  match symbols with
  | Some l => l
  | None => []
  end.

Lemma exact_match_find (symbols : option (list SymbolInformation))
    (symbolName : jsstring) :
  PipeServer.exact_match symbols symbolName
  = option_map location_of (find (named symbolName) (results symbols)).
Proof.
  destruct symbols as [[|s l]|]; reflexivity.
Qed.

Lemma find_none_iff (symbolName : jsstring) (l : list SymbolInformation) :
  find (named symbolName) l = None
  <-> (forall s, In s l -> si_name s <> symbolName).
Proof.
  split.
  - intros H s Hin E. apply (find_none _ _ H) in Hin.
    unfold named in Hin. rewrite E, jsstring_eqb_refl in Hin. discriminate.
  - intros H. induction l as [|s l IH]; [reflexivity|].
    cbn [find]. unfold named at 1.
    rewrite jsstring_eqb_neq by (apply H; left; reflexivity).
    apply IH. intros s' Hs'. apply H. right. exact Hs'.
Qed.

Lemma resolve_eq (ws : Workspace) (e : Engine) (symbolName : jsstring)
    (symbols : option (list SymbolInformation)) :
  e (executeWorkspaceSymbolProvider symbolName) = Fulfilled symbols ->
  run e (PipeServer.resolve ws symbolName)
  = match find (named symbolName) (results symbols) with
    | Some s => ([executeWorkspaceSymbolProvider symbolName],
                 Fulfilled (Some (location_of s)))
    | None =>
        (executeWorkspaceSymbolProvider symbolName
           :: trace e (PipeServer.findSymbolInDocuments ws symbolName),
         outcome e (PipeServer.findSymbolInDocuments ws symbolName))
    end.
Proof.
  intros He. unfold PipeServer.resolve.
  rewrite run_await, He, exact_match_find.
  destruct (find _ _); cbn [option_map]; [reflexivity|].
  rewrite (run_pair _ e (PipeServer.findSymbolInDocuments ws symbolName)).
  reflexivity.
Qed.

Lemma findSymbolLocation_eq (ws : Workspace) (e : Engine)
    (symbolName : jsstring) (symbols : option (list SymbolInformation)) :
  e (executeWorkspaceSymbolProvider symbolName) = Fulfilled symbols ->
  run e (PipeServerScoped.findSymbolLocation ws symbolName)
  = match find (named symbolName) (results symbols) with
    | Some s => ([executeWorkspaceSymbolProvider symbolName],
                 Fulfilled (Some (location_of s)))
    | None =>
        (executeWorkspaceSymbolProvider symbolName
           :: trace e (PipeServerScoped.scan_documents ws
                         (textDocuments ws) symbolName),
         outcome e (PipeServerScoped.scan_documents ws
                      (textDocuments ws) symbolName))
    end.
Proof.
  intros He. unfold PipeServerScoped.findSymbolLocation.
  rewrite run_await, He.
  replace (match symbols with
           | Some symbols0 =>
               find (fun s => jsstring_eqb (si_name s) symbolName) symbols0
           | None => None
           end) with (find (named symbolName) (results symbols))
    by (destruct symbols; reflexivity).
  destruct (find _ _); [reflexivity|].
  rewrite (run_pair _ e (PipeServerScoped.scan_documents ws _ _)).
  reflexivity.
Qed.

(** Both pipe revisions at stage 1.  With the index results [symbols]:
    if some result bears exactly the name asked for, the resolver returns
    the declaration start of the first such result at once, after the one
    index query; if none does, no result of the index is used, however
    close its name, and the resolver's answer is the answer of the
    document scan. *)
Lemma pipe_index_stage_is_exact
    (ws : Workspace) (e : Engine) (symbolName : jsstring)
    (symbols : option (list SymbolInformation)) :
  e (executeWorkspaceSymbolProvider symbolName) = Fulfilled symbols ->
  (forall s, find (named symbolName) (results symbols) = Some s ->
     si_name s = symbolName /\ In s (results symbols)
     /\ run e (PipeServer.resolve ws symbolName)
        = ([executeWorkspaceSymbolProvider symbolName],
           Fulfilled (Some (location_of s)))
     /\ run e (PipeServerScoped.findSymbolLocation ws symbolName)
        = ([executeWorkspaceSymbolProvider symbolName],
           Fulfilled (Some (location_of s))))
  /\ ((forall s, In s (results symbols) -> si_name s <> symbolName) ->
      run e (PipeServer.resolve ws symbolName)
      = (executeWorkspaceSymbolProvider symbolName
           :: trace e (PipeServer.findSymbolInDocuments ws symbolName),
         outcome e (PipeServer.findSymbolInDocuments ws symbolName))
      /\ run e (PipeServerScoped.findSymbolLocation ws symbolName)
         = (executeWorkspaceSymbolProvider symbolName
              :: trace e (PipeServerScoped.scan_documents ws
                            (textDocuments ws) symbolName),
            outcome e (PipeServerScoped.scan_documents ws
                         (textDocuments ws) symbolName))).
Proof.
  intros He.
  rewrite (resolve_eq ws e _ _ He), (findSymbolLocation_eq ws e _ _ He).
  split.
  - intros s Hs. destruct (find_some _ _ Hs) as [Hin Hname].
    apply jsstring_eqb_eq in Hname. rewrite Hs. auto.
  - intros Hnone. apply find_none_iff in Hnone. rewrite Hnone. auto.
Qed.

(** ** C1, on the HTTP route.  The index is asked for [greet] and returns
    the one symbol [greetUser], which is not an exact match.  The route
    takes [symbols[0]] all the same: it asks for the references at the
    declaration of [greetUser] and answers 200 with
    [symbol.name = 'greetUser'].  On the same engine both pipe handlers
    accept nothing from the index and end with the not-found error. *)
Theorem http_route_accepts_inexact_index_result :
  let e := index_engine (Some [greetUser]) (Some []) in
  let name := str "greet" in
  si_name greetUser <> name
  /\ HttpServer.app bare_workspace e
       (post "/api/findReferences" (symbolName_body name))
     = ([executeWorkspaceSymbolProvider name;
         executeReferenceProvider sample_uri {| line := 3; character := 9 |}],
        HttpServer.send 200
          (JObject
             [(str "symbol", HttpServer.symbol_json greetUser);
              (str "references", JArray []);
              (str "message",
               JString (str "Symbol found but no references"))]))
  /\ prop (str "name") (HttpServer.symbol_json greetUser)
     = Some (JString (str "greetUser"))
  /\ run e (PipeServer.handleFindReferences bare_workspace (Some name))
     = ([executeWorkspaceSymbolProvider name],
        Rejected (PipeServer.not_found_message name))
  /\ run e (PipeServerScoped.handleFindReferences bare_workspace (Some name))
     = ([executeWorkspaceSymbolProvider name],
        Rejected (PipeServerScoped.not_found_message name)).
Proof.
  cbv zeta. split; [discriminate|]. repeat split; reflexivity.
Qed.

End IndexStageTheorems.

(** ** Symbol resolution, stage 2: the scan of the open documents *)


Module DocumentScanTheorems.
Import JS Json VSCode AsyncFacts JSFacts Fixture ResolverSpec
       IndexStageTheorems.
Local Open Scope async_scope.

(** *** The regular expression is the literal name between two [\b] *)

Lemma compile_escaped (s rest : jsstring) :
  compile (escapeRegExp s ++ rest)
  = option_map (app (map Literal s)) (compile rest).
Proof.
  induction s as [|c s IH].
  { cbn [escapeRegExp flat_map app map].
    destruct (compile rest); reflexivity. }
  cbn [escapeRegExp flat_map]. fold (escapeRegExp s).
  destruct (is_syntax_character c) eqn:Hc.
  - cbn [app compile].
    assert (c <> 98) by (intros ->; discriminate).
    replace (c =? 98) with false by lia.
    rewrite Hc, IH. destruct (compile rest); reflexivity.
  - cbn [app compile].
    assert (c <> 92) by (intros ->; discriminate).
    replace (c =? 92) with false by lia.
    rewrite Hc, IH. destruct (compile rest); reflexivity.
Qed.

Lemma symbol_regex_literal (symbolName : jsstring) :
  symbol_regex symbolName
  = WordBoundary :: map Literal symbolName ++ [WordBoundary].
Proof.
  unfold symbol_regex, symbol_pattern.
  change ([92; 98] ++ ?x) with (92 :: 98 :: x). cbn [compile].
  change (92 =? 92) with true. change (98 =? 98) with true. cbv iota.
  rewrite compile_escaped. reflexivity.
Qed.

Lemma nth_error_skipn (text : jsstring) (i : nat) :
  nth_error text i = hd_error (skipn i text).
Proof.
  revert text; induction i as [|i IH]; intros [|c text]; try reflexivity.
  apply IH.
Qed.

Lemma match_literals (name : jsstring) (rest : list atom) (text : jsstring)
    (i : nat) :
  match_at (map Literal name ++ rest) text i
  = if starts_with name (skipn i text)
    then match_at rest text (i + length name)
    else None.
Proof.
  revert i; induction name as [|c name IH]; intros i.
  - cbn [map app starts_with length]. rewrite Nat.add_0_r. reflexivity.
  - cbn [map app match_at]. rewrite nth_error_skipn.
    destruct (skipn i text) as [|d tl] eqn:Es; [reflexivity|].
    cbn [hd_error starts_with].
    destruct (c =? d); [|reflexivity]. cbn [andb].
    rewrite IH. replace (skipn (S i) text) with tl.
    + cbn [length]. rewrite Nat.add_succ_r. reflexivity.
    + change (S i) with (1 + i)%nat. rewrite <- skipn_skipn, Es. reflexivity.
Qed.

Definition boundary (text : jsstring) (i : nat) : bool :=
  xorb (is_word_at text (before i)) (is_word_at text (Some i)).

(** A match at [i] is an occurrence of the name itself at [i], with a
    word boundary on each side; it ends after the name. *)
Lemma symbol_regex_match (symbolName text : jsstring) (i : nat) :
  match_at (symbol_regex symbolName) text i
  = if boundary text i && starts_with symbolName (skipn i text)
       && boundary text (i + length symbolName)
    then Some (i + length symbolName)%nat else None.
Proof.
  rewrite symbol_regex_literal. cbn [match_at]. fold (boundary text i).
  destruct (boundary text i); [|reflexivity]. cbn [andb].
  rewrite match_literals.
  destruct (starts_with symbolName (skipn i text)); [|reflexivity].
  cbn [andb match_at]. fold (boundary text (i + length symbolName)).
  destruct (boundary text (i + length symbolName)); reflexivity.
Qed.

Lemma exec_from_some (atoms : list atom) (text : jsstring)
    (from index stop : nat) :
  exec_from atoms text from = Some (index, stop) ->
  (from <= index)%nat /\ match_at atoms text index = Some stop.
Proof.
  unfold exec_from.
  destruct (find _ _) as [i|] eqn:Ef; [|discriminate].
  apply find_some in Ef. destruct Ef as [Hin _]. apply in_seq in Hin.
  destruct (match_at atoms text i) as [j|] eqn:Em; [|discriminate].
  cbn [option_map]. intros [= <- <-]. split; [lia|exact Em].
Qed.

Lemma exec_from_beyond (atoms : list atom) (text : jsstring) (from : nat) :
  (S (length text) <= from)%nat -> exec_from atoms text from = None.
Proof.
  intros H. unfold exec_from.
  replace (S (length text) - from)%nat with 0%nat by lia. reflexivity.
Qed.

(** For a name that is not empty every match is at least one character
    long, so the number of turns given to the [while] loop over the
    matches is never exhausted: more turns give the same matches. *)
Lemma exec_all_enough (symbolName text : jsstring) :
  symbolName <> [] ->
  forall fuel fuel' from : nat,
    (S (length text) <= fuel + from)%nat -> (fuel <= fuel')%nat ->
    exec_all fuel (symbol_regex symbolName) text from
    = exec_all fuel' (symbol_regex symbolName) text from.
Proof.
  intros Hne fuel.
  induction fuel as [|fuel IH]; intros fuel' from Hfuel Hle.
  - destruct fuel' as [|fuel']; [reflexivity|].
    cbn [exec_all]. rewrite exec_from_beyond by lia. reflexivity.
  - destruct fuel' as [|fuel']; [lia|]. cbn [exec_all].
    destruct (exec_from (symbol_regex symbolName) text from)
      as [[index stop]|] eqn:Ee; [|reflexivity].
    apply exec_from_some in Ee. destruct Ee as [Hfrom Hm].
    rewrite symbol_regex_match in Hm.
    destruct (_ && _ && _); [|discriminate]. injection Hm as <-.
    f_equal. apply IH; [|lia].
    destruct symbolName; [contradiction|cbn [length]; lia].
Qed.

(** *** The loops against their specification *)

Section Scan.
Variable e : Engine.
Hypothesis e_responsive : responsive e.
Variable symbolName : jsstring.

Lemma probe_matches_spec (d : TextDocument) (indices : list nat)
    (otherwise : Async (option SymbolLocation)) :
  outcome e (PipeServer.probe_matches d indices otherwise)
  = match find (fun index => hover_present e d (positionAt d index))
               indices with
    | Some index => Fulfilled (Some (in_document d (positionAt d index)))
    | None => outcome e otherwise
    end.
Proof.
  induction indices as [|index later IH]; [reflexivity|].
  cbn [PipeServer.probe_matches find]. rewrite outcome_await.
  unfold hover_present at 1.
  destruct (e_responsive
              (executeHoverProvider (doc_uri d) (positionAt d index)))
    as [r Hr].
  rewrite Hr. destruct r as [[|h hs]|]; try exact IH. reflexivity.
Qed.

Lemma first_revision_scan (documents : list TextDocument) :
  outcome e (PipeServer.scan_documents documents symbolName)
  = Fulfilled (scan_open_documents e symbolName documents).
Proof.
  unfold scan_open_documents.
  induction documents as [|d rest IH]; [reflexivity|].
  cbn [PipeServer.scan_documents filter]. fold (file_backed d).
  destruct (file_backed d); cbn [negb]; [|exact IH].
  cbn [first_yield]. rewrite outcome_await.
  unfold document_match at 1, tree_match, outline.
  destruct (e_responsive (executeDocumentSymbolProvider (doc_uri d)))
    as [r Hr].
  rewrite Hr.
  assert (Htext :
    outcome e
      (PipeServer.probe_matches d
         (exec_all (S (length (getText d))) (symbol_regex symbolName)
                   (getText d) 0)
         (PipeServer.scan_documents rest symbolName))
    = Fulfilled
        match first_hovered_match e symbolName d with
        | Some l => Some l
        | None =>
            first_yield (document_match e symbolName
                           (first_hovered_match e symbolName))
                        (filter file_backed rest)
        end).
  { rewrite probe_matches_spec, IH.
    unfold first_hovered_match, text_matches.
    destruct (find _ _); reflexivity. }
  destruct r as [symbols|].
  - destruct (findSymbolInTree symbols symbolName); [reflexivity|].
    exact Htext.
  - exact Htext.
Qed.

Lemma second_revision_scan (ws : Workspace) (documents : list TextDocument) :
  outcome e (PipeServerScoped.scan_documents ws documents symbolName)
  = Fulfilled (scan_workspace_documents e symbolName ws documents).
Proof.
  unfold scan_workspace_documents.
  induction documents as [|d rest IH]; [reflexivity|].
  cbn [PipeServerScoped.scan_documents filter]. fold (file_backed d).
  destruct (file_backed d); cbn [negb andb]; [|exact IH].
  destruct (getWorkspaceFolder ws (doc_uri d)); [|exact IH].
  cbn [first_yield]. rewrite outcome_await.
  unfold document_match at 1, tree_match, outline.
  destruct (e_responsive (executeDocumentSymbolProvider (doc_uri d)))
    as [r Hr].
  rewrite Hr.
  replace (findSymbolInTree
             match r with Some symbols => symbols | None => [] end symbolName)
    with (findSymbolInTree
            match @Fulfilled (option (list DocumentSymbol)) r with
            | Fulfilled (Some symbols) => symbols
            | _ => []
            end symbolName) by (destruct r; reflexivity).
  destruct (findSymbolInTree _ symbolName); [reflexivity|].
  cbn [option_map]. unfold first_match_if_hovered.
  destruct (exec_from (symbol_regex symbolName) (getText d) 0)
    as [[index stop]|]; [|exact IH].
  rewrite outcome_await. unfold hover_present.
  destruct (e_responsive
              (executeHoverProvider (doc_uri d) (positionAt d index)))
    as [h Hh].
  rewrite Hh. destruct h as [[|h hs]|]; try exact IH. reflexivity.
Qed.

End Scan.

(** ** C4, as the code has it.  When no index result bears the exact
    name, the answer of the resolver is the answer of the document scan.
    First revision ([findSymbolInDocuments]): every open document except
    the ones that are not file-backed, in order; in each, the symbol tree
    first (nested children included, declaration start of the symbol
    found), and only if that fails the successive word-boundary matches
    of the literal name, the first one with hover information; [null]
    when no document yields.  Second revision ([findSymbolLocation]): the
    same, except that a document outside every workspace folder is
    skipped too, and that only the first text match of a document is
    probed for hover information.  In both, the regular expression is the
    name itself, character for character, between two word boundaries. *)
Theorem document_scan_by_revision
    (ws : Workspace) (e : Engine) (symbolName : jsstring)
    (symbols : option (list SymbolInformation)) :
  responsive e ->
  e (executeWorkspaceSymbolProvider symbolName) = Fulfilled symbols ->
  (forall s, In s (results symbols) -> si_name s <> symbolName) ->
  outcome e (PipeServer.resolve ws symbolName)
  = Fulfilled (scan_open_documents e symbolName (textDocuments ws))
  /\ outcome e (PipeServerScoped.findSymbolLocation ws symbolName)
     = Fulfilled
         (scan_workspace_documents e symbolName ws (textDocuments ws))
  /\ symbol_regex symbolName
     = WordBoundary :: map Literal symbolName ++ [WordBoundary].
Proof.
  intros Hresp He Hnone.
  destruct (pipe_index_stage_is_exact ws e symbolName symbols He)
    as [_ Hscan].
  destruct (Hscan Hnone) as [Hone Htwo].
  split; [|split].
  - unfold outcome at 1. rewrite Hone. cbn [snd].
    apply first_revision_scan, Hresp.
  - unfold outcome at 1. rewrite Htwo. cbn [snd].
    apply second_revision_scan, Hresp.
  - apply symbol_regex_literal.
Qed.

Lemma scan_engine_responsive : responsive scan_engine.
Proof.
  intros [q|u p|u|u p]; cbn.
  - eexists; reflexivity.
  - eexists; reflexivity.
  - destruct (jsstring_eqb _ _); eexists; reflexivity.
  - destruct (character p =? 24)%nat; eexists; reflexivity.
Qed.

(** ** C4, as stated, fails on the second revision.  [greet.d.ts] is open
    and file-backed and its symbol tree holds [greetUser], but it lies
    outside the workspace folders: [scan_open_documents] finds the
    declaration, [findSymbolLocation] skips the document and reports
    nothing.  [use.ts] lies inside; its first text match is in a comment,
    without hover information, its second one has it:
    [scan_open_documents] returns the second, [findSymbolLocation] probes
    the first only and reports nothing. *)
Lemma second_revision_scans_less :
  let name := str "greetUser" in
  (file_backed vendored = true
   /\ scan_open_documents scan_engine name [vendored]
      = Some (in_document vendored {| line := 0; character := 17 |})
   /\ run scan_engine
          (PipeServerScoped.findSymbolLocation (workspace_with [vendored])
             name)
      = ([executeWorkspaceSymbolProvider name], Fulfilled None))
  /\ (text_matches name commented = [3; 24]%nat
      /\ scan_open_documents scan_engine name [commented]
         = Some (in_document commented {| line := 0; character := 24 |})
      /\ outcome scan_engine
            (PipeServerScoped.findSymbolLocation (workspace_with [commented])
               name)
         = Fulfilled None).
Proof. vm_compute. repeat split; reflexivity. Qed.

Lemma document_scan_by_revision_witness :
  let name := str "greetUser" in
  outcome scan_engine
    (PipeServer.resolve (workspace_with [vendored; commented]) name)
  = Fulfilled (Some (in_document vendored {| line := 0; character := 17 |}))
  /\ outcome scan_engine
       (PipeServerScoped.findSymbolLocation
          (workspace_with [vendored; commented]) name)
     = Fulfilled None.
Proof.
  cbv zeta.
  destruct (document_scan_by_revision (workspace_with [vendored; commented])
              scan_engine (str "greetUser") (Some [])
              scan_engine_responsive eq_refl
              (fun s (H : In s []) => match H with end))
    as (Hone & Htwo & _).
  rewrite Hone, Htwo. split; reflexivity.
Defined.

End DocumentScanTheorems.

(* ================================================================== *)
(** * Part III. Further properties of the code *)
(* ================================================================== *)

(** ** The framer beyond one ASCII frame *)

Module FramerExtras.
Import JS Json Framer JSFacts FramerFacts.

(** A header name that differs from [Content-Length: ] in letter case
    only. *)
Definition is_label (l : jsstring) : Prop :=
  map canonicalize l = map canonicalize content_length_label.

Lemma is_label_length (l : jsstring) :
  is_label l -> length l = length content_length_label.
Proof.
  intros H. apply (f_equal (@length Z)) in H.
  rewrite !length_map in H. exact H.
Qed.

Lemma canonicalize_cr (c : Z) : canonicalize c = 13 -> c = 13.
Proof.
  unfold canonicalize.
  destruct ((97 <=? c) && (c <=? 122)) eqn:E; [lia|auto].
Qed.

Lemma is_label_no_cr (l : jsstring) : is_label l -> ~ In 13 l.
Proof.
  intros H Hin. apply (in_map canonicalize) in Hin.
  rewrite H in Hin. cbv in Hin. intuition discriminate.
Qed.

Lemma starts_with_ci_same (p l rest : jsstring) :
  map canonicalize l = map canonicalize p ->
  starts_with_ci p (l ++ rest) = true.
Proof.
  revert l; induction p as [|x p IH]; intros [|y l] H;
    try discriminate; [reflexivity|].
  cbn [map] in H. injection H as Hxy Hrest.
  cbn [app starts_with_ci]. rewrite Hxy, Z.eqb_refl. apply IH, Hrest.
Qed.

Lemma match_content_length_any_case (l : jsstring) (n : nat) :
  is_label l -> match_content_length (l ++ decimal n) = Some (decimal n).
Proof.
  intros H. rewrite match_content_length_eq.
  rewrite (starts_with_ci_same _ _ _ H).
  rewrite <- (is_label_length _ H), skipn_app, skipn_all, Nat.sub_diag.
  cbn [skipn app]. rewrite take_digits_all by apply decimal_digits.
  pose proof (decimal_nonempty n) as Hne.
  destruct (decimal n) as [|d ds]; [contradiction|reflexivity].
Qed.

(** The step of the loop on a frame that announces [n] for a body of
    [n] characters, under any spelling of the header name. *)
Lemma processBuffer_counted (l content rest : jsstring) :
  is_label l ->
  processBuffer (l ++ decimal (length content) ++ CRLFCRLF ++ content ++ rest)
  = match processBuffer rest with
    | None => None
    | Some (messages, rest') => Some (content :: messages, rest')
    end.
Proof.
  intros Hl. rewrite processBuffer_unfold.
  set (h := l ++ decimal (length content)).
  replace (l ++ decimal (length content) ++ CRLFCRLF ++ content ++ rest)
    with (h ++ CRLFCRLF ++ content ++ rest)
    by (unfold h; rewrite <- app_assoc; reflexivity).
  assert (Hno : ~ In 13 h).
  { unfold h. intros Hin. apply in_app_or in Hin. destruct Hin as [Hin|Hin].
    - exact (is_label_no_cr _ Hl Hin).
    - exact (digits_no_cr _ (decimal_digits _) Hin). }
  assert (Hi : indexOf CRLFCRLF (h ++ CRLFCRLF ++ content ++ rest)
               = Some (length h))
    by (apply indexOf_after_no_cr, Hno).
  rewrite Hi, substring_prefix. unfold h at 1.
  rewrite (match_content_length_any_case _ _ Hl), parseInt_decimal.
  assert (Hlen : length (h ++ CRLFCRLF) = (length h + 4)%nat)
    by (rewrite length_app; reflexivity).
  rewrite <- Hlen, (app_assoc h CRLFCRLF).
  replace (_ <? _)%nat with false
    by (symmetry; apply Nat.ltb_ge; rewrite !length_app; lia).
  rewrite substring_middle.
  rewrite <- (length_app (h ++ CRLFCRLF) content).
  rewrite (app_assoc _ content rest), substring_from_app.
  reflexivity.
Qed.

Lemma content_length_label_is_label : is_label content_length_label.
Proof. reflexivity. Qed.

(** UTF-8 never takes fewer octets than the string has code units. *)
Lemma length_le_byteLength_aux (n : nat) :
  forall s : jsstring, (length s <= n)%nat -> (length s <= byteLength s)%nat.
Proof.
  assert (Hcp : forall cp, (1 <= length (utf8_of_code_point cp))%nat).
  { intros cp. unfold utf8_of_code_point.
    destruct (cp <? 0x80), (cp <? 0x800), (cp <? 0x10000); cbn; lia. }
  unfold byteLength.
  induction n as [|n IH]; intros [|c s] Hn; cbn [length] in *; try lia.
  cbn [utf8_encode].
  destruct (is_high_surrogate c) eqn:Hhi.
  - destruct s as [|d s]; [cbn; lia|].
    destruct (is_low_surrogate d) eqn:Hlo.
    + rewrite length_app. cbn [length] in *.
      specialize (IH s ltac:(lia)).
      unfold is_high_surrogate in Hhi. unfold is_low_surrogate in Hlo.
      assert (0 <= Z.shiftl (c - 0xD800) 10) by (apply Z.shiftl_nonneg; lia).
      unfold utf8_of_code_point.
      replace (_ <? 0x80) with false by lia.
      replace (_ <? 0x800) with false by lia.
      replace (_ <? 0x10000) with false by lia.
      cbn [length]. lia.
    + rewrite length_app.
      specialize (IH (d :: s) ltac:(cbn [length] in *; lia)).
      cbn [length replacement_utf8] in *. lia.
  - destruct (is_low_surrogate c); rewrite length_app;
      specialize (IH s ltac:(lia)).
    + cbn [length replacement_utf8]. lia.
    + specialize (Hcp c). lia.
Qed.

Lemma length_le_byteLength (s : jsstring) :
  (length s <= byteLength s)%nat.
Proof. apply (length_le_byteLength_aux (length s)). lia. Qed.

(** A frame of [sendRequest] whose body takes one octet a character. *)
Lemma processBuffer_frame_counted (content rest : jsstring) :
  byteLength content = length content ->
  processBuffer (frame content ++ rest)
  = match processBuffer rest with
    | None => None
    | Some (messages, rest') => Some (content :: messages, rest')
    end.
Proof.
  intros H. unfold frame. rewrite H, <- !app_assoc.
  apply processBuffer_counted, content_length_label_is_label.
Qed.

(** The stream of several frames written one after the other. *)
Definition stream (contents : list jsstring) : jsstring :=
  concat (map frame contents).

(** What the framer has made of the first [k] units of a stream: the
    bodies of the frames that are complete, and the cut frame. *)
Fixpoint split_at (contents : list jsstring) (k : nat)
  : list jsstring * jsstring :=
  match contents with
  | [] => ([], [])
  | c :: later =>
      if (k <? length (frame c))%nat then ([], firstn k (frame c))
      else let '(messages, rest) := split_at later (k - length (frame c)) in
           (c :: messages, rest)
  end.

Lemma processBuffer_prefix (contents : list jsstring) :
  Forall is_ascii contents ->
  forall k : nat,
    processBuffer (firstn k (stream contents)) = Some (split_at contents k).
Proof.
  induction 1 as [|c later Hc _ IH]; intros k.
  - cbn. rewrite firstn_nil. reflexivity.
  - unfold stream. cbn [map concat split_at]. fold (stream later).
    rewrite firstn_app.
    destruct (Nat.ltb_spec k (length (frame c))) as [Hlt|Hge].
    + replace (k - length (frame c))%nat with 0%nat by lia.
      cbn [firstn]. rewrite app_nil_r.
      apply processBuffer_partial; assumption.
    + rewrite firstn_all2 by lia.
      rewrite processBuffer_frame by exact Hc.
      rewrite IH. destruct (split_at later _). reflexivity.
Qed.

Lemma split_at_spec (contents : list jsstring) :
  forall k : nat,
    (k <= length (stream contents))%nat ->
    exists todo,
      contents = fst (split_at contents k) ++ todo
      /\ snd (split_at contents k) ++ skipn k (stream contents) = stream todo
      /\ match todo with
         | [] => snd (split_at contents k) = []
         | c :: _ => (length (snd (split_at contents k)) < length (frame c))%nat
         end.
Proof.
  induction contents as [|c later IH]; intros k Hk.
  - exists []. cbn. rewrite skipn_nil. auto.
  - unfold stream in *. cbn [map concat split_at] in *.
    fold (stream later) in *. rewrite length_app in Hk.
    destruct (Nat.ltb_spec k (length (frame c))) as [Hlt|Hge].
    + exists (c :: later). cbn [fst snd app]. split; [reflexivity|]. split.
      * rewrite skipn_app.
        replace (k - length (frame c))%nat with 0%nat by lia.
        cbn [skipn]. rewrite app_assoc, firstn_skipn. reflexivity.
      * rewrite length_firstn. lia.
    + destruct (IH (k - length (frame c))%nat ltac:(lia))
        as (todo & Hsplit & Hrest & Hcut).
      exists todo.
      destruct (split_at later (k - length (frame c))) as [messages rest].
      cbn [fst snd] in *. split; [cbn; f_equal; exact Hsplit|]. split.
      * rewrite skipn_app, skipn_all2 by lia. exact Hrest.
      * exact Hcut.
Qed.

Lemma stream_ascii (contents : list jsstring) :
  Forall is_ascii contents -> is_ascii (stream contents).
Proof.
  induction 1 as [|c later Hc _ IH]; [constructor|].
  unfold stream. cbn [map concat]. apply is_ascii_app.
  split; [apply frame_ascii, Hc|exact IH].
Qed.

Lemma receive_rest_of_stream (chunks : list JS.buffer) :
  forall (todo : list jsstring) (held : jsstring),
    Forall is_ascii todo ->
    held ++ concat chunks = stream todo ->
    match todo with
    | [] => held = []
    | c :: _ => (length held < length (frame c))%nat
    end ->
    receive held chunks = Some (todo, []).
Proof.
  induction chunks as [|data later IH]; intros todo held Hascii Hall Hcut.
  - cbn [concat] in Hall. rewrite app_nil_r in Hall.
    destruct todo as [|c todo]; [subst; reflexivity|].
    exfalso. apply (f_equal (@length Z)) in Hall.
    unfold stream in Hall. cbn [map concat] in Hall.
    rewrite length_app in Hall. lia.
  - cbn [concat] in Hall. cbn [receive]. unfold on_data.
    assert (Hdata : is_ascii data).
    { pose proof (stream_ascii _ Hascii) as Hs. rewrite <- Hall in Hs.
      apply is_ascii_app in Hs. destruct Hs as [_ Hs].
      apply is_ascii_app in Hs. tauto. }
    rewrite (toString_ascii _ Hdata).
    set (k := length (held ++ data)).
    assert (Hk : held ++ data = firstn k (stream todo)).
    { rewrite <- Hall, app_assoc. unfold k.
      rewrite firstn_app, Nat.sub_diag, firstn_all. cbn [firstn].
      rewrite app_nil_r. reflexivity. }
    assert (Hrest : concat later = skipn k (stream todo)).
    { rewrite <- Hall, app_assoc. unfold k.
      rewrite skipn_app, skipn_all, Nat.sub_diag. reflexivity. }
    assert (Hle : (k <= length (stream todo))%nat).
    { rewrite <- Hall, app_assoc, length_app. unfold k. lia. }
    rewrite Hk, (processBuffer_prefix _ Hascii).
    destruct (split_at_spec todo k Hle) as (todo' & Hsplit & Hjoin & Hcut').
    destruct (split_at todo k) as [messages rest]. cbn [fst snd] in *.
    assert (Hascii' : Forall is_ascii todo').
    { rewrite Hsplit in Hascii. apply Forall_app in Hascii. tauto. }
    rewrite <- Hrest in Hjoin.
    rewrite (IH todo' rest Hascii' Hjoin Hcut'), Hsplit. reflexivity.
Qed.

Definition single_byte (s : jsstring) : Prop := byteLength s = length s.

(** A header block that ends at its terminator and holds no
    [Content-Length: <digits>], in any letter case. *)
Definition is_junk (block : jsstring) : Prop :=
  indexOf CRLFCRLF (block ++ CRLFCRLF) = Some (length block)
  /\ match_content_length block = None.

Lemma junk_then (blocks : list jsstring) (rest : jsstring) :
  Forall is_junk blocks ->
  processBuffer (concat (map (fun b => b ++ CRLFCRLF) blocks) ++ rest)
  = processBuffer rest.
Proof.
  induction 1 as [|b bs [Hi Hm] _ IH]; [reflexivity|].
  cbn [map concat]. rewrite <- !app_assoc.
  rewrite processBuffer_skip by assumption. exact IH.
Qed.

Lemma frames_counted (contents : list jsstring) :
  Forall single_byte contents ->
  processBuffer (stream contents) = Some (contents, []).
Proof.
  induction 1 as [|c cs Hc _ IH]; [reflexivity|].
  unfold stream. cbn [map concat]. fold (stream cs).
  rewrite processBuffer_frame_counted by exact Hc.
  rewrite IH. reflexivity.
Qed.

Lemma conserved (n : nat) :
  forall buffer : jsstring,
    (length buffer < n)%nat ->
    exists messages rest consumed,
      processBuffer buffer = Some (messages, rest)
      /\ buffer = consumed ++ rest
      /\ (length (concat messages) + length rest <= length buffer)%nat.
Proof.
  induction n as [|n IH]; intros buffer Hn; [lia|].
  rewrite processBuffer_unfold.
  destruct (indexOf CRLFCRLF buffer) as [headerEnd|] eqn:Ei.
  2:{ exists [], buffer, []. cbn. repeat split; lia. }
  apply indexOf_bound in Ei. cbn [length CRLFCRLF] in Ei.
  assert (Hcut : forall k, (headerEnd + 4 <= k)%nat ->
            exists messages rest consumed,
              processBuffer (substring_from k buffer) = Some (messages, rest)
              /\ buffer = consumed ++ rest
              /\ (length (concat messages) + length rest
                  <= length buffer - k)%nat).
  { intros k Hk. unfold substring_from.
    destruct (IH (skipn k buffer)) as (ms & r & p & Hp & Hsplit & Hlen).
    - rewrite length_skipn. lia.
    - exists ms, r, (firstn k buffer ++ p). split; [exact Hp|]. split.
      + rewrite <- app_assoc, <- Hsplit, firstn_skipn. reflexivity.
      + rewrite length_skipn in Hlen. exact Hlen. }
  destruct (match_content_length (substring 0 headerEnd buffer)) as [ds|].
  - destruct (Nat.ltb_spec (length buffer) (headerEnd + 4 + parseInt ds))
      as [Hshort|Hfull].
    + exists [], buffer, []. cbn. repeat split; lia.
    + destruct (Hcut (headerEnd + 4 + parseInt ds)%nat ltac:(lia))
        as (ms & r & p & Hp & Hsplit & Hlen).
      rewrite Hp.
      exists (substring (headerEnd + 4) (headerEnd + 4 + parseInt ds) buffer
              :: ms), r, p.
      split; [reflexivity|]. split; [exact Hsplit|].
      cbn [concat]. rewrite length_app. unfold substring.
      rewrite length_firstn. lia.
  - destruct (Hcut (headerEnd + 4)%nat ltac:(lia))
      as (ms & r & p & Hp & Hsplit & Hlen).
    exists ms, r, p. split; [exact Hp|]. split; [exact Hsplit|lia].
Qed.

(** ** X1.  Fragmentation and pipelining together.  Any number of frames
    with ASCII bodies, each written to the socket as [sendRequest] writes
    its own, and the octets delivered in ['data'] events cut anywhere: the
    framer hands every body to [JSON.parse], in the order sent, each once,
    and ends with an empty buffer. *)
Theorem pipelined_frames_survive_any_chunking
    (contents : list jsstring) (chunks : list JS.buffer) :
  Forall is_ascii contents ->
  concat chunks = concat (map (fun c => utf8_encode (frame c)) contents) ->
  receive [] chunks = Some (contents, []).
Proof.
  intros Hascii Hchunks.
  apply receive_rest_of_stream; [exact Hascii| |].
  - cbn [app]. rewrite Hchunks. unfold stream. f_equal.
    apply map_ext_in. intros c Hc. apply utf8_encode_ascii, frame_ascii.
    rewrite Forall_forall in Hascii. apply Hascii, Hc.
  - destruct contents as [|c cs]; [reflexivity|].
    unfold frame. rewrite !length_app. cbn. lia.
Qed.

Lemma pipelined_frames_survive_any_chunking_witness :
  receive [] [str "Content-Length: 2"; [13; 10; 13]; [10; 123];
              [125] ++ str "Content-Length: 4" ++ CRLFCRLF ++ str "null"]
  = Some ([str "{}"; str "null"], []).
Proof.
  apply (pipelined_frames_survive_any_chunking [str "{}"; str "null"]).
  - repeat constructor; unfold is_ascii_unit; lia.
  - reflexivity.
Defined.

(** ** X2.  A frame alone in the buffer is decoded exactly when its body
    has as many UTF-8 octets as UTF-16 code units, that is, when the
    length [sendRequest] announces is the length [processBuffer]
    measures; otherwise nothing is decoded and the frame stays. *)
Theorem lone_frame_decoded_iff_lengths_agree (content : jsstring) :
  processBuffer (frame content)
  = if (byteLength content =? length content)%nat
    then Some ([content], [])
    else Some ([], frame content).
Proof.
  destruct (Nat.eqb_spec (byteLength content) (length content)) as [E|N].
  - rewrite <- (app_nil_r (frame content)).
    rewrite processBuffer_frame_counted by exact E. reflexivity.
  - apply FramerTheorems.frame_alone_stalls.
    pose proof (length_le_byteLength content). lia.
Qed.

(** ** X3.  Any number of header blocks without a usable
    [Content-Length], each ending at its own terminator, are dropped one
    after the other, and all the frames that follow in the same buffer
    are extracted by the same call, provided each body takes one octet a
    character. *)
Theorem junk_blocks_are_skipped
    (blocks contents : list jsstring) :
  Forall is_junk blocks ->
  Forall single_byte contents ->
  processBuffer (concat (map (fun b => b ++ CRLFCRLF) blocks)
                 ++ stream contents)
  = Some (contents, []).
Proof.
  intros Hj Hc. rewrite junk_then by exact Hj. apply frames_counted, Hc.
Qed.

Lemma junk_blocks_are_skipped_witness :
  processBuffer
    (concat (map (fun b => b ++ CRLFCRLF)
                 [str "X-Junk: 1"; str "Content-Length: none"; []])
     ++ stream [str "{}"; []])
  = Some ([str "{}"; []], []).
Proof.
  apply junk_blocks_are_skipped.
  - repeat constructor.
  - repeat constructor.
Defined.

(** ** X4.  [processBuffer] returns on every buffer, and it only
    consumes: what it leaves in [this.buffer] is a suffix of what it
    found, and the bodies it handed out together with that rest are no
    longer than the buffer was. *)
Theorem processBuffer_only_consumes (buffer : jsstring) :
  exists messages rest consumed,
    processBuffer buffer = Some (messages, rest)
    /\ buffer = consumed ++ rest
    /\ (length (concat messages) + length rest <= length buffer)%nat.
Proof. apply (conserved (S (length buffer))). lia. Qed.

(** ** X5.  The header name is matched in any letter case, and the
    number is read as a count of characters: a frame whose header, in
    whatever case, announces the number of UTF-16 code units of its body
    is decoded, whatever the body contains, and the loop goes on with
    what follows. *)
Theorem header_name_in_any_case (l content rest : jsstring) :
  is_label l ->
  processBuffer (l ++ decimal (length content) ++ CRLFCRLF ++ content ++ rest)
  = match processBuffer rest with
    | None => None
    | Some (messages, rest') => Some (content :: messages, rest')
    end.
Proof. apply processBuffer_counted. Qed.

Lemma header_name_in_any_case_witness :
  processBuffer (str "CONTENT-length: " ++ decimal 1 ++ CRLFCRLF
                 ++ [233] ++ str "tail")
  = Some ([[233]], str "tail").
Proof.
  exact (header_name_in_any_case (str "CONTENT-length: ") [233] (str "tail")
           eq_refl).
Defined.

End FramerExtras.

(** ** The standalone client keeps its requests *)

Module ClientExtras.
Import JS Json Framer Client.

(** The pending ids and the ids settled so far: no id twice, none in
    both, all of them among the ids issued. *)
Definition well_kept (c : client) (settled : list nat) : Prop :=
  NoDup (pendingRequests c) /\ NoDup settled
  /\ (forall id, In id (pendingRequests c) -> ~ In id settled)
  /\ (forall id, In id (pendingRequests c) \/ In id settled ->
                 (1 <= id <= messageId c)%nat).

Lemma existsb_in (id : nat) (l : list nat) :
  existsb (Nat.eqb id) l = true <-> In id l.
Proof.
  rewrite existsb_exists. split.
  - intros (x & Hx & E). apply Nat.eqb_eq in E. subst. exact Hx.
  - intros H. exists id. split; [exact H|apply Nat.eqb_refl].
Qed.

Lemma in_delete (id k : nat) (l : list nat) :
  In k (delete id l) <-> In k l /\ k <> id.
Proof.
  unfold delete. rewrite filter_In, negb_true_iff, Nat.eqb_neq. tauto.
Qed.

(** Settling a pending id keeps the books. *)
Lemma settle_kept (c : client) (settled : list nat) (id : nat) (b : jsstring) :
  well_kept c settled -> In id (pendingRequests c) ->
  well_kept {| messageId := messageId c;
               pendingRequests := delete id (pendingRequests c);
               buffer := b |} (settled ++ [id]).
Proof.
  intros (Hp & Hs & Hd & Hb) Hin. unfold well_kept.
  cbn [pendingRequests messageId]. repeat split.
  - apply NoDup_filter, Hp.
  - apply NoDup_app; [exact Hs|repeat constructor; intros []|].
    intros k Hk [<-|[]]. exact (Hd _ Hin Hk).
  - intros k Hk Hk'. apply in_delete in Hk. destruct Hk as [Hk Hne].
    apply in_app_or in Hk'. destruct Hk' as [Hk'|[E|[]]].
    + exact (Hd _ Hk Hk').
    + congruence.
  - destruct H as [H|H].
    + apply in_delete in H. apply Hb. tauto.
    + apply in_app_or in H. destruct H as [H|[<-|[]]]; apply Hb; auto.
  - destruct H as [H|H].
    + apply in_delete in H. apply Hb. tauto.
    + apply in_app_or in H. destruct H as [H|[<-|[]]]; apply Hb; auto.
Qed.

Lemma has_in (pending : list nat) (key : json) (id : nat) :
  has pending key = Some id ->
  In id pending /\ key = JNumber (Z.of_nat id).
Proof.
  destruct key; try discriminate. cbn [has]. intros H.
  apply find_some in H. destruct H as [Hin E].
  apply Z.eqb_eq in E. subst. auto.
Qed.

(** What one message does to the books. *)
Lemma dispatch_kept (c : client) (settled : list nat) (message : json) :
  well_kept c settled ->
  well_kept (fst (dispatch c message))
            (settled ++ match snd (dispatch c message) with
                        | Some s => [settled_id s]
                        | None => []
                        end)
  /\ messageId (fst (dispatch c message)) = messageId c
  /\ buffer (fst (dispatch c message)) = buffer c.
Proof.
  intros Hk. unfold dispatch.
  destruct (truthy (prop (str "id") message));
    [|cbn; rewrite app_nil_r; auto].
  destruct (match prop (str "id") message with
            | Some key => has (pendingRequests c) key
            | None => None
            end) as [id|] eqn:Eh; [|cbn; rewrite app_nil_r; auto].
  assert (Hin : In id (pendingRequests c)).
  { destruct (prop (str "id") message); [|discriminate].
    apply has_in in Eh. tauto. }
  destruct (truthy (prop (str "error") message)); cbn [fst snd settled_id];
    (split; [apply settle_kept; assumption|split; reflexivity]).
Qed.

Lemma dispatch_kept_buffer (c : client) (message : json) :
  buffer (fst (dispatch c message)) = buffer c
  /\ messageId (fst (dispatch c message)) = messageId c.
Proof.
  unfold dispatch.
  destruct (truthy (prop (str "id") message)); [|auto].
  destruct (match prop (str "id") message with
            | Some key => has (pendingRequests c) key
            | None => None
            end); [|auto].
  destruct (truthy (prop (str "error") message)); auto.
Qed.

Section WithParser.
Variable JSON_parse : jsstring -> option json.

Lemma handle_texts_kept (texts : list jsstring) :
  forall (c : client) (settled : list nat),
    well_kept c settled ->
    well_kept (fst (handle_texts JSON_parse c texts))
              (settled
               ++ map settled_id (snd (handle_texts JSON_parse c texts)))
    /\ messageId (fst (handle_texts JSON_parse c texts)) = messageId c.
Proof.
  induction texts as [|t later IH]; intros c settled Hk.
  - cbn. rewrite app_nil_r. auto.
  - cbn [handle_texts]. unfold handle_text.
    destruct (JSON_parse t) as [message|].
    + destruct (dispatch_kept c settled message Hk) as (Hk' & Hid & _).
      destruct (dispatch c message) as [c' s]. cbn [fst snd] in *.
      destruct (IH c' _ Hk') as [Hk'' Hid'].
      destruct (handle_texts JSON_parse c' later) as [c'' ss].
      simpl fst in *. simpl snd in *. split; [|congruence].
      destruct s as [s|]; cbn [map].
      * rewrite <- app_assoc in Hk''. exact Hk''.
      * rewrite app_nil_r in Hk''. exact Hk''.
    + destruct (IH c settled Hk) as [Hk'' Hid'].
      destruct (handle_texts JSON_parse c later) as [c'' ss].
      cbn [fst snd] in *. auto.
Qed.

Lemma rebuffer_kept (c : client) (settled : list nat) (b : jsstring) :
  well_kept c settled ->
  well_kept {| messageId := messageId c;
               pendingRequests := pendingRequests c;
               buffer := b |} settled.
Proof. intros H. exact H. Qed.

Lemma step_kept (c : client) (settled : list nat) (ev : event) :
  well_kept c settled ->
  well_kept (fst (step JSON_parse c ev))
            (settled ++ map settled_id (snd (step JSON_parse c ev)))
  /\ (messageId c <= messageId (fst (step JSON_parse c ev)))%nat.
Proof.
  intros Hk. destruct ev as [method params|data|id]; cbn [step].
  - cbn [sendRequest fst snd map]. rewrite app_nil_r.
    split; [|cbn; lia].
    destruct Hk as (Hp & Hs & Hd & Hb). unfold well_kept.
    cbn [pendingRequests messageId]. unfold set.
    destruct (existsb _ _) eqn:E.
    { apply existsb_in in E. specialize (Hb _ (or_introl E)). lia. }
    split; [|split; [|split]].
    + apply NoDup_app; [exact Hp|repeat constructor; intros []|].
      intros k Hk' [<-|[]]. specialize (Hb _ (or_introl Hk')). lia.
    + exact Hs.
    + intros k Hk' Hk''. apply in_app_or in Hk'.
      destruct Hk' as [Hk'|[<-|[]]]; [exact (Hd _ Hk' Hk'')|].
      specialize (Hb _ (or_intror Hk'')). lia.
    + intros k [H|H].
      * apply in_app_or in H. destruct H as [H|[<-|[]]]; [|lia].
        specialize (Hb _ (or_introl H)). lia.
      * specialize (Hb _ (or_intror H)). lia.
  - unfold on_data.
    destruct (Framer.on_data (buffer c) data) as [[texts rest]|].
    + destruct (handle_texts_kept texts _ settled
                  (rebuffer_kept c settled rest Hk))
        as [Hk' Hid].
      split; [exact Hk'|]. rewrite Hid. cbn. lia.
    + cbn. rewrite app_nil_r. auto.
  - unfold on_timeout. destruct (existsb _ _) eqn:E.
    + apply existsb_in in E. cbn [fst snd map settled_id].
      split; [apply settle_kept; assumption|cbn; lia].
    + cbn. rewrite app_nil_r. auto.
Qed.

Lemma run_kept (events : list event) :
  forall (c : client) (settled : list nat),
    well_kept c settled ->
    well_kept (fst (run JSON_parse c events))
              (settled ++ map settled_id (snd (run JSON_parse c events))).
Proof.
  induction events as [|ev later IH]; intros c settled Hk.
  - cbn. rewrite app_nil_r. exact Hk.
  - cbn [run]. destruct (step_kept c settled ev Hk) as [Hk' _].
    destruct (step JSON_parse c ev) as [c' ss]. cbn [fst snd] in *.
    specialize (IH c' _ Hk').
    destruct (run JSON_parse c' later) as [c'' ss']. cbn [fst snd] in *.
    rewrite map_app, app_assoc. exact IH.
Qed.

Lemma new_client_kept : well_kept new_client [].
Proof.
  unfold well_kept. cbn. repeat split; try constructor; tauto.
Qed.

(** ** X6.  Whatever requests, data and timeouts a client has seen, no
    request is settled twice: among all the [resolve] and [reject] calls
    made, each id occurs at most once, it is the id of a request that
    was sent, and it is no longer pending.  An answer that comes after
    the timeout, a second answer, a timeout after the answer: none of
    them settles anything. *)
Theorem each_request_is_settled_at_most_once (events : list event) :
  let c := fst (run JSON_parse new_client events) in
  let settled := map settled_id (snd (run JSON_parse new_client events)) in
  NoDup settled
  /\ (forall id, In id settled ->
        (1 <= id <= messageId c)%nat /\ ~ In id (pendingRequests c)).
Proof.
  cbv zeta. destruct (run_kept events new_client [] new_client_kept)
    as (_ & Hs & Hd & Hb).
  cbn [app] in *. split; [exact Hs|].
  intros id Hin. split; [apply Hb; auto|].
  intros Hp. exact (Hd _ Hp Hin).
Qed.

(** ** X7.  Whatever a client has seen, the id [sendRequest] takes next
    is new and usable: it is at least 1, so the test [message.id &&] lets
    its answer through, it is not the key of a pending request, so
    nothing is overwritten in the map, and no earlier request with that
    id has been settled; after the call it is pending. *)
Theorem next_request_id_is_fresh
    (events : list event) (method : jsstring) (params : json) :
  let c := fst (run JSON_parse new_client events) in
  let settled := map settled_id (snd (run JSON_parse new_client events)) in
  let '(c', id, _) := sendRequest c method params in
  (1 <= id)%nat /\ ~ In id (pendingRequests c) /\ ~ In id settled
  /\ pendingRequests c' = pendingRequests c ++ [id].
Proof.
  cbv zeta. destruct (run_kept events new_client [] new_client_kept)
    as (_ & _ & _ & Hb).
  cbn [app] in *. set (c := fst (run JSON_parse new_client events)) in *.
  cbn [sendRequest].
  assert (Hp : ~ In (S (messageId c)) (pendingRequests c))
    by (intros H; specialize (Hb _ (or_introl H)); lia).
  repeat split; [lia|exact Hp| |].
  - intros H. specialize (Hb _ (or_intror H)). lia.
  - cbn [pendingRequests]. unfold set.
    destruct (existsb _ _) eqn:E; [|reflexivity].
    apply existsb_in in E. contradiction.
Qed.

Definition with_buffer (c : client) (b : jsstring) : client :=
  {| messageId := messageId c;
     pendingRequests := pendingRequests c;
     buffer := b |}.

Lemma dispatch_with_buffer (c : client) (b : jsstring) (message : json) :
  dispatch (with_buffer c b) message
  = (with_buffer (fst (dispatch c message)) b, snd (dispatch c message)).
Proof.
  unfold dispatch. cbn [with_buffer pendingRequests messageId buffer].
  destruct (truthy (prop (str "id") message)); [|reflexivity].
  destruct (match prop (str "id") message with
            | Some key => has (pendingRequests c) key
            | None => None
            end); [|reflexivity].
  destruct (truthy (prop (str "error") message)); reflexivity.
Qed.

Lemma handle_texts_with_buffer (texts : list jsstring) :
  forall (c : client) (b : jsstring),
    handle_texts JSON_parse (with_buffer c b) texts
    = (with_buffer (fst (handle_texts JSON_parse c texts)) b,
       snd (handle_texts JSON_parse c texts)).
Proof.
  induction texts as [|t later IH]; intros c b; [reflexivity|].
  cbn [handle_texts]. unfold handle_text.
  destruct (JSON_parse t) as [message|].
  - rewrite dispatch_with_buffer.
    destruct (dispatch c message) as [c' s]. cbn [fst snd].
    rewrite IH. destruct (handle_texts JSON_parse c' later). reflexivity.
  - rewrite IH. destruct (handle_texts JSON_parse c later). reflexivity.
Qed.

Lemma handle_texts_app (a : list jsstring) :
  forall (c : client) (b : list jsstring),
    handle_texts JSON_parse c (a ++ b)
    = let '(c', ss) := handle_texts JSON_parse c a in
      let '(c'', ss') := handle_texts JSON_parse c' b in
      (c'', ss ++ ss').
Proof.
  induction a as [|t a IH]; intros c b.
  - cbn. destruct (handle_texts JSON_parse c b). reflexivity.
  - cbn [app handle_texts].
    destruct (handle_text JSON_parse c t) as [c1 s]. rewrite IH.
    destruct (handle_texts JSON_parse c1 a) as [c2 ss].
    destruct (handle_texts JSON_parse c2 b) as [c3 ss'].
    destruct s; reflexivity.
Qed.

(** The ['data'] events of a connection, against the framer alone: the
    client acts on the texts the framer extracts, in order, and keeps
    the framer's rest. *)
Lemma run_data (chunks : list JS.buffer) :
  forall (c : client) (texts : list jsstring) (rest : jsstring),
    receive (buffer c) chunks = Some (texts, rest) ->
    run JSON_parse c (map Data chunks)
    = handle_texts JSON_parse (with_buffer c rest) texts.
Proof.
  induction chunks as [|data later IH]; intros c texts rest Hr.
  - cbn in Hr. injection Hr as <- <-. destruct c. reflexivity.
  - cbn [receive] in Hr. cbn [map run step]. unfold on_data.
    destruct (Framer.on_data (buffer c) data) as [[ts b]|]; [|discriminate].
    destruct (receive b later) as [[ts' b']|] eqn:Er; [|discriminate].
    injection Hr as <- <-.
    fold (with_buffer c b).
    rewrite handle_texts_app.
    rewrite (handle_texts_with_buffer ts c b).
    rewrite (handle_texts_with_buffer ts c b').
    destruct (handle_texts JSON_parse c ts) as [c1 ss]. cbn [fst snd].
    rewrite (IH (with_buffer c1 b) ts' b' Er).
    reflexivity.
Qed.

(** ** X8.  An answer is acted on once, as a whole.  The buffer being
    empty, let the octets of one frame whose body is the ASCII text of a
    JSON value arrive cut into ['data'] events in any way: the pending
    requests change, and a promise is settled, exactly as [dispatch] does
    for that value, once, and the buffer is empty again. *)
Theorem fragmented_answer_is_dispatched_once
    (c : client) (answer : json) (chunks : list JS.buffer) :
  buffer c = [] ->
  is_ascii (stringify answer) ->
  JSON_parse (stringify answer) = Some answer ->
  concat chunks = utf8_encode (frame (stringify answer)) ->
  run JSON_parse c (map Data chunks)
  = (fst (dispatch c answer),
     match snd (dispatch c answer) with
     | Some s => [s]
     | None => []
     end).
Proof.
  intros Hb Hascii Hparse Hchunks.
  pose proof (FramerTheorems.roundtrip_ascii _ chunks Hascii Hchunks) as Hr.
  rewrite <- Hb in Hr at 1.
  rewrite (run_data chunks c _ _ Hr).
  cbn [handle_texts]. unfold handle_text. rewrite Hparse.
  rewrite dispatch_with_buffer.
  destruct (dispatch_kept_buffer c answer) as [Hbuf _].
  destruct (dispatch c answer) as [c' s]. cbn [fst snd] in *.
  f_equal. unfold with_buffer. rewrite <- Hb, <- Hbuf.
  destruct c'. reflexivity.
Qed.

End WithParser.

(** The answer [{jsonrpc: '2.0', id: 1, result: 'ok'}], and a parser
    that knows this one text. *)
Definition ok_answer : json :=
  JObject [(str "jsonrpc", JString (str "2.0")); (str "id", JNumber 1);
           (str "result", JString (str "ok"))].

Definition parse_ok_answer (text : jsstring) : option json :=
  if jsstring_eqb text (stringify ok_answer) then Some ok_answer else None.

Lemma fragmented_answer_is_dispatched_once_witness :
  let c := fst (fst (sendRequest new_client (str "health") (JObject []))) in
  let octets := utf8_encode (frame (stringify ok_answer)) in
  run parse_ok_answer c [Data (firstn 30 octets); Data (skipn 30 octets)]
  = ({| messageId := 1; pendingRequests := []; buffer := [] |},
     [Resolve 1 (Some (JString (str "ok")))]).
Proof.
  cbv zeta.
  exact (fragmented_answer_is_dispatched_once parse_ok_answer
           (fst (fst (sendRequest new_client (str "health") (JObject []))))
           ok_answer
           [firstn 30 (utf8_encode (frame (stringify ok_answer)));
            skipn 30 (utf8_encode (frame (stringify ok_answer)))]
           eq_refl (JSFacts.is_asciib_ok (stringify ok_answer) eq_refl)
           eq_refl eq_refl).
Defined.

End ClientExtras.

(** ** The symbol tree and the text search *)

From Stdlib Require Sorted.

Module ResolverExtras.
Import JS Json VSCode AsyncFacts JSFacts ResolverSpec IndexStageTheorems
       DocumentScanTheorems.
Local Open Scope async_scope.

(** Induction on symbol trees. *)
Section TreeInduction.
Variable P : DocumentSymbol -> Prop.
Hypothesis step :
  forall name range children,
    Forall P children -> P (mkDocumentSymbol name range children).

Fixpoint DocumentSymbol_forall (s : DocumentSymbol) : P s :=
  match s with
  | mkDocumentSymbol name range children =>
      step name range children
        ((fix all (l : list DocumentSymbol) : Forall P l :=
            match l with
            | [] => Forall_nil P
            | x :: l' => Forall_cons x (DocumentSymbol_forall x) (all l')
            end) children)
  end.
End TreeInduction.

(** The symbols of a tree, each parent before its children, the
    children in order: the order in which an outline lists them. *)
Fixpoint nodes (s : DocumentSymbol) : list DocumentSymbol :=
  s :: (fix all (l : list DocumentSymbol) : list DocumentSymbol :=
          match l with
          | [] => []
          | x :: l' => nodes x ++ all l'
          end) (ds_children s).

Definition outline_order (symbols : list DocumentSymbol)
  : list DocumentSymbol :=
  flat_map nodes symbols.

Definition is_named (symbolName : jsstring) (s : DocumentSymbol) : bool :=
  jsstring_eqb (ds_name s) symbolName.

Lemma nodes_eq (s : DocumentSymbol) :
  nodes s = s :: outline_order (ds_children s).
Proof.
  destruct s as [n r c]. reflexivity.
Qed.

Lemma find_app (A : Type) (p : A -> bool) (a b : list A) :
  find p (a ++ b)
  = match find p a with
    | Some x => Some x
    | None => find p b
    end.
Proof.
  induction a as [|x a IH]; [reflexivity|].
  cbn [app find]. destruct (p x); [reflexivity|exact IH].
Qed.

Lemma visit_eq (symbolName : jsstring) (s : DocumentSymbol) :
  findSymbolInTree_visit symbolName s
  = if is_named symbolName s then Some s
    else findSymbolInTree (ds_children s) symbolName.
Proof.
  destruct s as [n r c]. cbn [findSymbolInTree_visit ds_children].
  unfold is_named. destruct (jsstring_eqb _ _); [reflexivity|].
  induction c as [|x c IH]; [reflexivity|].
  cbn [findSymbolInTree]. rewrite <- IH. reflexivity.
Qed.

Lemma visit_find (symbolName : jsstring) :
  forall s : DocumentSymbol,
    findSymbolInTree_visit symbolName s
    = find (is_named symbolName) (nodes s).
Proof.
  apply DocumentSymbol_forall. intros n r c IH.
  rewrite visit_eq, nodes_eq. cbn [find ds_children].
  destruct (is_named symbolName (mkDocumentSymbol n r c)); [reflexivity|].
  induction IH as [|x c Hx _ IHc]; [reflexivity|].
  cbn [findSymbolInTree outline_order flat_map].
  rewrite find_app, Hx.
  destruct (find (is_named symbolName) (nodes x)); [reflexivity|exact IHc].
Qed.

(** ** X9.  [findSymbolInTree] returns the first symbol with exactly the
    name asked for in outline order: a parent before its children, the
    children in order, a whole subtree before the next sibling.  So a
    symbol it returns bears the name and belongs to the tree, and it
    returns [null] only when no symbol of the tree, at any depth, bears
    the name. *)
Theorem findSymbolInTree_is_first_in_outline_order
    (symbols : list DocumentSymbol) (symbolName : jsstring) :
  findSymbolInTree symbols symbolName
  = find (is_named symbolName) (outline_order symbols)
  /\ (forall found, findSymbolInTree symbols symbolName = Some found ->
        ds_name found = symbolName /\ In found (outline_order symbols))
  /\ (findSymbolInTree symbols symbolName = None <->
      forall s, In s (outline_order symbols) -> ds_name s <> symbolName).
Proof.
  assert (E : findSymbolInTree symbols symbolName
              = find (is_named symbolName) (outline_order symbols)).
  { induction symbols as [|x l IH]; [reflexivity|].
    cbn [findSymbolInTree outline_order flat_map].
    rewrite find_app, visit_find.
    destruct (find (is_named symbolName) (nodes x)); [reflexivity|exact IH]. }
  split; [exact E|]. rewrite E. split.
  - intros found H. apply find_some in H. destruct H as [Hin Hn].
    apply jsstring_eqb_eq in Hn. auto.
  - split.
    + intros H s Hin Hn. apply (find_none _ _ H) in Hin.
      unfold is_named in Hin. rewrite Hn, jsstring_eqb_refl in Hin.
      discriminate.
    + intros H. destruct (find _ _) as [s|] eqn:Ef; [|reflexivity].
      apply find_some in Ef. destruct Ef as [Hin Hn].
      apply jsstring_eqb_eq in Hn. exfalso. exact (H s Hin Hn).
Qed.

(** The name stands in the text at index [i] as a whole word. *)
Definition whole_word_at (symbolName text : jsstring) (i : nat) : Prop :=
  (exists rest, skipn i text = symbolName ++ rest)
  /\ boundary text i = true
  /\ boundary text (i + length symbolName) = true.

Lemma starts_with_iff (p s : jsstring) :
  starts_with p s = true <-> exists rest, s = p ++ rest.
Proof.
  split.
  - revert s; induction p as [|x p IH]; intros s H; [exists s; reflexivity|].
    destruct s as [|y s]; [discriminate|]. cbn [starts_with] in H.
    apply andb_true_iff in H. destruct H as [Hxy H].
    apply Z.eqb_eq in Hxy. subst. destruct (IH s H) as [rest ->].
    exists rest. reflexivity.
  - intros [rest ->]. apply starts_with_app.
Qed.

Lemma match_iff (symbolName text : jsstring) (i : nat) :
  (exists stop, match_at (symbol_regex symbolName) text i = Some stop)
  <-> whole_word_at symbolName text i.
Proof.
  rewrite symbol_regex_match. unfold whole_word_at.
  rewrite <- starts_with_iff.
  destruct (boundary text i), (starts_with symbolName (skipn i text)),
    (boundary text (i + length symbolName)); cbn [andb];
    split; try (intros [stop H]; discriminate); try tauto;
    try (intros (H1 & H2 & H3); discriminate); eauto.
Qed.

Lemma find_seq_first (p : nat -> bool) (n : nat) :
  forall from i : nat,
    find p (seq from n) = Some i ->
    forall j, (from <= j < i)%nat -> p j = false.
Proof.
  induction n as [|n IH]; intros from i H j Hj; [discriminate|].
  cbn [seq find] in H. destruct (p from) eqn:Ep.
  - injection H as <-. lia.
  - destruct (Nat.eq_dec j from) as [->|Hne]; [exact Ep|].
    apply (IH (S from) i H). lia.
Qed.

(** ** X10.  The search pattern built from a symbol name finds the name
    itself as a whole word, whatever characters the name is made of,
    regular-expression syntax included: a match reported by [exec] from
    [from] on starts at an index where the text reads the name character
    for character between two word boundaries, ends right after the
    name, and is the first such index at or after [from]; when [exec]
    reports no match there is no such index. *)
Theorem search_finds_first_whole_word
    (symbolName text : jsstring) (from : nat) :
  (forall index stop,
      exec_from (symbol_regex symbolName) text from = Some (index, stop) ->
      (from <= index)%nat /\ stop = (index + length symbolName)%nat
      /\ whole_word_at symbolName text index
      /\ forall j, (from <= j < index)%nat ->
                   ~ whole_word_at symbolName text j)
  /\ (exec_from (symbol_regex symbolName) text from = None ->
      forall j, (from <= j <= length text)%nat ->
                ~ whole_word_at symbolName text j).
Proof.
  split.
  - intros index stop H. pose proof H as H'.
    apply exec_from_some in H'. destruct H' as [Hfrom Hm].
    split; [exact Hfrom|]. split; [|split].
    + rewrite symbol_regex_match in Hm.
      destruct (_ && _ && _); [|discriminate]. injection Hm as <-.
      reflexivity.
    + apply match_iff. eauto.
    + intros j Hj Hw. apply match_iff in Hw. destruct Hw as [s Hs].
      unfold exec_from in H.
      destruct (find _ _) as [i|] eqn:Ef; [|discriminate].
      assert (i = index).
      { destruct (match_at _ text i); [|discriminate].
        cbn in H. congruence. }
      subst i. pose proof (find_seq_first _ _ _ _ Ef j Hj) as Hp.
      cbv beta in Hp. rewrite Hs in Hp. discriminate.
  - intros H j Hj Hw. apply match_iff in Hw. destruct Hw as [s Hs].
    unfold exec_from in H.
    destruct (find _ _) as [i|] eqn:Ef.
    + apply find_some in Ef. destruct Ef as [_ Ef].
      destruct (match_at _ text i); discriminate.
    + assert (Hin : In j (seq from (S (length text) - from)))
        by (apply in_seq; lia).
      apply (find_none _ _ Ef) in Hin. cbv beta in Hin.
      rewrite Hs in Hin. discriminate.
Qed.

Lemma exec_all_ordered (symbolName text : jsstring) (fuel : nat) :
  forall from : nat,
    Forall (fun i => (from <= i)%nat /\ whole_word_at symbolName text i)
           (exec_all fuel (symbol_regex symbolName) text from)
    /\ Sorted.StronglySorted (fun a b => (a + length symbolName <= b)%nat)
                      (exec_all fuel (symbol_regex symbolName) text from).
Proof.
  induction fuel as [|fuel IH]; intros from; [split; constructor|].
  cbn [exec_all].
  destruct (exec_from (symbol_regex symbolName) text from)
    as [[index stop]|] eqn:Ee; [|split; constructor].
  apply exec_from_some in Ee. destruct Ee as [Hfrom Hm].
  assert (Hw : whole_word_at symbolName text index)
    by (apply match_iff; eauto).
  rewrite symbol_regex_match in Hm.
  destruct (_ && _ && _); [|discriminate]. injection Hm as <-.
  destruct (IH (index + length symbolName)%nat) as [Hall Hsorted].
  split.
  - constructor; [auto|].
    revert Hall. apply Forall_impl. intros i [Hi Hwi]. split; [lia|exact Hwi].
  - constructor; [exact Hsorted|].
    revert Hall. apply Forall_impl. intros i [Hi _]. exact Hi.
Qed.

(** ** X11.  The text matches the first revision probes for hover
    information, in the order it probes them: each is a whole-word
    occurrence of the name, they come in increasing order of offset, and
    no two of them overlap (the next starts at or after the end of the
    one before). *)
Theorem text_matches_are_ordered_occurrences
    (symbolName : jsstring) (d : TextDocument) :
  Forall (whole_word_at symbolName (getText d)) (text_matches symbolName d)
  /\ Sorted.StronglySorted (fun a b => (a + length symbolName <= b)%nat)
                    (text_matches symbolName d).
Proof.
  unfold text_matches.
  destruct (exec_all_ordered symbolName (getText d)
              (S (length (getText d))) 0) as [Hall Hsorted].
  split; [|exact Hsorted].
  revert Hall. apply Forall_impl. tauto.
Qed.

Lemma trace_await (A : Type) (e : Engine) (c : Command)
    (f : Reply c -> Async A) :
  trace e (bind (Await c Return) f)
  = c :: match e c with
         | Fulfilled r => trace e (f r)
         | Rejected _ => []
         end.
Proof.
  unfold trace. rewrite run_await.
  destruct (e c) as [r|m]; [|reflexivity].
  destruct (run e (f r)); reflexivity.
Qed.

Lemma probe_matches_trace (e : Engine) (d : TextDocument)
    (otherwise : Async (option SymbolLocation)) (c : Command) :
  forall indices : list nat,
    In c (trace e (PipeServer.probe_matches d indices otherwise)) ->
    (exists i, In i indices
               /\ c = executeHoverProvider (doc_uri d) (positionAt d i))
    \/ In c (trace e otherwise).
Proof.
  induction indices as [|i later IH]; [auto|].
  cbn [PipeServer.probe_matches]. rewrite trace_await.
  intros [<-|Hin]; [left; exists i; split; [left|]; reflexivity|].
  destruct (e (executeHoverProvider (doc_uri d) (positionAt d i)))
    as [[[|h hs]|]|m]; try contradiction.
  - destruct (IH Hin) as [(j & Hj & E)|H]; [left; exists j; cbn; auto|auto].
  - destruct (IH Hin) as [(j & Hj & E)|H]; [left; exists j; cbn; auto|auto].
Qed.

(** A command the first revision may issue about a document. *)
Definition first_revision_query (symbolName : jsstring) (d : TextDocument)
    (c : Command) : Prop :=
  c = executeDocumentSymbolProvider (doc_uri d)
  \/ exists i, In i (text_matches symbolName d)
               /\ c = executeHoverProvider (doc_uri d) (positionAt d i).

(** A command the second revision may issue about a document. *)
Definition second_revision_query (symbolName : jsstring) (d : TextDocument)
    (c : Command) : Prop :=
  c = executeDocumentSymbolProvider (doc_uri d)
  \/ exists i stop,
       exec_from (symbol_regex symbolName) (getText d) 0 = Some (i, stop)
       /\ c = executeHoverProvider (doc_uri d) (positionAt d i).

(** ** X12.  What the scan of the open documents asks the engine, for
    any engine, failing ones included.  It never queries the symbol index
    or the reference provider; every command is the outline of a
    file-backed open document or a hover probe of such a document at one
    of its text matches (second revision: a document that also lies in a
    workspace folder, and its first text match only).  A document that is
    not file-backed is never named in a command. *)
Theorem scan_queries_only_eligible_documents
    (ws : Workspace) (e : Engine) (symbolName : jsstring)
    (documents : list TextDocument) (c : Command) :
  (In c (trace e (PipeServer.scan_documents documents symbolName)) ->
   exists d, In d documents /\ file_backed d = true
             /\ first_revision_query symbolName d c)
  /\ (In c (trace e (PipeServerScoped.scan_documents ws documents
                       symbolName)) ->
      exists d, In d documents /\ file_backed d = true
                /\ getWorkspaceFolder ws (doc_uri d) <> None
                /\ second_revision_query symbolName d c).
Proof.
  split.
  - induction documents as [|d rest IH]; [intros []|].
    assert (Hrest :
      In c (trace e (PipeServer.scan_documents rest symbolName)) ->
      exists d0, In d0 (d :: rest) /\ file_backed d0 = true
                 /\ first_revision_query symbolName d0 c).
    { intros H. destruct (IH H) as (d0 & Hd0 & Hrestd).
      exists d0. split; [right; exact Hd0|exact Hrestd]. }
    cbn [PipeServer.scan_documents]. fold (file_backed d).
    destruct (file_backed d) eqn:Hf; cbn [negb]; [|exact Hrest].
    rewrite trace_await.
    intros [<-|Hin];
      [exists d; split;
         [left; reflexivity|split; [exact Hf|left; reflexivity]]|].
    assert (Hprobe :
      In c (trace e
              (PipeServer.probe_matches d
                 (exec_all (S (length (getText d)))
                           (symbol_regex symbolName) (getText d) 0)
                 (PipeServer.scan_documents rest symbolName))) ->
      exists d0, In d0 (d :: rest) /\ file_backed d0 = true
                 /\ first_revision_query symbolName d0 c).
    { intros H. apply probe_matches_trace in H.
      destruct H as [(i & Hi & ->)|H]; [|exact (Hrest H)].
      exists d. split; [left; reflexivity|]. split; [exact Hf|].
      right. exists i. split; [exact Hi|reflexivity]. }
    destruct (e (executeDocumentSymbolProvider (doc_uri d)))
      as [[symbols|]|m]; try contradiction; [|exact (Hprobe Hin)].
    destruct (findSymbolInTree symbols symbolName);
      [contradiction|exact (Hprobe Hin)].
  - induction documents as [|d rest IH]; [intros []|].
    assert (Hrest :
      In c (trace e (PipeServerScoped.scan_documents ws rest symbolName)) ->
      exists d0, In d0 (d :: rest) /\ file_backed d0 = true
                 /\ getWorkspaceFolder ws (doc_uri d0) <> None
                 /\ second_revision_query symbolName d0 c).
    { intros H. destruct (IH H) as (d0 & Hd0 & Hrestd).
      exists d0. split; [right; exact Hd0|exact Hrestd]. }
    cbn [PipeServerScoped.scan_documents]. fold (file_backed d).
    destruct (file_backed d) eqn:Hf; cbn [negb]; [|exact Hrest].
    destruct (getWorkspaceFolder ws (doc_uri d)) as [folder|] eqn:Hw;
      [|exact Hrest].
    assert (Hhere : forall q, second_revision_query symbolName d q ->
      exists d0, In d0 (d :: rest) /\ file_backed d0 = true
                 /\ getWorkspaceFolder ws (doc_uri d0) <> None
                 /\ second_revision_query symbolName d0 q).
    { intros q Hq. exists d. split; [left; reflexivity|].
      split; [exact Hf|]. split; [rewrite Hw; discriminate|exact Hq]. }
    rewrite trace_await.
    intros [<-|Hin]; [apply Hhere; left; reflexivity|].
    destruct (e (executeDocumentSymbolProvider (doc_uri d)))
      as [r|m]; [|contradiction].
    destruct (findSymbolInTree _ symbolName); [contradiction|].
    destruct (exec_from (symbol_regex symbolName) (getText d) 0)
      as [[i stop]|] eqn:Ee; [|exact (Hrest Hin)].
    rewrite trace_await in Hin. destruct Hin as [<-|Hin].
    + apply Hhere. right. exists i, stop. split; [exact Ee|reflexivity].
    + destruct (e (executeHoverProvider (doc_uri d) (positionAt d i)))
        as [[[|h hs]|]|m]; try contradiction; exact (Hrest Hin).
Qed.

Lemma first_yield_some_in
    (yield yield' : TextDocument -> option SymbolLocation)
    (keep keep' : TextDocument -> bool) (documents : list TextDocument) :
  (forall d l, yield d = Some l -> exists l', yield' d = Some l') ->
  (forall d, keep d = true -> keep' d = true) ->
  forall l, first_yield yield (filter keep documents) = Some l ->
            exists l', first_yield yield' (filter keep' documents) = Some l'.
Proof.
  intros Hy Hk. induction documents as [|d rest IH]; [discriminate|].
  intros l. cbn [filter]. destruct (keep d) eqn:Ek.
  - rewrite (Hk d Ek). cbn [first_yield].
    destruct (yield d) as [l0|] eqn:Ey.
    + destruct (Hy d l0 Ey) as [l' ->]. eauto.
    + intros H. destruct (yield' d); [eauto|]. exact (IH l H).
  - intros H. destruct (keep' d); [|exact (IH l H)].
    cbn [first_yield]. destruct (yield' d); [eauto|]. exact (IH l H).
Qed.

(** ** X13.  The second revision of the resolver never finds a symbol
    that the first revision misses: on an engine that answers, whenever
    [findSymbolLocation] returns a location, the first revision's
    resolution returns one too (possibly another one, from a document or
    a match that the second revision does not look at). *)
Theorem second_revision_finds_no_more
    (ws : Workspace) (e : Engine) (symbolName : jsstring)
    (l : SymbolLocation) :
  responsive e ->
  outcome e (PipeServerScoped.findSymbolLocation ws symbolName)
  = Fulfilled (Some l) ->
  exists l', outcome e (PipeServer.resolve ws symbolName)
             = Fulfilled (Some l').
Proof.
  intros Hresp.
  destruct (Hresp (executeWorkspaceSymbolProvider symbolName))
    as [symbols He].
  unfold outcome at 1 2.
  rewrite (findSymbolLocation_eq ws e _ _ He), (resolve_eq ws e _ _ He).
  destruct (find (named symbolName) (results symbols)); cbn [snd];
    [eauto|].
  unfold PipeServer.findSymbolInDocuments.
  rewrite first_revision_scan, second_revision_scan by exact Hresp.
  intros [= H].
  destruct (first_yield_some_in
              (document_match e symbolName
                 (first_match_if_hovered e symbolName))
              (document_match e symbolName (first_hovered_match e symbolName))
              (fun d => file_backed d
                        && match getWorkspaceFolder ws (doc_uri d) with
                           | Some _ => true
                           | None => false
                           end)
              file_backed (textDocuments ws)) with (l := l) as [l' Hl'].
  - intros d l0. unfold document_match.
    destruct (tree_match e symbolName d); [eauto|].
    unfold first_match_if_hovered, first_hovered_match, text_matches.
    cbn [exec_all].
    destruct (exec_from (symbol_regex symbolName) (getText d) 0)
      as [[i stop]|]; [|discriminate].
    cbn [find].
    destruct (hover_present e d (positionAt d i)); [|discriminate].
    cbn [option_map]. eauto.
  - intros d Hd. apply andb_true_iff in Hd. tauto.
  - exact H.
  - exists l'. unfold scan_open_documents. rewrite Hl'. reflexivity.
Qed.

Lemma second_revision_finds_no_more_witness :
  exists l',
    outcome Fixture.scan_engine
      (PipeServer.resolve
         (Fixture.workspace_with
            [Fixture.one_line "file:///d:/lsp-poc/use.ts"
               "........................greetUser()"])
         (str "greetUser"))
    = Fulfilled (Some l').
Proof.
  apply (second_revision_finds_no_more _ _ _
           {| sl_uri := doc_uri Fixture.commented;
              sl_position := {| line := 0; character := 24 |} |}
           scan_engine_responsive).
  reflexivity.
Defined.

End ResolverExtras.

(** ** The handlers: failures, and what is asked of the engine *)

Module HandlerExtras.
Import JS Json VSCode AsyncFacts JSFacts Fixture HandlerTheorems
       ReferenceTheorems.
Local Open Scope async_scope.

Definition failure_answer (message : jsstring) : HttpServer.Response :=
  HttpServer.send 500
    (JObject [(str "error", JString (str "Failed to find references"));
              (str "message", JString message)]).

(** ** X14.  A failure of the engine never escapes the HTTP route: when
    the symbol index rejects, or when the reference provider rejects
    after a symbol was found, the route answers 500 with
    [{error: 'Failed to find references', message}], the message being
    the engine's, and nothing is asked after the failed command. *)
Theorem http_engine_failure_is_answered_500
    (ws : Workspace) (e : Engine) (body : json)
    (symbolName message : jsstring) :
  symbolName <> [] ->
  prop (str "symbolName") body = Some (JString symbolName) ->
  (e (executeWorkspaceSymbolProvider symbolName) = Rejected message ->
   HttpServer.app ws e (post "/api/findReferences" body)
   = ([executeWorkspaceSymbolProvider symbolName], failure_answer message))
  /\ (forall symbol others,
        e (executeWorkspaceSymbolProvider symbolName)
        = Fulfilled (Some (symbol :: others)) ->
        e (executeReferenceProvider
             (loc_uri (si_location symbol))
             (range_start (loc_range (si_location symbol))))
        = Rejected message ->
        HttpServer.app ws e (post "/api/findReferences" body)
        = ([executeWorkspaceSymbolProvider symbolName;
            executeReferenceProvider
              (loc_uri (si_location symbol))
              (range_start (loc_range (si_location symbol)))],
           failure_answer message)).
Proof.
  intros Hne Hbody. destruct symbolName as [|c name]; [contradiction|].
  rewrite app_findReferences.
  unfold HttpServer.findReferences_route, HttpServer.findReferences_try.
  rewrite (symbolName_of_string _ _ Hbody), run_await.
  split.
  - intros ->. reflexivity.
  - intros symbol others -> Href. cbv iota beta.
    rewrite run_await, Href. reflexivity.
Qed.

(** An engine whose every promise is rejected. *)
Definition broken_engine : Engine :=
  fun c => Rejected (str "language server is down").

Lemma http_engine_failure_is_answered_500_witness :
  HttpServer.app bare_workspace broken_engine
    (post "/api/findReferences" (symbolName_body (str "greetUser")))
  = ([executeWorkspaceSymbolProvider (str "greetUser")],
     failure_answer (str "language server is down")).
Proof.
  exact (proj1 (http_engine_failure_is_answered_500 bare_workspace
                  broken_engine (symbolName_body (str "greetUser"))
                  (str "greetUser") (str "language server is down")
                  ltac:(discriminate) eq_refl) eq_refl).
Defined.

Definition index_or_reference (c : Command) : Prop :=
  match c with
  | executeWorkspaceSymbolProvider _ => True
  | executeReferenceProvider _ _ => True
  | _ => False
  end.

(** A body that [express.json()] hands to the route, a JSON object or
    array, in which [symbolName], when present, is a string. *)
Definition accepted_body (body : json) : bool :=
  match body with
  | JObject _ =>
      match prop (str "symbolName") body with
      | None | Some (JString _) => true
      | Some _ => false
      end
  | JArray _ => true
  | _ => false
  end.

(** ** X15.  The handler of [POST /api/findReferences], on any body that
    [express.json()] hands to it with [symbolName] absent or a string,
    and whatever the engine does.  It answers with one of the statuses
    200, 400, 404 and 500, and asks the engine at most two things, the
    symbol index and then the reference provider, never a document
    outline or hover information.  It answers 400 exactly when it has
    asked nothing, 404 only after the index query alone, 200 only after
    both queries, and 500 only when the engine rejected a command it had
    asked. *)
Theorem findReferences_route_statuses_and_commands
    (e : Engine) (body : json) :
  accepted_body body = true ->
  let asked := fst (HttpServer.findReferences_route e body) in
  let answered :=
    HttpServer.status (snd (HttpServer.findReferences_route e body)) in
  In answered [200; 400; 404; 500]%nat
  /\ (length asked <= 2)%nat
  /\ Forall index_or_reference asked
  /\ (answered = 400%nat <-> asked = [])
  /\ (answered = 404%nat -> length asked = 1%nat)
  /\ (answered = 200%nat -> length asked = 2%nat)
  /\ (answered = 500%nat ->
      exists c m, In c asked /\ e c = Rejected m).
Proof.
  intros _. cbv zeta.
  unfold HttpServer.findReferences_route, HttpServer.findReferences_try.
  destruct (HttpServer.symbolName_of body) as [[|ch name]|];
    try (cbn; repeat split; auto; discriminate).
  rewrite run_await.
  destruct (e (executeWorkspaceSymbolProvider (ch :: name)))
    as [[[|symbol others]|]|m] eqn:Ei;
    try (cbn; repeat split; auto 6; try discriminate;
         repeat constructor; fail).
  - cbv iota beta. rewrite run_await.
    destruct (e (executeReferenceProvider _ _)) as [[[|r rs]|]|m] eqn:Er;
      cbn; repeat split; auto 6; try discriminate; repeat constructor.
    intros _. do 2 eexists. split; [right; left; reflexivity|exact Er].
  - cbn. repeat split; auto 6; try discriminate; repeat constructor.
    intros _. do 2 eexists. split; [left; reflexivity|exact Ei].
Qed.

Lemma findReferences_route_statuses_and_commands_witness :
  let e := index_engine (Some [greetUser]) None in
  let body := symbolName_body (str "greetUser") in
  HttpServer.status (snd (HttpServer.findReferences_route e body)) = 200%nat
  /\ length (fst (HttpServer.findReferences_route e body)) = 2%nat.
Proof.
  cbv zeta.
  destruct (findReferences_route_statuses_and_commands
              (index_engine (Some [greetUser]) None)
              (symbolName_body (str "greetUser")) eq_refl)
    as (_ & _ & _ & _ & _ & Hok & _).
  split; [reflexivity|]. apply Hok. reflexivity.
Defined.

(** An [async] body without a [throw] of its own. *)
Inductive no_throw {A : Type} : Async A -> Prop :=
| no_throw_return (a : A) : no_throw (Return a)
| no_throw_await (c : Command) (k : Reply c -> Async A) :
    (forall r, no_throw (k r)) -> no_throw (Await c k).

Lemma no_throw_bind (A B : Type) (p : Async A) (f : A -> Async B) :
  no_throw p -> (forall a, no_throw (f a)) -> no_throw (bind p f).
Proof.
  intros Hp Hf. induction Hp as [a|c k _ IH]; cbn [bind]; [apply Hf|].
  constructor. exact IH.
Qed.

(** Such a body is rejected only when a command it issued was. *)
Lemma no_throw_rejected (A : Type) (e : Engine) (p : Async A)
    (m : jsstring) :
  no_throw p -> outcome e p = Rejected m ->
  exists c, In c (trace e p) /\ e c = Rejected m.
Proof.
  intros Hp. induction Hp as [a|c k _ IH]; [discriminate|].
  unfold outcome, trace. cbn [run].
  destruct (e c) as [r|m'] eqn:Ec.
  - specialize (IH r). unfold outcome, trace in IH.
    destruct (run e (k r)) as [t o]. cbn [fst snd] in *.
    intros H. destruct (IH H) as (c' & Hin & Hc').
    exists c'. split; [right; exact Hin|exact Hc'].
  - cbn [fst snd]. intros [= <-]. exists c. split; [left; reflexivity|exact Ec].
Qed.

Lemma no_throw_probe (d : TextDocument) (indices : list nat)
    (otherwise : Async (option SymbolLocation)) :
  no_throw otherwise ->
  no_throw (PipeServer.probe_matches d indices otherwise).
Proof.
  intros Ho. induction indices as [|i later IH]; [exact Ho|].
  cbn [PipeServer.probe_matches bind]. constructor.
  intros [[|h hs]|]; cbn [bind]; try exact IH. constructor.
Qed.

Lemma no_throw_first_scan (documents : list TextDocument)
    (symbolName : jsstring) :
  no_throw (PipeServer.scan_documents documents symbolName).
Proof.
  induction documents as [|d rest IH]; [constructor|].
  cbn [PipeServer.scan_documents].
  destruct (negb _); [exact IH|].
  cbn [bind]. constructor. intros r. cbn [bind].
  destruct (match r with
            | Some symbols => findSymbolInTree symbols symbolName
            | None => None
            end); [constructor|].
  apply no_throw_probe, IH.
Qed.

Lemma no_throw_second_scan (ws : Workspace) (documents : list TextDocument)
    (symbolName : jsstring) :
  no_throw (PipeServerScoped.scan_documents ws documents symbolName).
Proof.
  induction documents as [|d rest IH]; [constructor|].
  cbn [PipeServerScoped.scan_documents].
  destruct (negb _); [exact IH|].
  destruct (getWorkspaceFolder ws (doc_uri d)); [|exact IH].
  cbn [bind]. constructor. intros r. cbn [bind].
  destruct (findSymbolInTree _ symbolName); [constructor|].
  destruct (exec_from _ _ _) as [[i stop]|]; [|exact IH].
  cbn [bind]. constructor.
  intros [[|h hs]|]; cbn [bind]; try exact IH. constructor.
Qed.

Lemma no_throw_resolve (ws : Workspace) (symbolName : jsstring) :
  no_throw (PipeServer.resolve ws symbolName)
  /\ no_throw (PipeServerScoped.findSymbolLocation ws symbolName).
Proof.
  split.
  - unfold PipeServer.resolve. cbn [bind]. constructor. intros r. cbn [bind].
    destruct (PipeServer.exact_match r symbolName); [constructor|].
    apply no_throw_first_scan.
  - unfold PipeServerScoped.findSymbolLocation. cbn [bind]. constructor.
    intros r. cbn [bind].
    destruct (match r with Some _ => _ | None => _ end); [constructor|].
    apply no_throw_second_scan.
Qed.

Lemma no_throw_aggregate (symbolName : jsstring) (l : SymbolLocation) :
  no_throw (PipeServer.aggregate symbolName l)
  /\ no_throw (PipeServerScoped.aggregate symbolName l).
Proof.
  split.
  - unfold PipeServer.aggregate. cbn [bind]. constructor.
    intros [[|r rs]|]; cbn [bind]; constructor.
  - unfold PipeServerScoped.aggregate. cbn [bind]. constructor.
    intros r. cbn [bind]. constructor.
Qed.

(** The rejections of a handler made of a resolution stage and an
    aggregation stage. *)
Lemma staged_rejection (e : Engine)
    (stage1 : Async (option SymbolLocation))
    (stage2 : SymbolLocation -> Async json) (not_found m : jsstring) :
  no_throw stage1 -> (forall l, no_throw (stage2 l)) ->
  let handler :=
    bind stage1 (fun found => match found with
                              | None => Throw not_found
                              | Some l => stage2 l
                              end) in
  outcome e handler = Rejected m ->
  m = not_found \/ exists c, In c (trace e handler) /\ e c = Rejected m.
Proof.
  intros H1 H2 handler. unfold handler.
  rewrite outcome_bind, trace_bind.
  destruct (outcome e stage1) as [[l|]|m1] eqn:Eo.
  - intros H. right.
    destruct (no_throw_rejected _ e _ m (H2 l) H) as (c & Hin & Hc).
    exists c. split; [apply in_or_app; right; exact Hin|exact Hc].
  - cbn. intros [= <-]. left. reflexivity.
  - intros [= <-]. right. exact (no_throw_rejected _ e _ _ H1 Eo).
Qed.

(** ** X16.  The errors of the pipe handlers.  When the promise of
    [handleFindReferences] is rejected, in either revision, the error is
    the handler's own [Missing required field: symbolName] (for a missing
    or empty name), or its own not-found error for the name asked, or
    else the error with which the engine rejected a command the handler
    had issued, passed on with its message unchanged. *)
Theorem pipe_rejections_are_validation_not_found_or_engine
    (ws : Workspace) (e : Engine) (symbolName : option jsstring)
    (m : jsstring) :
  (outcome e (PipeServer.handleFindReferences ws symbolName) = Rejected m ->
   m = missing_field
   \/ (exists name, symbolName = Some name
                    /\ m = PipeServer.not_found_message name)
   \/ exists c,
        In c (trace e (PipeServer.handleFindReferences ws symbolName))
        /\ e c = Rejected m)
  /\ (outcome e (PipeServerScoped.handleFindReferences ws symbolName)
      = Rejected m ->
      m = missing_field
      \/ (exists name, symbolName = Some name
                       /\ m = PipeServerScoped.not_found_message name)
      \/ exists c,
           In c (trace e
                   (PipeServerScoped.handleFindReferences ws symbolName))
           /\ e c = Rejected m).
Proof.
  destruct symbolName as [[|ch name]|];
    try (split; intros [= <-]; left; reflexivity).
  split; intros H.
  - destruct (staged_rejection e (PipeServer.resolve ws (ch :: name))
                (PipeServer.aggregate (ch :: name))
                (PipeServer.not_found_message (ch :: name)) m
                (proj1 (no_throw_resolve ws _))
                (fun l => proj1 (no_throw_aggregate _ l)) H) as [->|Hc].
    + right. left. eauto.
    + right. right. exact Hc.
  - destruct (staged_rejection e
                (PipeServerScoped.findSymbolLocation ws (ch :: name))
                (PipeServerScoped.aggregate (ch :: name))
                (PipeServerScoped.not_found_message (ch :: name)) m
                (proj2 (no_throw_resolve ws _))
                (fun l => proj2 (no_throw_aggregate _ l)) H) as [->|Hc].
    + right. left. eauto.
    + right. right. exact Hc.
Qed.

(** What a client reads under [symbol] in a result that names the
    symbol [symbolName] at the location [l]. *)
Definition names_symbol_at (symbolName : jsstring) (l : SymbolLocation)
    (result : json) : Prop :=
  at_path [str "symbol"; str "name"] result = Some (JString symbolName)
  /\ at_path [str "symbol"; str "uri"] result
     = Some (JString (uri_toString (sl_uri l)))
  /\ at_path [str "symbol"; str "position"; str "line"] result
     = Some (JNumber (Z.of_nat (line (sl_position l))))
  /\ at_path [str "symbol"; str "position"; str "character"] result
     = Some (JNumber (Z.of_nat (character (sl_position l)))).

(** ** X17.  A successful result of the pipe handler, in either
    revision, reports under [symbol] the name that was asked for, and as
    its [uri] and [position] the very location at which the references
    were looked up: the location the resolution stage returned.  The
    reference provider is the last command of the request, issued after
    the resolution stage is over. *)
Theorem pipe_result_reports_the_location_queried
    (ws : Workspace) (e : Engine) (symbolName : jsstring) (result : json) :
  (outcome e (PipeServer.handleFindReferences ws (Some symbolName))
   = Fulfilled result ->
   exists l,
     outcome e (PipeServer.resolve ws symbolName) = Fulfilled (Some l)
     /\ trace e (PipeServer.handleFindReferences ws (Some symbolName))
        = trace e (PipeServer.resolve ws symbolName)
          ++ [executeReferenceProvider (sl_uri l) (sl_position l)]
     /\ names_symbol_at symbolName l result)
  /\ (outcome e (PipeServerScoped.handleFindReferences ws (Some symbolName))
      = Fulfilled result ->
      exists l,
        outcome e (PipeServerScoped.findSymbolLocation ws symbolName)
        = Fulfilled (Some l)
        /\ trace e (PipeServerScoped.handleFindReferences ws
                      (Some symbolName))
           = trace e (PipeServerScoped.findSymbolLocation ws symbolName)
             ++ [executeReferenceProvider (sl_uri l) (sl_position l)]
        /\ names_symbol_at symbolName l result).
Proof.
  destruct symbolName as [|ch name]; [split; discriminate|].
  split.
  - cbn [PipeServer.handleFindReferences]. rewrite outcome_bind, trace_bind.
    destruct (outcome e (PipeServer.resolve ws (ch :: name)))
      as [[l|]|m]; try discriminate.
    unfold PipeServer.aggregate.
    rewrite outcome_await, ResolverExtras.trace_await.
    destruct (e (executeReferenceProvider (sl_uri l) (sl_position l)))
      as [references|m]; [|discriminate].
    intros H. exists l. split; [reflexivity|].
    destruct references as [[|r rs]|]; injection H as <-;
      (split; [reflexivity|repeat split; reflexivity]).
  - cbn [PipeServerScoped.handleFindReferences].
    rewrite outcome_bind, trace_bind.
    destruct (outcome e (PipeServerScoped.findSymbolLocation ws (ch :: name)))
      as [[l|]|m]; try discriminate.
    unfold PipeServerScoped.aggregate.
    rewrite outcome_await, ResolverExtras.trace_await.
    destruct (e (executeReferenceProvider (sl_uri l) (sl_position l)))
      as [references|m]; [|discriminate].
    intros H. exists l. split; [reflexivity|].
    injection H as <-. split; [reflexivity|repeat split; reflexivity].
Qed.

(** ** X21.  A lookup that finds nothing ends in the handler's own
    not-found answer and in nothing else.  HTTP: when the index returns
    nothing ([undefined] or an empty array) for a non-empty name, the
    route answers 404 with exactly [{error, symbolName, message}], so
    without a [references] property, after the one index query.  Pipe:
    when the resolution stage yields [null], the handler throws its
    not-found error for the name, having issued the commands of the
    resolution stage and no other. *)
Theorem empty_lookup_is_answered_not_found
    (ws : Workspace) (e : Engine) (symbolName : jsstring) :
  symbolName <> [] ->
  (forall body : json,
      prop (str "symbolName") body = Some (JString symbolName) ->
      e (executeWorkspaceSymbolProvider symbolName) = Fulfilled None
      \/ e (executeWorkspaceSymbolProvider symbolName) = Fulfilled (Some []) ->
      let answer :=
        JObject [(str "error", JString (str "Symbol not found"));
                 (str "symbolName", JString symbolName);
                 (str "message",
                  JString (str "No symbol named " ++ [dquote] ++ symbolName
                           ++ [dquote] ++ str " found in the workspace"))] in
      HttpServer.app ws e (post "/api/findReferences" body)
      = ([executeWorkspaceSymbolProvider symbolName],
         {| HttpServer.status := 404; HttpServer.body := Some answer |})
      /\ prop (str "references") answer = None)
  /\ (outcome e (PipeServer.resolve ws symbolName) = Fulfilled None ->
      run e (PipeServer.handleFindReferences ws (Some symbolName))
      = (trace e (PipeServer.resolve ws symbolName),
         Rejected (str "No symbol named " ++ [dquote] ++ symbolName
                   ++ [dquote]
                   ++ str " found in the workspace or open documents")))
  /\ (outcome e (PipeServerScoped.findSymbolLocation ws symbolName)
      = Fulfilled None ->
      run e (PipeServerScoped.handleFindReferences ws (Some symbolName))
      = (trace e (PipeServerScoped.findSymbolLocation ws symbolName),
         Rejected (str "No symbol named " ++ [dquote] ++ symbolName
                   ++ [dquote] ++ str " found in the workspace"))).
Proof.
  intros Hne. destruct symbolName as [|c name]; [contradiction|].
  cbv zeta. split; [|split].
  - intros body H H0. split; [|reflexivity].
    rewrite app_findReferences.
    unfold HttpServer.findReferences_route, HttpServer.findReferences_try.
    rewrite (symbolName_of_string _ _ H), run_await.
    destruct H0 as [-> | ->]; reflexivity.
  - intros H. cbn [PipeServer.handleFindReferences]. rewrite run_bind.
    rewrite (run_pair _ e (PipeServer.resolve ws (c :: name))), H.
    cbn [run]. rewrite app_nil_r. reflexivity.
  - intros H. cbn [PipeServerScoped.handleFindReferences]. rewrite run_bind.
    rewrite (run_pair _ e (PipeServerScoped.findSymbolLocation ws (c :: name))),
      H.
    cbn [run]. rewrite app_nil_r. reflexivity.
Qed.

Lemma empty_lookup_is_answered_not_found_witness :
  let e := index_engine (Some []) None in
  let name := str "NoSuchSymbolXYZ" in
  HttpServer.status
    (snd (HttpServer.app bare_workspace e
            (post "/api/findReferences" (symbolName_body name)))) = 404%nat
  /\ outcome e (PipeServer.handleFindReferences bare_workspace (Some name))
     = Rejected (str "No symbol named " ++ [dquote] ++ name ++ [dquote]
                 ++ str " found in the workspace or open documents")
  /\ outcome e (PipeServerScoped.handleFindReferences bare_workspace
                  (Some name))
     = Rejected (str "No symbol named " ++ [dquote] ++ name ++ [dquote]
                 ++ str " found in the workspace").
Proof.
  cbv zeta.
  pose proof (empty_lookup_is_answered_not_found bare_workspace
                (index_engine (Some []) None) (str "NoSuchSymbolXYZ")
                ltac:(discriminate)) as (Hhttp & Hone & Htwo).
  split; [|split].
  - destruct (Hhttp (symbolName_body (str "NoSuchSymbolXYZ")) eq_refl
                (or_intror eq_refl)) as [-> _].
    reflexivity.
  - unfold outcome. rewrite (Hone eq_refl). reflexivity.
  - unfold outcome. rewrite (Htwo eq_refl). reflexivity.
Defined.

End HandlerExtras.

(** ** Endpoint names: the random fallback and the notification *)

Module NamerExtras.
Import JS Namer NamerTheorems PipeNotice.

(** ** X18.  Without a workspace folder the address is made of the
    random octets alone, and made so that nothing is lost: two runs whose
    four random octets differ get different addresses, on any platform. *)
Theorem random_fallback_addresses_are_distinct
    (toLowerCase : jsstring -> jsstring) (platform : jsstring)
    (folders : option (list jsstring)) (random random' : buffer) :
  folders = None \/ folders = Some [] ->
  Forall is_octet random -> Forall is_octet random' ->
  generatePipeName toLowerCase platform folders random
  = generatePipeName toLowerCase platform folders random' ->
  random = random'.
Proof.
  intros Hf Hr Hr' H.
  assert (E : pipe_path platform (MD5.hex random)
              = pipe_path platform (MD5.hex random'))
    by (destruct Hf as [-> | ->]; exact H).
  apply pipe_path_inj in E. exact (hex_injective _ _ Hr Hr' E).
Qed.

Lemma random_fallback_addresses_are_distinct_witness :
  generatePipeName ascii_toLowerCase win32 None [1; 2; 3; 4]
  <> generatePipeName ascii_toLowerCase win32 None [1; 2; 3; 5].
Proof.
  intros H.
  pose proof (random_fallback_addresses_are_distinct ascii_toLowerCase win32
                None [1; 2; 3; 4] [1; 2; 3; 5] (or_introl eq_refl)
                ltac:(repeat constructor; unfold is_octet; lia)
                ltac:(repeat constructor; unfold is_octet; lia) H) as E.
  discriminate E.
Defined.

Lemma last_segment_app (a b current : jsstring) :
  last_segment (a ++ b) current = last_segment b (last_segment a current).
Proof.
  revert current; induction a as [|c a IH]; intros current; [reflexivity|].
  cbn [app last_segment]. destruct (c =? 92); apply IH.
Qed.

Lemma last_segment_plain (s current : jsstring) :
  ~ In 92 s -> last_segment s current = current ++ s.
Proof.
  revert current; induction s as [|c s IH]; intros current Hno.
  - cbn. rewrite app_nil_r. reflexivity.
  - cbn [last_segment].
    assert (c <> 92) by (intros ->; apply Hno; left; reflexivity).
    replace (c =? 92) with false by lia.
    rewrite IH by (intros Hin; apply Hno; right; exact Hin).
    rewrite <- app_assoc. reflexivity.
Qed.

Lemma hex_no_backslash (tag : jsstring) : Forall is_hex tag -> ~ In 92 tag.
Proof.
  intros H Hin. rewrite Forall_forall in H. specialize (H _ Hin).
  unfold is_hex in H. lia.
Qed.

(** ** X19.  What the notification shows for an address derived from a
    workspace root: on win32 the pipe's own name, [forge-lsp-] and the
    eight hexadecimal digits, without the [\\.\pipe\] in front; on any
    other platform, where the address has no backslash, the whole socket
    path. *)
Theorem notice_shows_short_name_on_windows
    (toLowerCase : jsstring -> jsstring) (platform root : jsstring)
    (others : list jsstring) (random : buffer) :
  let address :=
    generatePipeName toLowerCase platform (Some (root :: others)) random in
  let tag := hash8 (normalize toLowerCase platform root) in
  listening_notice address
  = str "Forge LSP API: "
    ++ (if jsstring_eqb platform win32 then str "forge-lsp-" ++ tag
        else address).
Proof.
  cbv zeta. unfold listening_notice, generatePipeName, pipe_path.
  set (tag := hash8 (normalize toLowerCase platform root)).
  assert (Hno : ~ In 92 tag) by (apply hex_no_backslash, hash8_shape).
  assert (Hlen : length tag = 8%nat) by apply hash8_shape.
  f_equal. destruct (jsstring_eqb platform win32).
  - rewrite last_segment_app.
    change (last_segment (str "\\.\pipe\forge-lsp-") [])
      with (str "forge-lsp-").
    rewrite last_segment_plain by exact Hno. reflexivity.
  - rewrite last_segment_plain.
    + cbn [app]. reflexivity.
    + intros Hin. apply in_app_or in Hin. destruct Hin as [Hin|Hin].
      * cbv in Hin. intuition discriminate.
      * apply in_app_or in Hin. destruct Hin as [Hin|Hin]; [tauto|].
        cbv in Hin. intuition discriminate.
Qed.

End NamerExtras.

(** ** JSON texts of ASCII values *)

Module JsonExtras.
Import JS Json Framer JSFacts FramerFacts.

Section JsonInduction.
Variable P : json -> Prop.
Hypothesis HNull : P JNull.
Hypothesis HBool : forall b, P (JBool b).
Hypothesis HNumber : forall n, P (JNumber n).
Hypothesis HString : forall s, P (JString s).
Hypothesis HArray : forall items, Forall P items -> P (JArray items).
Hypothesis HObject :
  forall props, Forall (fun kv => P (snd kv)) props -> P (JObject props).

Fixpoint json_forall (v : json) : P v :=
  match v with
  | JNull => HNull
  | JBool b => HBool b
  | JNumber n => HNumber n
  | JString s => HString s
  | JArray items =>
      HArray items
        ((fix all (l : list json) : Forall P l :=
            match l with
            | [] => Forall_nil _
            | x :: r => Forall_cons x (json_forall x) (all r)
            end) items)
  | JObject props =>
      HObject props
        ((fix all (l : list (jsstring * json))
            : Forall (fun kv => P (snd kv)) l :=
            match l with
            | [] => Forall_nil _
            | kv :: r => Forall_cons kv (json_forall (snd kv)) (all r)
            end) props)
  end.

End JsonInduction.

(** A value all of whose strings and property names are ASCII. *)
Fixpoint ascii_json (v : json) : Prop :=
  match v with
  | JString s => is_ascii s
  | JArray items =>
      (fix all (l : list json) : Prop :=
         match l with
         | [] => True
         | x :: r => ascii_json x /\ all r
         end) items
  | JObject props =>
      (fix all (l : list (jsstring * json)) : Prop :=
         match l with
         | [] => True
         | (k, x) :: r => is_ascii k /\ ascii_json x /\ all r
         end) props
  | _ => True
  end.

Lemma hex_digit_ascii (x : Z) : is_ascii_unit (hex_digit (Z.land x 0xF)).
Proof.
  change 0xF with (Z.ones 4). rewrite Z.land_ones by lia.
  pose proof (Z.mod_pos_bound x (2 ^ 4) ltac:(lia)) as H.
  change (2 ^ 4) with 16 in *.
  unfold hex_digit, is_ascii_unit. destruct (x mod 16 <? 10); lia.
Qed.

Lemma unicode_escape_ascii (c : Z) : is_ascii (unicode_escape c).
Proof.
  unfold unicode_escape.
  repeat (constructor; [first [apply hex_digit_ascii
                              |unfold is_ascii_unit; lia]|]).
  constructor.
Qed.

Lemma quote_unit_ascii (c : Z) : is_ascii_unit c -> is_ascii (quote_unit c).
Proof.
  intros Hc. unfold quote_unit.
  repeat match goal with
         | |- is_ascii (if ?b then _ else _) => destruct b
         end;
    try apply unicode_escape_ascii;
    repeat constructor; unfold is_ascii_unit in *; unfold dquote; lia.
Qed.

Lemma quote_units_ascii (s : jsstring) :
  is_ascii s -> is_ascii (quote_units s).
Proof.
  induction 1 as [|c rest Hc Hrest IH]; [constructor|].
  cbn [quote_units].
  assert (Hhigh : is_high_surrogate c = false)
    by (unfold is_high_surrogate, is_ascii_unit in *; lia).
  rewrite Hhigh. apply is_ascii_app.
  split; [apply quote_unit_ascii, Hc|exact IH].
Qed.

Lemma quote_ascii (s : jsstring) : is_ascii s -> is_ascii (quote s).
Proof.
  intros H. unfold quote. apply is_ascii_app. split.
  - repeat constructor; unfold is_ascii_unit, dquote; lia.
  - apply is_ascii_app. split; [apply quote_units_ascii, H|].
    repeat constructor; unfold is_ascii_unit, dquote; lia.
Qed.

Lemma number_text_ascii (n : Z) : is_ascii (number_text n).
Proof.
  unfold number_text. destruct (n <? 0).
  - constructor; [unfold is_ascii_unit; lia|].
    apply digits_are_ascii, decimal_digits.
  - apply digits_are_ascii, decimal_digits.
Qed.

Lemma stringify_ascii (v : json) : ascii_json v -> is_ascii (stringify v).
Proof.
  induction v as [|b|n|s|items IH|props IH] using json_forall; intros Hv.
  - apply is_asciib_ok. reflexivity.
  - destruct b; apply is_asciib_ok; reflexivity.
  - apply number_text_ascii.
  - apply quote_ascii, Hv.
  - cbn [stringify]. cbn [ascii_json] in Hv.
    apply is_ascii_app. split; [apply is_asciib_ok; reflexivity|].
    apply is_ascii_app. split; [|apply is_asciib_ok; reflexivity].
    induction IH as [|x rest Hx _ IHrest]; [constructor|].
    destruct Hv as [Hvx Hvrest].
    apply is_ascii_app. split; [apply Hx, Hvx|].
    destruct rest as [|y rest']; [constructor|].
    constructor; [unfold is_ascii_unit; lia|]. apply IHrest, Hvrest.
  - cbn [stringify]. cbn [ascii_json] in Hv.
    apply is_ascii_app. split; [apply is_asciib_ok; reflexivity|].
    apply is_ascii_app. split; [|apply is_asciib_ok; reflexivity].
    induction IH as [|[k x] rest Hx _ IHrest]; [constructor|].
    destruct Hv as (Hk & Hvx & Hvrest). cbn [snd] in Hx.
    apply is_ascii_app. split; [apply quote_ascii, Hk|].
    apply is_ascii_app. split; [apply is_asciib_ok; reflexivity|].
    apply is_ascii_app. split; [apply Hx, Hvx|].
    destruct rest as [|y rest']; [constructor|].
    constructor; [unfold is_ascii_unit; lia|]. apply IHrest, Hvrest.
Qed.

Lemma request_ascii (id : nat) (method : jsstring) (params : json) :
  is_ascii method -> ascii_json params ->
  is_ascii (stringify (request id method params)).
Proof.
  intros Hm Hp. apply stringify_ascii. unfold request. cbn [ascii_json].
  repeat split; try (apply is_asciib_ok; reflexivity); assumption.
Qed.

(** The texts of the requests numbered [first], [first + 1], ... that
    [sendRequest] builds for the given methods and parameters. *)
Fixpoint request_texts (first : nat) (calls : list (jsstring * json))
  : list jsstring :=
  match calls with
  | [] => []
  | (method, params) :: later =>
      stringify (request first method params)
      :: request_texts (S first) later
  end.

(** What the socket carries when [sendRequest] is called for each of
    them in turn. *)
Fixpoint requests_written (first : nat) (calls : list (jsstring * json))
  : JS.buffer :=
  match calls with
  | [] => []
  | (method, params) :: later =>
      sendRequest first method params ++ requests_written (S first) later
  end.

Lemma request_texts_ascii (calls : list (jsstring * json)) :
  forall first,
    Forall (fun call => is_ascii (fst call) /\ ascii_json (snd call)) calls ->
    Forall is_ascii (request_texts first calls).
Proof.
  induction calls as [|[method params] later IH]; intros first H;
    [constructor|].
  inversion H as [|? ? [Hm Hp] Hlater]; subst. cbn [request_texts].
  constructor; [apply request_ascii; assumption|apply IH, Hlater].
Qed.

Lemma requests_written_stream (calls : list (jsstring * json)) :
  forall first,
    Forall (fun call => is_ascii (fst call) /\ ascii_json (snd call)) calls ->
    requests_written first calls
    = FramerExtras.stream (request_texts first calls).
Proof.
  induction calls as [|[method params] later IH]; intros first H;
    [reflexivity|].
  inversion H as [|? ? [Hm Hp] Hlater]; subst.
  cbn [requests_written request_texts]. cbn [fst snd] in *.
  rewrite (IH _ Hlater). rewrite FramerTheorems.sendRequest_eq.
  pose proof (request_ascii first method params Hm Hp) as Hascii.
  generalize dependent (stringify (request first method params)).
  intros text Hascii. rewrite utf8_encode_ascii by apply frame_ascii, Hascii.
  reflexivity.
Qed.

(** ** X20.  Requests that are ASCII all through, method names, property
    names and strings of the parameters, are framed so that the framer
    reads them back: whatever ids they are given and however the octets
    [sendRequest] writes for them are cut into ['data'] events, every
    request text comes out whole, in the order sent, and nothing is left
    in the buffer.  No condition on the JSON text is needed, since
    [JSON.stringify] adds no character outside ASCII. *)
Theorem ascii_requests_survive_any_chunking
    (first : nat) (calls : list (jsstring * json))
    (chunks : list JS.buffer) :
  Forall (fun call => is_ascii (fst call) /\ ascii_json (snd call)) calls ->
  concat chunks = requests_written first calls ->
  receive [] chunks = Some (request_texts first calls, []).
Proof.
  intros Hcalls Hchunks.
  rewrite (requests_written_stream calls first Hcalls) in Hchunks.
  pose proof (request_texts_ascii calls first Hcalls) as Hascii.
  generalize dependent (request_texts first calls). intros texts Hchunks Hascii.
  apply FramerExtras.receive_rest_of_stream; [exact Hascii|exact Hchunks|].
  destruct texts as [|c cs]; [reflexivity|].
  unfold frame. rewrite !length_app. cbn. lia.
Qed.

Lemma ascii_requests_survive_any_chunking_witness :
  let calls :=
    [(str "health", JObject []);
     (str "findReferences",
      JObject [(str "symbolName", JString (str "greetUser"))])] in
  let written := requests_written 1 calls in
  receive [] [firstn 30 written; firstn 70 (skipn 30 written);
              skipn 100 written]
  = Some (request_texts 1 calls, []).
Proof.
  cbv zeta. apply ascii_requests_survive_any_chunking.
  - apply Forall_cons; [|apply Forall_cons; [|apply Forall_nil]];
      cbn [fst snd ascii_json]; repeat split; apply is_asciib_ok; reflexivity.
  - vm_compute. reflexivity.
Defined.

End JsonExtras.
